(** * GamestonkTerminal: the technical-analysis command router

    A shallow embedding of
    [gamestonk_terminal/technical_analysis/ta_controller.py] (the
    controller class, its command handlers and the [menu] loop) and of the
    three comparison views of
    [gamestonk_terminal/stocks/comparison_analysis/marketwatch_view.py],
    together with the part of CPython's [argparse] (3.9) that the
    controller's parsers exercise; and of the views that print a table
    and export it:
    [gamestonk_terminal/stocks/due_diligence/marketwatch_view.py],
    [gamestonk_terminal/cryptocurrency/onchain/ethgasstation_view.py],
    [gamestonk_terminal/stocks/technical_analysis/tradingview_view.py] and
    [gamestonk_terminal/cryptocurrency/due_diligence/pycoingecko_view.py].

    Python [str] values are modelled as [string] (sequences of 8-bit
    characters), so the development covers ASCII input lines. *)

From Stdlib Require Import String Ascii ZArith List Bool Lia.
From stdpp Require Import base decidable option list gmap strings.
Import ListNotations.
Local Open Scope string_scope.

(* ===================================================================== *)
(** * Python values, exceptions and the string built-ins the code uses    *)
(* ===================================================================== *)

Module Py.

(** Run-time values that travel through the controller: [None], the
    booleans, integers, strings and lists. *)
#[warnings="-register-all"] Inductive value :=
| VNone
| VBool (b : bool)
| VInt (n : Z)
| VStr (s : string)
| VList (l : list value).

(** Python's [==] on these values ([True == 1] and [False == 0]). *)
Fixpoint value_eqb (x y : value) {struct x} : bool :=
  match x, y with
  | VNone, VNone => true
  | VBool a, VBool b => Bool.eqb a b
  | VBool a, VInt n | VInt n, VBool a => Z.eqb n (if a then 1 else 0)
  | VInt a, VInt b => Z.eqb a b
  | VStr a, VStr b => String.eqb a b
  | VList a, VList b =>
      (fix go (l1 l2 : list value) {struct l1} : bool :=
         match l1, l2 with
         | [], [] => true
         | v1 :: t1, v2 :: t2 => value_eqb v1 v2 && go t1 t2
         | _, _ => false
         end) a b
  | _, _ => false
  end.

(** [v in l] *)
Definition value_in (v : value) (l : list value) : bool :=
  existsb (value_eqb v) l.

(** Exceptions.  The first three classes derive from [BaseException]
    only; the others are [Exception] subclasses.  An exception carries
    the data its message is built from rather than the rendered text. *)
Inductive exn :=
| SystemExit (status : Z)
| KeyboardInterrupt
| BaseException (name msg : string)
| EOFError
| TypeError (msg : string)
| ValueError (literal : string)
| ArgumentTypeError (msg : string)
| Exception (name msg : string).

(** [isinstance(e, Exception)]: what [except Exception] catches. *)
Definition is_Exception (e : exn) : bool :=
  match e with
  | SystemExit _ | KeyboardInterrupt | BaseException _ _ => false
  | _ => true
  end.

(** The result of running fallible code. *)
Inductive outcome (A : Type) :=
| Ret (a : A)
| Raise (e : exn).
Arguments Ret {A} a.
Arguments Raise {A} e.

(** The one-character string holding a line feed. *)
Definition newline : string := String (ascii_of_nat 10) EmptyString.

(** ASCII characters for which [str.isspace] holds: TAB..CR, FS..US and
    the space. *)
Definition isspace (c : ascii) : bool :=
  let n := nat_of_ascii c in
  ((9 <=? n)%nat && (n <=? 13)%nat) || ((28 <=? n)%nat && (n <=? 32)%nat).

Definition isdigit (c : ascii) : bool :=
  let n := nat_of_ascii c in (48 <=? n)%nat && (n <=? 57)%nat.

Definition digit_value (c : ascii) : Z := Z.of_nat (nat_of_ascii c - 48).

(** [s.split()]: maximal runs of non-whitespace characters. *)
Fixpoint split_from (cur : string) (s : string) : list string :=
  match s with
  | EmptyString => match cur with EmptyString => [] | _ => [cur] end
  | String c s' =>
      if isspace c
      then match cur with
           | EmptyString => split_from "" s'
           | _ => cur :: split_from "" s'
           end
      else split_from (cur +:+ String c "") s'
  end.

Definition split (s : string) : list string := split_from "" s.

(** [s.split(sep)] for a one-character separator: empty fields are
    kept. *)
Fixpoint split_on_from (sep : ascii) (cur : string) (s : string) : list string :=
  match s with
  | EmptyString => [cur]
  | String c s' =>
      if Ascii.eqb c sep
      then cur :: split_on_from sep "" s'
      else split_on_from sep (cur +:+ String c "") s'
  end.

Definition split_on (sep : ascii) (s : string) : list string :=
  split_on_from sep "" s.

(** The whitespace that [int] skips at both ends of an ASCII string:
    TAB..CR and the space (the separators FS..US are not skipped). *)
Definition int_space (c : ascii) : bool :=
  let n := nat_of_ascii c in
  ((9 <=? n)%nat && (n <=? 13)%nat) || (n =? 32)%nat.

Fixpoint lstrip (s : string) : string :=
  match s with
  | String c s' => if int_space c then lstrip s' else s
  | EmptyString => EmptyString
  end.

Fixpoint rstrip (s : string) : string :=
  match s with
  | EmptyString => EmptyString
  | String c s' =>
      match rstrip s' with
      | EmptyString => if int_space c then EmptyString else String c EmptyString
      | r => String c r
      end
  end.

Definition strip (s : string) : string := rstrip (lstrip s).

(** Decimal digits with single underscores allowed between digits.
    [after_digit] tells whether the previous character was a digit. *)
Fixpoint int_digits (acc : Z) (after_digit : bool) (s : string) : option Z :=
  match s with
  | EmptyString => if after_digit then Some acc else None
  | String c s' =>
      if isdigit c then int_digits (10 * acc + digit_value c)%Z true s'
      else if Ascii.eqb c "_" then
             if after_digit then int_digits acc false s' else None
           else None
  end.

(** The number of decimal digits in the string. *)
Fixpoint digit_count (s : string) : Z :=
  match s with
  | EmptyString => 0
  | String c s' => ((if isdigit c then 1 else 0) + digit_count s')%Z
  end.

(** [sys.int_info.default_max_str_digits], the limit of the conversions
    between [int] and [str] (CPython 3.9.14 and later). *)
Definition max_str_digits : Z := 4300.

(** [int(s)] on a string: surrounding whitespace, an optional sign and
    base-10 digits; anything else raises [ValueError], and so does a
    literal of more than [max_str_digits] digits (leading zeros count,
    the sign, the whitespace and the underscores do not). *)
Definition int (s : string) : outcome Z :=
  let r :=
    match strip s with
    | String "+" d => int_digits 0 false d
    | String "-" d => option_map Z.opp (int_digits 0 false d)
    | d => int_digits 0 false d
    end in
  match r with
  | Some n =>
      if (max_str_digits <? digit_count s)%Z then Raise (ValueError s) else Ret n
  | None => Raise (ValueError s)
  end.

End Py.
Export Py.

(* ===================================================================== *)
(** * argparse                                                            *)
(* ===================================================================== *)

(** The parsers built in the controller use [add_argument] with the
    default [nargs] (one argument string per action) and the default
    [store] action, the default prefix character [-] and abbreviations
    allowed.  This module follows [ArgumentParser.parse_known_args] of
    CPython 3.9 for such parsers.  Where CPython indexes into
    [arg_strings], the model walks the list of remaining argument strings
    paired with their pattern letters. *)
Module Argparse.

(** An action as [add_argument] creates it.  [option_strings] is empty
    for a positional.  [type_func = None] is the identity conversion. *)
Record action := {
  option_strings : list string;
  dest : string;
  type_name : string;
  type_func : option (string -> outcome value);
  default : value;
  choices : option (list value);
  required : bool
}.

Record parser := {
  prog : string;
  actions : list action        (* [_actions], in insertion order *)
}.

Definition namespace := list (string * value).

Fixpoint getattr (n : namespace) (d : string) : option value :=
  match n with
  | [] => None
  | (k, v) :: n' => if String.eqb k d then Some v else getattr n' d
  end.

Fixpoint setattr (n : namespace) (d : string) (v : value) : namespace :=
  match n with
  | [] => [(d, v)]
  | (k, w) :: n' =>
      if String.eqb k d then (k, v) :: n' else (k, w) :: setattr n' d v
  end.

(** Why an [ArgumentError] was raised for an argument. *)
Inductive reason :=
| InvalidChoice (v : value) (allowed : list value)
| InvalidValue (type_name : string) (arg_string : string)
| TypeMessage (msg : string)
| ExpectedOneArgument.

(** The ways [_parse_known_args] stops without a namespace:
    an [ArgumentError] (caught by [parse_known_args] and handed to
    [error]), a direct call of [error], or an exception of a type
    function that argparse does not intercept. *)
Inductive failure :=
| ArgumentError (argument_name : string) (why : reason)
| RequiredMissing (names : list string)
| AmbiguousOption (option : string) (matches : list string)
| Propagated (e : exn).

Definition res (A : Type) : Type := failure + A.

Definition bind {A B} (m : res A) (k : A -> res B) : res B :=
  match m with
  | inl f => inl f
  | inr a => k a
  end.

Notation "'let*' x ':=' m 'in' k" := (bind m (fun x => k))
  (at level 10, x pattern, m at level 100, k at level 200).

(** [_get_action_name] *)
Definition action_name (a : action) : string :=
  match option_strings a with
  | [] => dest a
  | o :: os => fold_left (fun acc s => acc +:+ "/" +:+ s) os o
  end.

Definition positional_actions (p : parser) : list action :=
  List.filter (fun a => match option_strings a with [] => true | _ => false end)
         (actions p).

(** [_option_string_actions], in insertion order. *)
Definition option_string_actions (p : parser) : list (string * action) :=
  flat_map (fun a => map (fun s => (s, a)) (option_strings a)) (actions p).

Fixpoint lookup_option (l : list (string * action)) (s : string) : option action :=
  match l with
  | [] => None
  | (k, a) :: l' => if String.eqb k s then Some a else lookup_option l' s
  end.

(** ** Recognising option strings *)

Fixpoint all_digits (s : string) : bool :=
  match s with
  | EmptyString => true
  | String c s' => isdigit c && all_digits s'
  end.

Definition digits1 (s : string) : bool :=
  match s with EmptyString => false | _ => all_digits s end.

(** digits, a dot, at least one digit *)
Fixpoint digits_dot_digits1 (s : string) : bool :=
  match s with
  | EmptyString => false
  | String c s' =>
      if Ascii.eqb c "." then digits1 s'
      else isdigit c && digits_dot_digits1 s'
  end.

(** [$] also matches just before a final newline. *)
Fixpoint drop_final_newline (s : string) : string :=
  match s with
  | EmptyString => EmptyString
  | String c s' =>
      if String.eqb s newline then EmptyString
      else String c (drop_final_newline s')
  end.

(** [_negative_number_matcher], the regular expression
    [^-\d+$|^-\d*\.\d+$]. *)
Definition negative_number (s : string) : bool :=
  match s with
  | String "-" r =>
      digits1 r || digits1 (drop_final_newline r)
      || digits_dot_digits1 r || digits_dot_digits1 (drop_final_newline r)
  | _ => false
  end.

Definition has_negative_number_optionals (p : parser) : bool :=
  existsb (fun sa => negative_number (fst sa)) (option_string_actions p).

Fixpoint contains (c : ascii) (s : string) : bool :=
  match s with
  | EmptyString => false
  | String d s' => Ascii.eqb c d || contains c s'
  end.

(** [s.split(c, 1)] when [c] occurs in [s]: the text before and after
    the first [c]. *)
Fixpoint split_first (c : ascii) (s : string) : string * string :=
  match s with
  | EmptyString => (EmptyString, EmptyString)
  | String d s' =>
      if Ascii.eqb c d then (EmptyString, s')
      else let '(a, b) := split_first c s' in (String d a, b)
  end.

(** What [_parse_optional] returns for an option string:
    the action (if any), the option string and an explicit argument. *)
Definition option_tuple : Type := option action * string * option string.

(** [_get_option_tuples], called with at least two characters of which
    the first is [-]. *)
Definition get_option_tuples (p : parser) (arg_string : string) : list option_tuple :=
  match arg_string with
  | String "-" (String "-" _) =>
      let '(option_prefix, explicit_arg) :=
        if contains "=" arg_string
        then let '(a, b) := split_first "=" arg_string in (a, Some b)
        else (arg_string, None) in
      omap (fun sa : string * action =>
              if String.prefix option_prefix (fst sa)
              then Some (Some (snd sa), fst sa, explicit_arg)
              else None)
           (option_string_actions p)
  | String "-" (String c rest) =>
      let short_option_prefix := String "-" (String c EmptyString) in
      let short_explicit_arg := rest in
      omap (fun sa : string * action =>
              if String.eqb (fst sa) short_option_prefix
              then Some (Some (snd sa), fst sa, Some short_explicit_arg)
              else if String.prefix arg_string (fst sa)
                   then Some (Some (snd sa), fst sa, None)
                   else None)
           (option_string_actions p)
  | _ => []
  end.

(** [_parse_optional]: [inr None] for a positional-looking string,
    [inr (Some t)] for an option string, [inl] when [error] is called
    for an ambiguous abbreviation. *)
Definition parse_optional (p : parser) (arg_string : string) : res (option option_tuple) :=
  match arg_string with
  | EmptyString => inr None
  | String c0 _ =>
      if negb (Ascii.eqb c0 "-") then inr None else
      match lookup_option (option_string_actions p) arg_string with
      | Some a => inr (Some (Some a, arg_string, None))
      | None =>
          if (String.length arg_string =? 1)%nat then inr None else
          let by_equals :=
            if contains "=" arg_string then
              let '(option_string, explicit_arg) := split_first "=" arg_string in
              match lookup_option (option_string_actions p) option_string with
              | Some a => Some (Some a, option_string, Some explicit_arg)
              | None => None
              end
            else None in
          match by_equals with
          | Some t => inr (Some t)
          | None =>
              match get_option_tuples p arg_string with
              | [t] => inr (Some t)
              | (_ :: _ :: _) as ts =>
                  inl (AmbiguousOption arg_string
                         (map (fun t : option_tuple => snd (fst t)) ts))
              | [] =>
                  if negative_number arg_string
                     && negb (has_negative_number_optionals p)
                  then inr None
                  else if contains " " arg_string then inr None
                  else inr (Some (None, arg_string, None))
              end
          end
      end
  end.

(** The letters of [arg_strings_pattern]: [A] for an argument, [O] for
    an option string (with what [_parse_optional] found), [Dash] for the
    first [--]. *)
Inductive letter :=
| A
| O (t : option_tuple)
| Dash.

Definition token : Type := string * letter.

(** The first loop of [_parse_known_args]: after the first [--] every
    string is an argument. *)
Fixpoint classify (p : parser) (after_dashes : bool) (args : list string) : res (list token) :=
  match args with
  | [] => inr []
  | s :: args' =>
      if after_dashes then
        let* ts := classify p true args' in inr ((s, A) :: ts)
      else if String.eqb s "--" then
        let* ts := classify p true args' in inr ((s, Dash) :: ts)
      else
        let* o := parse_optional p s in
        let* ts := classify p false args' in
        inr ((s, match o with Some t => O t | None => A end) :: ts)
  end.

(** ** Converting and storing values *)

(** [_get_value] *)
Definition get_value (a : action) (arg_string : string) : res value :=
  match type_func a with
  | None => inr (VStr arg_string)
  | Some f =>
      match f arg_string with
      | Ret v => inr v
      | Raise (ArgumentTypeError msg) =>
          inl (ArgumentError (action_name a) (TypeMessage msg))
      | Raise (TypeError _) | Raise (ValueError _) =>
          inl (ArgumentError (action_name a) (InvalidValue (type_name a) arg_string))
      | Raise e => inl (Propagated e)
      end
  end.

(** [_check_value] *)
Definition check_value (a : action) (v : value) : res unit :=
  match choices a with
  | Some allowed =>
      if value_in v allowed then inr tt
      else inl (ArgumentError (action_name a) (InvalidChoice v allowed))
  | None => inr tt
  end.

(** [list.remove], doing nothing when the element is absent. *)
Fixpoint remove_first (x : string) (l : list string) : list string :=
  match l with
  | [] => []
  | y :: l' => if String.eqb x y then l' else y :: remove_first x l'
  end.

Fixpoint get_value_each (a : action) (l : list string) : res (list value) :=
  match l with
  | [] => inr []
  | s :: l' =>
      let* v := get_value a s in let* vs := get_value_each a l' in inr (v :: vs)
  end.

Fixpoint check_value_each (a : action) (l : list value) : res unit :=
  match l with
  | [] => inr tt
  | v :: l' => let* _ := check_value a v in check_value_each a l'
  end.

(** [_get_values] for the default [nargs]: the first [--] is dropped;
    exactly one remaining string gives one value, any other number a
    list. *)
Definition get_values (a : action) (arg_strings : list string) : res value :=
  match remove_first "--" arg_strings with
  | [arg_string] =>
      let* v := get_value a arg_string in
      let* _ := check_value a v in
      inr v
  | l =>
      let* vs := get_value_each a l in
      let* _ := check_value_each a vs in
      inr (VList vs)
  end.

(** The loop state: the namespace, [extras], [seen_actions] (by [dest])
    and the positionals not yet consumed. *)
Record pstate := {
  ns : namespace;
  extras : list string;
  seen : list string;
  positionals : list action
}.

(** [take_action] with the [store] action. *)
Definition take_action (a : action) (argument_strings : list string) (st : pstate) : res pstate :=
  let* v := get_values a argument_strings in
  inr {| ns := setattr (ns st) (dest a) v;
         extras := extras st;
         seen := dest a :: seen st;
         positionals := positionals st |}.

Definition add_extras (l : list string) (st : pstate) : pstate :=
  {| ns := ns st; extras := extras st ++ l; seen := seen st;
     positionals := positionals st |}.

(** ** Matching positionals *)

Fixpoint count_dashes (pat : list letter) : nat :=
  match pat with
  | Dash :: pat' => S (count_dashes pat')
  | _ => 0
  end.

(** The length of the match of a positional's pattern (any dashes, one
    [A], any dashes, matched greedily) at the start of [pat]. *)
Definition match_positional (pat : list letter) : option nat :=
  let d := count_dashes pat in
  match drop d pat with
  | A :: pat' => Some (d + 1 + count_dashes pat')%nat
  | _ => None
  end.

(** [_match_arguments_partial]: the argument counts of the longest
    prefix of the positionals whose patterns match in sequence. *)
Fixpoint match_arguments_partial (acts : list action) (pat : list letter) : list nat :=
  match acts with
  | [] => []
  | _ :: acts' =>
      match match_positional pat with
      | Some k => k :: match_arguments_partial acts' (drop k pat)
      | None => []
      end
  end.

Fixpoint take_positionals (acts : list action) (counts : list nat)
         (toks : list token) (st : pstate) : res pstate :=
  match acts, counts with
  | a :: acts', k :: counts' =>
      let* st' := take_action a (map fst (take k toks)) st in
      take_positionals acts' counts' (drop k toks) st'
  | _, _ => inr st
  end.

(** [consume_positionals]: returns how many strings were consumed. *)
Definition consume_positionals (toks : list token) (st : pstate) : res (nat * pstate) :=
  let counts := match_arguments_partial (positionals st) (map snd toks) in
  let* st' := take_positionals (positionals st) counts toks st in
  inr (fold_right Nat.add 0%nat counts,
       {| ns := ns st'; extras := extras st'; seen := seen st';
          positionals := drop (length counts) (positionals st) |}).

(** [consume_optional] for the option string [s] found at the head of
    the remaining strings, [rest] being what follows it: returns how
    many strings of [rest] were consumed as its argument. *)
Definition consume_optional (t : option_tuple) (s : string) (rest : list token)
           (st : pstate) : res (nat * pstate) :=
  match t with
  | (None, _, _) => inr (0%nat, add_extras [s] st)
  | (Some a, _, Some explicit_arg) =>
      let* st' := take_action a [explicit_arg] st in inr (0%nat, st')
  | (Some a, _, None) =>
      match rest with
      | (s1, A) :: _ => let* st' := take_action a [s1] st in inr (1%nat, st')
      | _ => inl (ArgumentError (action_name a) ExpectedOneArgument)
      end
  end.

Definition is_option (t : token) : bool :=
  match snd t with O _ => true | _ => false end.

(** The strings before the next option string, and the rest. *)
Fixpoint until_option (toks : list token) : list token * list token :=
  match toks with
  | [] => ([], [])
  | t :: toks' =>
      if is_option t then ([], toks)
      else let '(a, b) := until_option toks' in (t :: a, b)
  end.

(** What follows the [while] loop: the remaining positionals are
    consumed and what is left goes to [extras]. *)
Definition finish (toks : list token) (st : pstate) : res pstate :=
  let* (k, st') := consume_positionals toks st in
  inr (add_extras (map fst (drop k toks)) st').

(** The [while start_index <= max_option_string_index] loop.  [toks]
    are the strings from [start_index] on; the loop runs while an option
    string remains among them.  Every iteration consumes at least one
    string, so [fuel = length toks] iterations suffice (see
    [parse_loop_fuel]). *)
Fixpoint parse_loop (fuel : nat) (toks : list token) (st : pstate) : res pstate :=
  match fuel with
  | 0%nat => finish toks st
  | S fuel' =>
      if existsb is_option toks then
        match toks with
        | (s, O t) :: rest =>
            let* (k, st') := consume_optional t s rest st in
            parse_loop fuel' (drop k rest) st'
        | _ =>
            let* (k, st1) := consume_positionals toks st in
            if (0 <? k)%nat then parse_loop fuel' (drop k toks) st1
            else
              let '(before, from_option) := until_option toks in
              let st2 := add_extras (map fst before) st1 in
              match from_option with
              | (s, O t) :: rest =>
                  let* (k', st') := consume_optional t s rest st2 in
                  parse_loop fuel' (drop k' rest) st'
              | _ => finish from_option st2
              end
        end
      else finish toks st
  end.

(** The check that every required action was seen. *)
Definition check_required (p : parser) (st : pstate) : res pstate :=
  match List.filter (fun a => required a && negb (existsb (String.eqb (dest a)) (seen st)))
               (actions p) with
  | [] => inr st
  | missing => inl (RequiredMissing (map action_name missing))
  end.

(** The defaults set on a fresh namespace. *)
Definition initial_namespace (p : parser) : namespace :=
  fold_left (fun n a =>
               match getattr n (dest a) with
               | Some _ => n
               | None => setattr n (dest a) (default a)
               end)
            (actions p) [].

(** [_parse_known_args] on a fresh namespace.  None of the parsers of
    this module has a string default, so the late conversion of string
    defaults does not arise. *)
Definition parse_known_args_inner (p : parser) (args : list string)
  : res (namespace * list string) :=
  let* toks := classify p false args in
  let* st := parse_loop (length toks) toks
                {| ns := initial_namespace p; extras := []; seen := [];
                   positionals := positional_actions p |} in
  let* st' := check_required p st in
  inr (ns st', extras st').

(** What a call of [parse_known_args] does: it returns the namespace
    and the unrecognised strings, or calls [error] (usage and message on
    standard error, then [SystemExit] with status 2), or lets a foreign
    exception through. *)
Inductive parse_result :=
| Parsed (n : namespace) (unknown : list string)
| Exits (prog : string) (f : failure)
| Throws (e : exn).

Definition parse_known_args (p : parser) (args : list string) : parse_result :=
  match parse_known_args_inner p args with
  | inr (n, unknown) => Parsed n unknown
  | inl (Propagated e) => Throws e
  | inl f => Exits (prog p) f
  end.

(** ** Shapes of token lists, used to reason about the loop *)

Definition starts_with_dash (s : string) : bool :=
  match s with
  | String "-" _ => true
  | _ => false
  end.

(** Token lists as [classify] produces them for a parser without option
    strings: an option string carries no action, the separator is the
    string [--], and the string [--] is an argument only after the
    separator, after which everything is an argument. *)
Fixpoint wf (after_dashes : bool) (toks : list token) : Prop :=
  match toks with
  | [] => True
  | (s, A) :: toks' => (after_dashes = true \/ s <> "--") /\ wf after_dashes toks'
  | (s, Dash) :: toks' => after_dashes = false /\ s = "--" /\ wf true toks'
  | (s, O t) :: toks' => after_dashes = false /\ fst (fst t) = None /\ wf false toks'
  end.

(** Every option string is unknown to the parser. *)
Definition plain (toks : list token) : Prop :=
  Forall (fun t : token => forall u, snd t = O u -> fst (fst u) = None) toks.

End Argparse.

(* ===================================================================== *)
(** * helper_funcs                                                        *)
(* ===================================================================== *)

Module HelperFuncs.

(** Modelled from the spec: [helper_funcs.check_positive], the [type] of
    the [--offset] option, is not among the sources.  The spec gives the
    option as a "non-negative integer": the string is converted with
    [int] and a negative result is refused with [ArgumentTypeError]. *)
Definition check_positive (s : string) : outcome value :=
  match int s with
  | Ret n =>
      if (n <? 0)%Z
      then Raise (ArgumentTypeError (s +:+ " is negative"))
      else Ret (VInt n)
  | Raise e => Raise e
  end.

(** What [parse_known_args_and_warn] hands back: the options record or
    the "no result" sentinel [None], and what it wrote while doing so. *)
Inductive warning :=
| ParseFailed (prog : string) (f : Argparse.failure)
| UnknownArguments (l : list string).

(** Modelled from the spec: [helper_funcs.parse_known_args_and_warn] is
    not among the sources.  Per the spec's per-command argument parser it
    parses the tokens against the declared schema and yields the options
    record; on a failure (type coercion failure, failed validity
    predicate, unknown flag) it emits a warning and returns the sentinel
    rather than raising.  An exception of a type function that argparse
    does not intercept is not a parsing failure and passes through. *)
Definition parse_known_args_and_warn (p : Argparse.parser) (other_args : list string)
  : outcome (option Argparse.namespace) * list warning :=
  match Argparse.parse_known_args p other_args with
  | Argparse.Parsed n [] => (Ret (Some n), [])
  | Argparse.Parsed n unknown => (Ret None, [UnknownArguments unknown])
  | Argparse.Exits prog f => (Ret None, [ParseFailed prog f])
  | Argparse.Throws e => (Raise e, [])
  end.

End HelperFuncs.

(* ===================================================================== *)
(** * technical_analysis/ta_controller.py                                 *)
(* ===================================================================== *)

Module TA.
Import Argparse HelperFuncs.

(** [TechnicalAnalysisController.CHOICES] *)
Definition CHOICES : list string :=
  [ "help"; "q"; "quit"; "view"; "summary"; "recom"; "pr";
    "ema"; "sma"; "vwap";
    "cci"; "macd"; "rsi"; "stoch";
    "adx"; "aroon";
    "bbands";
    "ad"; "obv" ].

(** The [cmd] positional of [ta_parser]. *)
Definition cmd_action : action :=
  {| option_strings := [];
     dest := "cmd";
     type_name := "None";
     type_func := None;
     default := VNone;
     choices := Some (map VStr CHOICES);
     required := true |}.

(** [argparse.ArgumentParser(add_help=False, prog="ta")] with the [cmd]
    argument, as [__init__] builds it. *)
Definition make_ta_parser : parser :=
  {| prog := "ta"; actions := [cmd_action] |}.

(** [lambda s: [int(item) for item in s.split(",")]] *)
Fixpoint int_each (items : list string) : outcome (list value) :=
  match items with
  | [] => Ret []
  | item :: items' =>
      match int item with
      | Raise e => Raise e
      | Ret n =>
          match int_each items' with
          | Raise e => Raise e
          | Ret l => Ret (VInt n :: l)
          end
      end
  end.

Definition length_type (s : string) : outcome value :=
  match int_each (split_on "," s) with
  | Ret l => Ret (VList l)
  | Raise e => Raise e
  end.

(** The [-l/--length] and [-o/--offset] arguments that [call_ema] and
    [call_sma] both declare. *)
Definition length_action : action :=
  {| option_strings := ["-l"; "--length"];
     dest := "length";
     type_name := "<lambda>";
     type_func := Some length_type;
     default := VList [VInt 20; VInt 50];
     choices := None;
     required := false |}.

Definition offset_action : action :=
  {| option_strings := ["-o"; "--offset"];
     dest := "offset";
     type_name := "check_positive";
     type_func := Some check_positive;
     default := VInt 0;
     choices := None;
     required := false |}.

Definition ema_parser : parser :=
  {| prog := "ema"; actions := [length_action; offset_action] |}.

Definition sma_parser : parser :=
  {| prog := "sma"; actions := [length_action; offset_action] |}.

(** The [ArgumentError] that [cmd]'s [choices] raise for a string that
    is not a command. *)
Definition invalid_choice (s : string) : failure :=
  ArgumentError "cmd" (InvalidChoice (VStr s) (map VStr CHOICES)).

(** ** The world around the controller *)

(** The identity of a mutable object the controller only holds a
    reference to (the [stock] data frame, the [gst] object). *)
Definition objref := nat.

(** Calls that leave this module: the view and indicator functions the
    handlers delegate to, and matplotlib. *)
Inductive ext_call :=
| finviz_view_view (other_args : list string) (ticker : string)
| finbrain_view_technical_summary_report (other_args : list string) (ticker : string)
| tradingview_view_print_recommendation (other_args : list string) (ticker : string)
| finnhub_view_pattern_recognition_view (other_args : list string) (ticker : string)
| ta_overlap_ema (gst : objref) (length offset : value)
| ta_overlap_sma (gst : objref) (length offset : value)
| ta_overlap_vwap (other_args : list string) (ticker interval : string) (stock : objref)
| ta_momentum_cci (other_args : list string) (ticker interval : string) (stock : objref)
| ta_momentum_macd (other_args : list string) (ticker interval : string) (stock : objref)
| ta_momentum_rsi (other_args : list string) (ticker interval : string) (stock : objref)
| ta_momentum_stoch (other_args : list string) (ticker interval : string) (stock : objref)
| ta_trend_adx (other_args : list string) (ticker interval : string) (stock : objref)
| ta_trend_aroon (other_args : list string) (ticker interval : string) (stock : objref)
| ta_volatility_bbands (other_args : list string) (ticker interval : string) (stock : objref)
| ta_volume_ad (other_args : list string) (ticker interval : string) (stock : objref)
| ta_volume_obv (other_args : list string) (ticker interval : string) (stock : objref)
| plt_close (which : string)
| plt_ion
| plt_show.

(** What an observer sees, in order. *)
Inductive event :=
| Print (text : string)                        (* [print(text)] *)
| PrintExn (e : exn)                           (* [print(e, "\n")] *)
| ParserError (prog : string) (f : failure)    (* usage and message on stderr *)
| Warned (w : warning)                         (* by [parse_known_args_and_warn] *)
| Called (c : ext_call)                        (* a collaborator was invoked *)
| Wrote (text : string)                        (* output of a collaborator *)
| Prompted (toolkit : bool) (line : string)    (* prompt shown and a line read *)
| Switch (an_input : string).                  (* [switch] was entered *)

(** The regular files that exist, what [os.remove] would raise for
    each of them (say [PermissionError] for a file in a read-only
    directory or held open; [None] for a file that can be deleted), and
    the events so far. *)
Record world := {
  fs : gset string;
  remove_error : string -> option exn;
  trace : list event
}.

(** A collaborator sees the call and the world; it returns or raises,
    may change the files and may write output.  It has no reference to
    the controller. *)
Definition collaborators : Type :=
  ext_call -> world -> outcome unit * gset string * list string.

(** [gamestonk_terminal.feature_flags], and whether [menu.session] is
    set. *)
Record feature_flags := {
  USE_ION : bool;
  USE_PROMPT_TOOLKIT : bool;
  session : bool
}.

(** The fields of a [TechnicalAnalysisController].  [start] holds the
    rendering of the start date by [strftime('%Y-%m-%d')], or [None]. *)
Record controller := {
  stock : objref;
  ticker : string;
  start : option string;
  interval : string;
  delete_img : bool;
  gst : objref;
  ta_parser : parser
}.

(** [__init__] *)
Definition init (stock : objref) (ticker : string) (start : option string)
           (interval : string) (gst : objref) : controller :=
  {| stock := stock; ticker := ticker; start := start; interval := interval;
     delete_img := false; gst := gst; ta_parser := make_ta_parser |}.

Definition set_delete_img (b : bool) (c : controller) : controller :=
  {| stock := stock c; ticker := ticker c; start := start c;
     interval := interval c; delete_img := b; gst := gst c;
     ta_parser := ta_parser c |}.

Definition log (evs : list event) (w : world) : world :=
  {| fs := fs w; remove_error := remove_error w; trace := trace w ++ evs |}.

(** ** Methods as state transformers that may raise *)

Definition M (A : Type) : Type :=
  controller -> world -> outcome A * controller * world.

Definition ret {A} (a : A) : M A := fun c w => (Ret a, c, w).

Definition raise {A} (e : exn) : M A := fun c w => (Raise e, c, w).

Definition mbind {A B} (m : M A) (k : A -> M B) : M B :=
  fun c w =>
    match m c w with
    | (Ret a, c', w') => k a c' w'
    | (Raise e, c', w') => (Raise e, c', w')
    end.

Notation "'let!' x ':=' m 'in' k" := (mbind m (fun x => k))
  (at level 10, x pattern, m at level 100, k at level 200).
Notation "m ;; k" := (mbind m (fun _ => k))
  (at level 100, right associativity).

(** [try: body  except Exception as e: handler(e)] *)
Definition try_except_Exception {A} (body : M A) (handler : exn -> M A) : M A :=
  fun c w =>
    match body c w with
    | (Raise e, c', w') =>
        if is_Exception e then handler e c' w' else (Raise e, c', w')
    | r => r
    end.

Definition self {A} (field : controller -> A) : M A :=
  fun c w => (Ret (field c), c, w).

Definition emit (ev : event) : M unit :=
  fun c w => (Ret tt, c, log [ev] w).

Definition print (text : string) : M unit := emit (Print text).

(** [self.delete_img = b] *)
Definition assign_delete_img (b : bool) : M unit :=
  fun c w => (Ret tt, set_delete_img b c, w).

(** [os.path.isfile] on the modelled files. *)
Definition os_path_isfile (path : string) : M bool :=
  fun c w => (Ret (bool_decide (path ∈ fs w)), c, w).

(** [os.remove]: a missing file gives [FileNotFoundError]; an existing
    file is deleted, unless the deletion is refused, and then the error is
    raised and the file stays. *)
Definition os_remove (path : string) : M unit :=
  fun c w =>
    if bool_decide (path ∈ fs w)
    then match remove_error w path with
         | Some e => (Raise e, c, w)
         | None =>
             (Ret tt, c,
              {| fs := fs w ∖ {[path]}; remove_error := remove_error w;
                 trace := trace w |})
         end
    else (Raise (Exception "FileNotFoundError" path), c, w).

(** [namespace.attr] *)
Definition attr (n : namespace) (d : string) : M value :=
  match getattr n d with
  | Some v => ret v
  | None => raise (Exception "AttributeError" d)
  end.

(** [parser.parse_known_args(args)] as an effect: [error] writes to
    stderr and raises [SystemExit(2)]. *)
Definition parse_known_args_M (p : parser) (args : list string)
  : M (namespace * list string) :=
  match parse_known_args p args with
  | Parsed n unknown => ret (n, unknown)
  | Exits prog f => emit (ParserError prog f) ;; raise (SystemExit 2)
  | Throws e => raise e
  end.

Definition parse_known_args_and_warn_M (p : parser) (other_args : list string)
  : M (option namespace) :=
  fun c w =>
    let '(r, warnings) := parse_known_args_and_warn p other_args in
    (r, c, log (map Warned warnings) w).

Section Controller.

Variable ext : collaborators.
Variable gtff : feature_flags.

(** Invoke a collaborator. *)
Definition call_ext (call : ext_call) : M unit :=
  fun c w =>
    let w1 := log [Called call] w in
    let '(r, files, written) := ext call w1 in
    (r, c, {| fs := files; remove_error := remove_error w1;
              trace := trace w1 ++ map Wrote written |}).

(** [print_help] *)
Definition print_help : M unit :=
  let! interval := self interval in
  let! start := self start in
  let! ticker := self ticker in
  let s_intraday :=
    if String.eqb interval "1440min" then "Daily"
    else "Intraday " +:+ interval in
  match start with
  | Some date =>
      print (newline +:+ s_intraday +:+ " Stock: " +:+ ticker
             +:+ " (from " +:+ date +:+ ")")
  | None =>
      print (newline +:+ s_intraday +:+ " Stock: " +:+ ticker)
  end ;;
  print (newline +:+ "Technical Analysis:") ;;
  print "   help        show this technical analysis menu again" ;;
  print "   q           quit this menu, and shows back to main menu" ;;
  print "   quit        quit to abandon program" ;;
  print "" ;;
  print "   view        view historical data and trendlines [Finviz]" ;;
  print "   summary     technical summary report [FinBrain API]" ;;
  print "   recom       recommendation based on Technical Indicators [Tradingview API]" ;;
  print "   pr          pattern recognition [Finnhub]" ;;
  print "" ;;
  print "overlap:" ;;
  print "   ema         exponential moving average" ;;
  print "   sma         simple moving average" ;;
  print "   vwap        volume weighted average price" ;;
  print "momentum:" ;;
  print "   cci         commodity channel index" ;;
  print "   macd        moving average convergence/divergence" ;;
  print "   rsi         relative strength index" ;;
  print "   stoch       stochastic oscillator" ;;
  print "trend:" ;;
  print "   adx         average directional movement index" ;;
  print "   aroon       aroon indicator" ;;
  print "volatility:" ;;
  print "   bbands      bollinger bands" ;;
  print "volume:" ;;
  print "   ad          chaikin accumulation/distribution line values" ;;
  print "   obv         on balance volume" ;;
  print "".

(** ** The command handlers.  A handler without a [return] statement
    returns [None]. *)

Definition call_help (_ : list string) : M value :=
  print_help ;; ret VNone.

Definition call_q (_ : list string) : M value := ret (VBool false).

Definition call_quit (_ : list string) : M value := ret (VBool true).

Definition call_view (other_args : list string) : M value :=
  let! ticker := self ticker in
  call_ext (finviz_view_view other_args ticker) ;;
  assign_delete_img true ;;
  ret VNone.

Definition call_summary (other_args : list string) : M value :=
  let! ticker := self ticker in
  call_ext (finbrain_view_technical_summary_report other_args ticker) ;;
  ret VNone.

Definition call_recom (other_args : list string) : M value :=
  let! ticker := self ticker in
  call_ext (tradingview_view_print_recommendation other_args ticker) ;;
  ret VNone.

Definition call_pr (other_args : list string) : M value :=
  let! ticker := self ticker in
  call_ext (finnhub_view_pattern_recognition_view other_args ticker) ;;
  ret VNone.

(** The body shared by [call_ema] and [call_sma], which differ in the
    parser's [prog] and in the indicator called. *)
Definition moving_average (p : parser)
           (indicator : objref -> value -> value -> ext_call)
           (other_args : list string) : M value :=
  try_except_Exception
    (let! ns_parser := parse_known_args_and_warn_M p other_args in
     match ns_parser with
     | None => ret VNone
     | Some n =>
         let! gst := self gst in
         let! length := attr n "length" in
         let! offset := attr n "offset" in
         call_ext (indicator gst length offset) ;;
         (if USE_ION gtff then call_ext plt_ion else ret tt) ;;
         call_ext plt_show ;;
         print "" ;;
         ret VNone
     end)
    (fun e => emit (PrintExn e) ;; ret VNone).

Definition call_ema (other_args : list string) : M value :=
  moving_average ema_parser ta_overlap_ema other_args.

Definition call_sma (other_args : list string) : M value :=
  moving_average sma_parser ta_overlap_sma other_args.

(** The handlers that pass the tokens, the ticker, the interval and
    the stock to an indicator function. *)
Definition delegate
           (f : list string -> string -> string -> objref -> ext_call)
           (other_args : list string) : M value :=
  let! ticker := self ticker in
  let! interval := self interval in
  let! stock := self stock in
  call_ext (f other_args ticker interval stock) ;;
  ret VNone.

Definition call_vwap := delegate ta_overlap_vwap.
Definition call_cci := delegate ta_momentum_cci.
Definition call_macd := delegate ta_momentum_macd.
Definition call_rsi := delegate ta_momentum_rsi.
Definition call_stoch := delegate ta_momentum_stoch.
Definition call_adx := delegate ta_trend_adx.
Definition call_aroon := delegate ta_trend_aroon.
Definition call_bbands := delegate ta_volatility_bbands.
Definition call_ad := delegate ta_volume_ad.
Definition call_obv := delegate ta_volume_obv.

(** The [call_*] attributes of the controller. *)
Definition methods : list (string * (list string -> M value)) :=
  [ ("call_help", call_help); ("call_q", call_q); ("call_quit", call_quit);
    ("call_view", call_view); ("call_summary", call_summary);
    ("call_recom", call_recom); ("call_pr", call_pr);
    ("call_ema", call_ema); ("call_sma", call_sma); ("call_vwap", call_vwap);
    ("call_cci", call_cci); ("call_macd", call_macd); ("call_rsi", call_rsi);
    ("call_stoch", call_stoch);
    ("call_adx", call_adx); ("call_aroon", call_aroon);
    ("call_bbands", call_bbands);
    ("call_ad", call_ad); ("call_obv", call_obv) ].

(** What [getattr(self, name, lambda: "Command not recognized!")]
    evaluates to for a name starting with [call_]: the bound method,
    or the zero-argument fallback. *)
Inductive callable :=
| Method (h : list string -> M value)
| Fallback.

Fixpoint lookup_method (l : list (string * (list string -> M value)))
         (name : string) : callable :=
  match l with
  | [] => Fallback
  | (k, h) :: l' => if String.eqb k name then Method h else lookup_method l' name
  end.

Definition getattr_or_fallback (name : string) : callable :=
  lookup_method methods name.

(** Calling with the one argument [switch] supplies.  The fallback
    takes no argument. *)
Definition call1 (f : callable) (other_args : list string) : M value :=
  match f with
  | Method h => h other_args
  | Fallback =>
      raise (TypeError "<lambda>() takes 0 positional arguments but 1 was given")
  end.

(** The deletion of the spectrum figure, lines 136-140 of [switch]. *)
Definition cleanup : M unit :=
  let! pending := self delete_img in
  if pending then
    let! ticker := self ticker in
    let! present := os_path_isfile (ticker +:+ ".jpg") in
    if present then
      os_remove (ticker +:+ ".jpg") ;;
      assign_delete_img false
    else ret tt
  else ret tt.

(** The [return] statement of [switch], lines 142-144: the handler is
    looked up under ["call_" + known_args.cmd] and called. *)
Definition invoke_handler (known_args : namespace) (other_args : list string)
  : M value :=
  let! cmd := attr known_args "cmd" in
  match cmd with
  | VStr name => call1 (getattr_or_fallback ("call_" +:+ name)) other_args
  | _ => raise (TypeError "can only concatenate str to str")
  end.

(** [switch] *)
Definition switch (an_input : string) : M value :=
  emit (Switch an_input) ;;
  let! ta_parser := self ta_parser in
  let! (known_args, other_args) := parse_known_args_M ta_parser (split an_input) in
  cleanup ;;
  invoke_handler known_args other_args.

(** Whether the line is read with [session.prompt] rather than with
    [input]. *)
Definition use_toolkit : bool := session gtff && USE_PROMPT_TOOLKIT gtff.

(** The [while True] loop of [menu], over the lines the reader will
    deliver.  At the end of the input the reader raises [EOFError].
    Both readers show the same prompt and deliver one line. *)
Fixpoint menu_loop (lines : list string) : M value :=
  match lines with
  | [] => raise EOFError
  | an_input :: lines' =>
      emit (Prompted use_toolkit an_input) ;;
      fun c w =>
        match (call_ext (plt_close "all") ;; switch an_input) c w with
        | (Ret VNone, c', w') => menu_loop lines' c' w'
        | (Ret process_input, c', w') => (Ret process_input, c', w')
        | (Raise (SystemExit _), c', w') =>
            (print ("The command selected doesn't exist" +:+ newline) ;;
             menu_loop lines') c' w'
        | (Raise e, c', w') => (Raise e, c', w')
        end
  end.

(** [menu] *)
Definition menu (stock : objref) (ticker : string) (start : option string)
           (interval : string) (gst : objref) (lines : list string)
           (w : world) : outcome value * controller * world :=
  (call_help [] ;; menu_loop lines) (init stock ticker start interval gst) w.

End Controller.

(** ** Vocabulary for stating properties *)

(** The controller is as [__init__] builds it, up to the flag. *)
Definition built (c : controller) : Prop := ta_parser c = make_ta_parser.

(** [c'] differs from [c] at most in [delete_img]. *)
Definition same_session (c c' : controller) : Prop :=
  stock c' = stock c /\ ticker c' = ticker c /\ start c' = start c /\
  interval c' = interval c /\ gst c' = gst c /\ ta_parser c' = ta_parser c.

(** A computation that leaves the session context and the parser as
    they are, whether it returns or raises. *)
Definition keeps_session {A} (m : M A) : Prop :=
  forall c w, same_session c (snd (fst (m c w))).

(** [None], [False] or [True]: continue, leave the menu, leave the
    program. *)
Definition control_signal (v : value) : Prop :=
  v = VNone \/ v = VBool false \/ v = VBool true.

(** The exception was raised by a collaborator. *)
Definition upstream (ext : collaborators) (e : exn) : Prop :=
  exists call w1, fst (fst (ext call w1)) = Raise e.

(** A computation that returns nothing but control signals. *)
Definition returns_signal (m : M value) : Prop :=
  forall c w v, fst (fst (m c w)) = Ret v -> control_signal v.

(** What [print_help] prints for a controller. *)
Definition help_text (c : controller) : list event :=
  trace (snd (print_help c {| fs := ∅; remove_error := fun _ => None;
                                trace := [] |})).

(** The lines of the help text, written out: the [header] with the
    interval and the ticker, then the menu as [print_help] has it. *)
Definition help_lines (header : string) : list event :=
  [ Print header;
    Print (newline +:+ "Technical Analysis:");
    Print "   help        show this technical analysis menu again";
    Print "   q           quit this menu, and shows back to main menu";
    Print "   quit        quit to abandon program";
    Print "";
    Print "   view        view historical data and trendlines [Finviz]";
    Print "   summary     technical summary report [FinBrain API]";
    Print "   recom       recommendation based on Technical Indicators [Tradingview API]";
    Print "   pr          pattern recognition [Finnhub]";
    Print "";
    Print "overlap:";
    Print "   ema         exponential moving average";
    Print "   sma         simple moving average";
    Print "   vwap        volume weighted average price";
    Print "momentum:";
    Print "   cci         commodity channel index";
    Print "   macd        moving average convergence/divergence";
    Print "   rsi         relative strength index";
    Print "   stoch       stochastic oscillator";
    Print "trend:";
    Print "   adx         average directional movement index";
    Print "   aroon       aroon indicator";
    Print "volatility:";
    Print "   bbands      bollinger bands";
    Print "volume:";
    Print "   ad          chaikin accumulation/distribution line values";
    Print "   obv         on balance volume";
    Print "" ].

(** The number of times [switch] was entered. *)
Definition dispatches (t : list event) : nat :=
  length (List.filter (fun ev => match ev with Switch _ => true | _ => false end) t).

(** The collaborator calls recorded in a trace. *)
Definition calls (t : list event) : list ext_call :=
  omap (fun ev => match ev with Called c => Some c | _ => None end) t.

(** The world a collaborator call leaves behind. *)
Definition world_after_call (ext : collaborators) (call : ext_call) (w : world) : world :=
  let w1 := log [Called call] w in
  let '(_, files, written) := ext call w1 in
  {| fs := files; remove_error := remove_error w1;
     trace := trace w1 ++ map Wrote written |}.

(** What [menu] prints when it catches [SystemExit]. *)
Definition not_a_command : event :=
  Print ("The command selected doesn't exist" +:+ newline).

(** The commands whose handler only forwards to a collaborator. *)
Definition delegating : list string :=
  [ "view"; "summary"; "recom"; "pr"; "vwap"; "cci"; "macd"; "rsi"; "stoch";
    "adx"; "aroon"; "bbands"; "ad"; "obv" ].

(** The call a delegating handler makes: the view or indicator function
    of its command, with the tokens and with the fields of the controller
    that the handler passes on. *)
Definition delegated_call (cmd : string) (other_args : list string)
           (c : controller) : option ext_call :=
  if String.eqb cmd "view" then
    Some (finviz_view_view other_args (ticker c))
  else if String.eqb cmd "summary" then
    Some (finbrain_view_technical_summary_report other_args (ticker c))
  else if String.eqb cmd "recom" then
    Some (tradingview_view_print_recommendation other_args (ticker c))
  else if String.eqb cmd "pr" then
    Some (finnhub_view_pattern_recognition_view other_args (ticker c))
  else if String.eqb cmd "vwap" then
    Some (ta_overlap_vwap other_args (ticker c) (interval c) (stock c))
  else if String.eqb cmd "cci" then
    Some (ta_momentum_cci other_args (ticker c) (interval c) (stock c))
  else if String.eqb cmd "macd" then
    Some (ta_momentum_macd other_args (ticker c) (interval c) (stock c))
  else if String.eqb cmd "rsi" then
    Some (ta_momentum_rsi other_args (ticker c) (interval c) (stock c))
  else if String.eqb cmd "stoch" then
    Some (ta_momentum_stoch other_args (ticker c) (interval c) (stock c))
  else if String.eqb cmd "adx" then
    Some (ta_trend_adx other_args (ticker c) (interval c) (stock c))
  else if String.eqb cmd "aroon" then
    Some (ta_trend_aroon other_args (ticker c) (interval c) (stock c))
  else if String.eqb cmd "bbands" then
    Some (ta_volatility_bbands other_args (ticker c) (interval c) (stock c))
  else if String.eqb cmd "ad" then
    Some (ta_volume_ad other_args (ticker c) (interval c) (stock c))
  else if String.eqb cmd "obv" then
    Some (ta_volume_obv other_args (ticker c) (interval c) (stock c))
  else None.

(** A string that the [ta] parser, which declares no option, takes for
    an unknown option: it starts with [-], has at least two characters, is
    neither the separator [--] nor a negative number, and holds no space. *)
Definition option_like (s : string) : bool :=
  starts_with_dash s && negb (String.length s =? 1)%nat
  && negb (String.eqb s "--") && negb (negative_number s)
  && negb (contains " " s).

(** The tokens after the command, less a separator [--] right behind
    it. *)
Definition after_command (rest : list string) : list string :=
  match rest with
  | sep :: rest' => if String.eqb sep "--" then rest' else rest
  | [] => []
  end.

(** The figure file [switch] deletes. *)
Definition figure (c : controller) : string := ticker c +:+ ".jpg".

(** The error, if any, with which the deletion of a pending figure
    fails in this state: a figure is pending, the file is there and
    [os.remove] refuses to delete it. *)
Definition cleanup_error (c : controller) (w : world) : option exn :=
  if delete_img c && bool_decide (figure c ∈ fs w)
  then remove_error w (figure c)
  else None.

(** The world once the figure is deleted. *)
Definition without_figure (c : controller) (w : world) : world :=
  {| fs := fs w ∖ {[figure c]}; remove_error := remove_error w;
     trace := trace w |}.

(** The controller and the world in which [switch] runs the handler,
    when the deletion of a pending figure did not fail: with the figure
    deleted and the flag cleared if the figure was pending and there, as
    they were otherwise, and with the entry into [switch] recorded. *)
Definition handler_controller (c : controller) (w : world) : controller :=
  if delete_img c && bool_decide (figure c ∈ fs w)
  then set_delete_img false c else c.

Definition handler_world (an_input : string) (c : controller) (w : world) : world :=
  if delete_img c && bool_decide (figure c ∈ fs w)
  then without_figure c (log [Switch an_input] w)
  else log [Switch an_input] w.

(** The option strings found among the tokens belong to the parser. *)
Definition known (p : parser) (toks : list token) : Prop :=
  Forall (fun t : token =>
            forall a x y, snd t = O (Some a, x, y) -> In a (actions p)) toks.

(** A type function that raises nothing but what argparse turns into
    an [ArgumentError]. *)
Definition tame (a : action) : Prop :=
  forall f s e,
    type_func a = Some f -> f s = Raise e ->
    (exists m, e = ArgumentTypeError m) \/ (exists m, e = TypeError m)
    \/ (exists m, e = ValueError m).

End TA.

(* ===================================================================== *)
(** * stocks/comparison_analysis/marketwatch_view.py                      *)
(* ===================================================================== *)

Module ComparisonView.

(** A data frame as far as the views look at it: the name of the index,
    the index labels, the column labels and the cells, row by row. *)
Record DataFrame := {
  index_name : option string;
  index : list string;
  columns : list string;
  cells : list (list value)
}.

(** The calls the views make to [helper_funcs] and to the console, with
    the arguments as they are at the time of the call. *)
Inductive call :=
| export_data (export dir name : string) (df : DataFrame)
| patch_pandas_text_adjustment
| print_rich_table (df : DataFrame) (headers : list string)
                   (show_index : bool) (title : string)
| console_print (text : string).


Fixpoint map_outcome {X Y} (f : X -> outcome Y) (l : list X) : outcome (list Y) :=
  match l with
  | [] => Ret []
  | x :: l' =>
      match f x with
      | Raise e => Raise e
      | Ret y =>
          match map_outcome f l' with
          | Raise e => Raise e
          | Ret ys => Ret (y :: ys)
          end
      end
  end.

(** [df.applymap(f)]: a new frame with [f] applied to every cell. *)
Definition applymap (f : value -> outcome value) (df : DataFrame) : outcome DataFrame :=
  match map_outcome (map_outcome f) (cells df) with
  | Raise e => Raise e
  | Ret cs =>
      Ret {| index_name := index_name df; index := index df;
             columns := columns df; cells := cs |}
  end.

(** [df.index.name = name] *)
Definition set_index_name (name : string) (df : DataFrame) : DataFrame :=
  {| index_name := Some name; index := index df; columns := columns df;
     cells := cells df |}.

Section Views.

(** [marketwatch_model.get_financial_comparisons] *)
Variable get_financial_comparisons :
  list string -> string -> string -> bool -> outcome DataFrame.
(** [helper_funcs.financials_colored_values] *)
Variable financials_colored_values : value -> outcome value.
(** Whether a call to a helper returns or raises. *)
Variable helper : call -> outcome unit.
(** [os.path.dirname(os.path.abspath(__file__))] *)
Variable module_dir : string.
(** [gtff.USE_COLOR] *)
Variable USE_COLOR : bool.

(** A view's result and the calls it made, in order. *)
Definition run : Type := outcome unit * list call.

(** Make a call and continue when it returns. *)
Definition invoke (c : call) (k : run) : run :=
  match helper c with
  | Ret _ => let '(r, calls) := k in (r, c :: calls)
  | Raise e => (Raise e, [c])
  end.

(** The body the three views share; they differ in the statement
    fetched and in the table's title. *)
Definition display_comparison (statement title : string)
           (similar : list string) (timeframe : string)
           (quarter : bool) (export : string) : run :=
  match get_financial_comparisons similar statement timeframe quarter with
  | Raise e => (Raise e, [])
  | Ret df_financials_compared =>
      (* Export data before the color *)
      invoke (export_data export module_dir statement df_financials_compared)
        (let render (df : DataFrame) : run :=
           let df := if negb quarter then set_index_name timeframe df else df in
           invoke (print_rich_table df (columns df) true title)
             (invoke (console_print "") (Ret tt, [])) in
         if USE_COLOR then
           match applymap financials_colored_values df_financials_compared with
           | Raise e => (Raise e, [])
           | Ret colored => invoke patch_pandas_text_adjustment (render colored)
           end
         else render df_financials_compared)
  end.

Definition display_income_comparison :=
  display_comparison "income" "Income Data".



End Views.


End ComparisonView.

(* ===================================================================== *)
(** * Concrete sessions                                                   *)
(* ===================================================================== *)

Module Session.
Import TA.

(** Collaborators that return normally, write nothing and leave the
    files alone. *)
Definition quiet : collaborators := fun _ w => (Ret tt, fs w, []).

(** The plotting calls succeed; every view and indicator function fails
    with an upstream error. *)
Definition upstream_down : collaborators :=
  fun call w =>
    match call with
    | plt_close _ | plt_ion | plt_show => (Ret tt, fs w, [])
    | _ => (Raise (Exception "UpstreamUnavailable" "connection refused"), fs w, [])
    end.

Definition flags : feature_flags :=
  {| USE_ION := true; USE_PROMPT_TOOLKIT := false; session := false |}.

(** A daily AAPL session. *)
Definition aapl : controller := init 1 "AAPL" (Some "2021-01-04") "1440min" 2.

(** The same controller after a [view] command. *)
Definition aapl_pending : controller := set_delete_img true aapl.

Definition no_files : world :=
  {| fs := ∅; remove_error := fun _ => None; trace := [] |}.

Definition with_figure : world :=
  {| fs := {["AAPL.jpg"]}; remove_error := fun _ => None; trace := [] |}.

(** The figure is there and cannot be deleted. *)
Definition with_locked_figure : world :=
  {| fs := {["AAPL.jpg"]};
     remove_error := fun path => Some (Exception "PermissionError" path);
     trace := [] |}.

End Session.

(* ===================================================================== *)
(** * More string built-ins: [str], ["{:,}".format], [str.join]            *)
(* ===================================================================== *)

Module Text.

(** Every character of the string satisfies [p]. *)
Fixpoint all_chars (p : ascii -> bool) (s : string) : bool :=
  match s with
  | EmptyString => true
  | String c s' => p c && all_chars p s'
  end.

(** Only whitespace (or nothing at all). *)
Definition blank (s : string) : bool := all_chars isspace s.

(** No whitespace. *)
Definition spaceless (s : string) : bool := all_chars (fun c => negb (isspace c)) s.

(** No comma. *)
Definition commaless (s : string) : bool :=
  all_chars (fun c => negb (Ascii.eqb c ",")) s.

(** [sep.join(items)] *)
Definition join (sep : string) (items : list string) : string :=
  String.concat sep items.

(** The character of a decimal digit. *)
Definition digit_char (d : Z) : ascii := ascii_of_nat (48 + Z.to_nat d).

(** The decimal digits of a non-negative integer, most significant
    first, in front of [acc].  [fuel] bounds the number of digits. *)
Fixpoint digits_fuel (fuel : nat) (n : Z) (acc : string) : string :=
  match fuel with
  | O => acc
  | S fuel' =>
      let acc' := String (digit_char (n mod 10)) acc in
      if (n <? 10)%Z then acc' else digits_fuel fuel' (n / 10) acc'
  end.

(** A number below [2 ^ k] has at most [k] decimal digits. *)
Definition digits (n : Z) : string :=
  digits_fuel (S (Z.to_nat (Z.log2 n))) n EmptyString.

(** The decimal text of an integer: what [str(n)] returns.  ([str(n)]
    itself raises [ValueError] when the text has more than
    [max_str_digits] digits; see [format_int].) *)
Definition str (n : Z) : string :=
  if (n <? 0)%Z then String "-" (digits (- n)) else digits n.

(** A comma before every group of three digits that is not the first. *)
Fixpoint commas (s : string) : string :=
  match s with
  | EmptyString => EmptyString
  | String c s' =>
      String c
        (if (0 <? String.length s')%nat && (String.length s' mod 3 =? 0)%nat
         then String "," (commas s')
         else commas s')
  end.

(** The text of ["{:,}".format(n)] for an integer. *)
Definition format_commas (n : Z) : string :=
  if (n <? 0)%Z then String "-" (commas (digits (- n))) else commas (digits n).

(** ["{:,}".format(n)]: the grouped text, refused with [ValueError] when
    the integer has more than [max_str_digits] digits. *)
Definition format_int (n : Z) : outcome string :=
  if (max_str_digits <? Z.of_nat (String.length (digits (Z.abs n))))%Z
  then Raise (ValueError "Exceeds the limit (4300 digits) for integer string conversion")
  else Ret (format_commas n).

(** [s.replace(",", "")] *)
Fixpoint remove_commas (s : string) : string :=
  match s with
  | EmptyString => EmptyString
  | String c s' =>
      if Ascii.eqb c "," then remove_commas s' else String c (remove_commas s')
  end.

End Text.

(* ===================================================================== *)
(** * cryptocurrency/due_diligence/pycoingecko_view.py: the market caps    *)
(* ===================================================================== *)

Module MarketCap.
Import Text.

(** What a cell of the table can hold.  A finite float is the dyadic
    number [m * 2 ^ e] it stands for. *)
Inductive scalar :=
| SNone
| SBool (b : bool)
| SInt (n : Z)
| SFloat (m e : Z)
| SNaN
| SInf (negative : bool)
| SStr (s : string).

(** [int(x)]: integers as they are, floats truncated towards zero,
    strings parsed; [None], NaN and the infinities are refused. *)
Definition int_of_scalar (x : scalar) : outcome Z :=
  match x with
  | SNone => Raise (TypeError "int() argument must be a string, a bytes-like object or a number, not 'NoneType'")
  | SBool b => Ret (if b then 1 else 0)%Z
  | SInt n => Ret n
  | SFloat m e =>
      if (0 <=? e)%Z then Ret (m * 2 ^ e)%Z else Ret (Z.quot m (2 ^ (- e)))%Z
  | SNaN => Raise (ValueError "nan")
  | SInf _ => Raise (Exception "OverflowError" "cannot convert float infinity to integer")
  | SStr s => int s
  end.

(** The body of the two lambdas of [display_coin_potential_returns]:
    ["{:,}".format(int(x[column]))] for the cell [x[column]]. *)
Definition format_market_cap (x : scalar) : outcome string :=
  match int_of_scalar x with
  | Ret n => format_int n
  | Raise e => Raise e
  end.

End MarketCap.

(* ===================================================================== *)
(** * The views that print a table and export it                          *)
(* ===================================================================== *)

(** [stocks/due_diligence/marketwatch_view.py],
    [cryptocurrency/onchain/ethgasstation_view.py],
    [stocks/technical_analysis/tradingview_view.py] and the views of
    [cryptocurrency/due_diligence/pycoingecko_view.py] that take their
    table as the model hands it over. *)
Module TableViews.
Import ComparisonView.

(** [df.head(n)]: the first [n] rows, or all but the last [-n] rows when
    [n] is negative. *)
Definition head (n : Z) (df : DataFrame) : DataFrame :=
  let len := Z.of_nat (length (index df)) in
  let k := Z.to_nat (if (0 <=? n)%Z then Z.min n len else Z.max (len + n) 0) in
  {| index_name := index_name df; index := take k (index df);
     columns := columns df; cells := take k (cells df) |}.

(** [df.empty]: one of the axes has length 0. *)
Definition empty (df : DataFrame) : bool :=
  (length (index df) =? 0)%nat || (length (columns df) =? 0)%nat.

(** What the CoinGecko views read from [gecko.Coin(symbol)]. *)
Inductive coin_data :=
| base_info_wrapped (symbol : string) (w : Z)
| websites (symbol : string)
| social_media (symbol : string)
| developers_data (symbol : string)
| all_time_high (symbol currency : string)
| all_time_low (symbol currency : string)
| scores (symbol : string)
| blockchain_explorers (symbol : string)
| market_data (symbol : string).

Section Views.

(** [marketwatch_model.get_sec_filings] *)
Variable get_sec_filings : string -> outcome DataFrame.
(** [ethgasstation_model.get_gwei_fees] *)
Variable get_gwei_fees : outcome DataFrame.
(** [tradingview_model.get_tradingview_recommendation] *)
Variable get_tradingview_recommendation :
  string -> string -> string -> string -> outcome DataFrame.
(** Building [gecko.Coin(symbol)] and reading one of its tables. *)
Variable gecko : coin_data -> outcome DataFrame.
(** Whether a call to a helper returns or raises. *)
Variable helper : call -> outcome unit.
(** [os.path.dirname(os.path.abspath(__file__))] *)
Variable module_dir : string.

(** [sec_filings] *)
Definition sec_filings (ticker : string) (num : Z) (export : string) : run :=
  match get_sec_filings ticker with
  | Raise e => (Raise e, [])
  | Ret df_financials =>
      invoke helper
        (print_rich_table (head num df_financials) (columns df_financials)
                          true "SEC Filings")
        (invoke helper (console_print "")
           (invoke helper (export_data export module_dir "sec" df_financials)
              (Ret tt, [])))
  end.

(** [display_gwei_fees] *)
Definition display_gwei_fees (export : string) : run :=
  match get_gwei_fees with
  | Raise e => (Raise e, [])
  | Ret df_fees =>
      if empty df_fees then
        invoke helper
          (console_print (newline +:+ "Error in ethgasstation request" +:+ newline))
          (Ret tt, [])
      else
        invoke helper
          (console_print (newline +:+ "Current ETH gas fees (gwei):"))
          (invoke helper
             (print_rich_table (head 4 df_fees) (columns df_fees)
                               false "Current GWEI Fees")
             (invoke helper (console_print "")
                (invoke helper (export_data export module_dir "gwei" df_fees)
                   (Ret tt, []))))
  end.


(** The body the CoinGecko views share: the table is printed without its
    index, then exported. *)
Definition print_and_export (data : coin_data) (title name export : string) : run :=
  match gecko data with
  | Raise e => (Raise e, [])
  | Ret df =>
      invoke helper (print_rich_table df (columns df) false title)
        (invoke helper (console_print "")
           (invoke helper (export_data export module_dir name df) (Ret tt, [])))
  end.

Definition display_info (symbol export : string) : run :=
  print_and_export (base_info_wrapped symbol 80) "Basic Coin Information" "info" export.

Definition display_web (symbol export : string) : run :=
  print_and_export (websites symbol) "Websites for Loaded Coin" "web" export.

Definition display_social (symbol export : string) : run :=
  print_and_export (social_media symbol) "Social Media for Loaded Coin" "social" export.

Definition display_dev (symbol export : string) : run :=
  print_and_export (developers_data symbol) "Developers Data for Loaded Coin" "dev" export.

Definition display_ath (symbol currency export : string) : run :=
  print_and_export (all_time_high symbol currency) "Coin Highs" "ath" export.

Definition display_atl (symbol currency export : string) : run :=
  print_and_export (all_time_low symbol currency) "Coin Lows" "atl" export.

Definition display_score (symbol export : string) : run :=
  print_and_export (scores symbol) "Different Scores for Loaded Coin" "score" export.

Definition display_bc (symbol export : string) : run :=
  print_and_export (blockchain_explorers symbol) "Blockchain URLs" "bc" export.

Definition display_market (symbol export : string) : run :=
  print_and_export (market_data symbol) "Market Data" "market" export.

End Views.

(** The tables a run printed. *)
Definition printed {A} (r : outcome A * list call) : list DataFrame :=
  omap (fun c => match c with print_rich_table df _ _ _ => Some df | _ => None end)
       (snd r).

(** The tables a run exported. *)
Definition exported_tables {A} (r : outcome A * list call) : list DataFrame :=
  omap (fun c => match c with export_data _ _ _ df => Some df | _ => None end)
       (snd r).

End TableViews.

(* ===================================================================== *)
(** * Concrete tables and helpers                                         *)
(* ===================================================================== *)

Module Samples.
Import ComparisonView.

(** Helpers that return. *)
Definition helpers_return : call -> outcome unit := fun _ => Ret tt.

(** A table of five rows and two columns. *)
Definition five_rows : DataFrame :=
  {| index_name := None;
     index := ["0"; "1"; "2"; "3"; "4"];
     columns := ["Date"; "Document"];
     cells := [ [VStr "05/02/2022"; VStr "10-Q"];
                [VStr "02/01/2022"; VStr "10-K"];
                [VStr "11/01/2021"; VStr "10-Q"];
                [VStr "08/02/2021"; VStr "10-Q"];
                [VStr "05/03/2021"; VStr "10-Q"] ] |}.

(** Models that return this table. *)
Definition sec_model : string -> outcome DataFrame := fun _ => Ret five_rows.


Definition comparison_model : list string -> string -> string -> bool -> outcome DataFrame :=
  fun _ _ _ _ => Ret five_rows.

(** A colouring that leaves the cells as they are. *)
Definition plain_colors : value -> outcome value := fun v => Ret v.

End Samples.

(* ===================================================================== *)
(** * Properties of the comparison views                                  *)
(* ===================================================================== *)

Section ExportBeforeColor.
Import ComparisonView.

Variable get_financial_comparisons :
  list string -> string -> string -> bool -> outcome DataFrame.
Variable financials_colored_values : value -> outcome value.
Variable helper : call -> outcome unit.
Variable module_dir : string.

Local Abbreviation view :=
  (display_comparison get_financial_comparisons financials_colored_values
                      helper module_dir).





End ExportBeforeColor.

(* ===================================================================== *)
(** * The [ta] parser                                                     *)
(* ===================================================================== *)

Section TaParser.
Import Argparse TA.

Lemma get_option_tuples_ta s : get_option_tuples make_ta_parser s = [].
Proof.
  unfold get_option_tuples.
  destruct s as [|a [|b s]]; try reflexivity.
  - destruct a as [[] [] [] [] [] [] [] []]; reflexivity.
  - destruct a as [[] [] [] [] [] [] [] []]; try reflexivity.
    destruct b as [[] [] [] [] [] [] [] []]; try reflexivity.
    destruct (contains "=" _); [destruct (split_first _ _)|]; reflexivity.
Qed.

Lemma parse_optional_ta s :
  parse_optional make_ta_parser s = inr None \/
  parse_optional make_ta_parser s = inr (Some (None, s, None)).
Proof.
  unfold parse_optional.
  destruct s as [|c0 s0]; [auto|].
  destruct (negb (Ascii.eqb c0 "-")); [auto|].
  change (option_string_actions make_ta_parser) with (@nil (string * action)).
  cbn [lookup_option].
  destruct (_ =? 1)%nat; [auto|].
  rewrite get_option_tuples_ta.
  destruct (contains "=" (String c0 s0));
    [destruct (split_first "=" (String c0 s0))|]; cbv iota beta.
  all: destruct (_ && _); [auto|]; destruct (contains " " _); auto.
Qed.

Lemma not_dashes_not_eqb s : String.eqb s "--" = false -> s <> "--".
Proof. intros H ->. discriminate. Qed.

Lemma classify_ta args :
  forall b, exists toks,
    classify make_ta_parser b args = inr toks /\ wf b toks /\ map fst toks = args.
Proof.
  induction args as [|s args IH]; intros b; [exists []; repeat split|].
  cbn [classify]. destruct b.
  - destruct (IH true) as (toks & -> & Hwf & Hm). cbn.
    eexists; split; [reflexivity|]. cbn. rewrite Hm. auto.
  - destruct (String.eqb s "--") eqn:Es.
    + destruct (IH true) as (toks & -> & Hwf & Hm). cbn.
      apply String.eqb_eq in Es. subst s.
      eexists; split; [reflexivity|]. cbn. rewrite Hm. auto.
    + apply not_dashes_not_eqb in Es.
      destruct (IH false) as (toks & E & Hwf & Hm).
      destruct (parse_optional_ta s) as [-> | ->]; cbn; rewrite E; cbn;
        (eexists; split; [reflexivity|]); cbn; rewrite Hm; auto.
Qed.

Lemma wf_plain toks : forall b, wf b toks -> plain toks.
Proof.
  induction toks as [|[s l] toks IH]; intros b H; [constructor|].
  destruct l; cbn in H.
  - destruct H as [_ H]. constructor; [cbn; discriminate | exact (IH _ H)].
  - destruct H as (_ & Ht & H). constructor; [|exact (IH _ H)].
    cbn. intros u [= ->]. exact Ht.
  - destruct H as (_ & _ & H). constructor; [cbn; discriminate | exact (IH _ H)].
Qed.

Lemma wf_true_no_option toks : wf true toks -> existsb is_option toks = false.
Proof.
  induction toks as [|[s l] toks IH]; [reflexivity|].
  destruct l; cbn; intros H.
  - apply IH, H.
  - destruct H as [H _]. discriminate.
  - destruct H as [H _]. discriminate.
Qed.

Lemma wf_true_no_dashes toks : wf true toks -> count_dashes (map snd toks) = 0%nat.
Proof.
  destruct toks as [|[s l] toks]; [reflexivity|].
  destruct l; cbn; intros H; [reflexivity|reflexivity|].
  destruct H as [H _]. discriminate.
Qed.

Lemma plain_drop k toks : plain toks -> plain (drop k toks).
Proof.
  revert toks. induction k as [|k IH]; intros toks H; [exact H|].
  destruct toks as [|t toks]; [constructor|].
  cbn. apply IH. inversion H; assumption.
Qed.

Lemma value_in_VStr s l : value_in (VStr s) (map VStr l) = existsb (String.eqb s) l.
Proof.
  unfold value_in. induction l as [|x l IH]; [reflexivity|].
  cbn [map existsb]. rewrite IH. reflexivity.
Qed.

Lemma existsb_eqb_In s l : existsb (String.eqb s) l = true <-> In s l.
Proof.
  rewrite existsb_exists. split.
  - intros (x & Hx & E). apply String.eqb_eq in E. subst. exact Hx.
  - intros H. exists s. split; [exact H | apply String.eqb_refl].
Qed.

Lemma parse_optional_no_dash p s :
  starts_with_dash s = false -> parse_optional p s = inr None.
Proof.
  unfold parse_optional. destruct s as [|c0 s0]; [reflexivity|].
  cbn. intros H. destruct (Ascii.eqb c0 "-") eqn:E; [|reflexivity].
  apply Ascii.eqb_eq in E. subst c0. discriminate.
Qed.

Lemma registered_no_dash c : In c CHOICES -> starts_with_dash c = false.
Proof. cbn. intuition (subst; reflexivity). Qed.

(** A first string that does not start with [-] is an argument. *)
Lemma classify_ta_head s args :
  starts_with_dash s = false ->
  exists toks,
    classify make_ta_parser false (s :: args) = inr ((s, A) :: toks)
    /\ wf false ((s, A) :: toks).
Proof.
  intros Hs.
  destruct (classify_ta (s :: args) false) as (toks & E & Hwf & Hm).
  pose proof E as E0.
  cbn [classify] in E.
  assert (Hne : String.eqb s "--" = false).
  { destruct (String.eqb s "--") eqn:E2; [|reflexivity].
    apply String.eqb_eq in E2. subst s. discriminate. }
  rewrite Hne, (parse_optional_no_dash _ _ Hs) in E. cbn in E.
  destruct (classify make_ta_parser false args) as [f|toks']; [discriminate|].
  cbn in E. injection E as <-.
  exists toks'. split; [exact E0 | exact Hwf].
Qed.

(** ** Storing the command *)

Lemma get_value_each_cmd l : get_value_each cmd_action l = inr (map VStr l).
Proof. induction l as [|s l IH]; [reflexivity|]. cbn. cbn in IH. rewrite IH. reflexivity. Qed.

Lemma get_values_cmd_one args s :
  remove_first "--" args = [s] ->
  get_values cmd_action args =
  if existsb (String.eqb s) CHOICES then inr (VStr s) else inl (invalid_choice s).
Proof.
  intros E. unfold get_values. rewrite E.
  unfold get_value, check_value. cbn [type_func choices cmd_action bind].
  rewrite value_in_VStr. destruct (existsb _ _); reflexivity.
Qed.

Lemma remove_first_other s l :
  s <> "--" -> remove_first "--" (s :: l) = s :: remove_first "--" l.
Proof.
  intros Hs. cbn [remove_first].
  destruct (String.eqb "--" s) eqn:E; [|reflexivity].
  apply String.eqb_eq in E. congruence.
Qed.

Lemma get_values_cmd_bad s l :
  s <> "--" -> ~ In s CHOICES ->
  get_values cmd_action (s :: l) = inl (invalid_choice s).
Proof.
  intros Hs Hn.
  assert (Hb : existsb (String.eqb s) CHOICES = false).
  { destruct (existsb _ _) eqn:E; [|reflexivity]. apply existsb_eqb_In in E. tauto. }
  destruct (remove_first "--" l) as [|x l'] eqn:El.
  - rewrite (get_values_cmd_one _ s), Hb; [reflexivity|].
    rewrite remove_first_other, El by assumption. reflexivity.
  - unfold get_values. rewrite remove_first_other, El by assumption.
    rewrite get_value_each_cmd. cbn [bind map check_value_each].
    unfold check_value at 1. cbn [choices cmd_action].
    rewrite value_in_VStr, Hb. reflexivity.
Qed.

(** The loop state, spelled out. *)
Local Abbreviation state n e sn ps :=
  {| ns := n; extras := e; seen := sn; positionals := ps |}.

Lemma consume_positionals_none toks n e sn :
  consume_positionals toks (state n e sn []) = inr (0%nat, state n e sn []).
Proof. reflexivity. Qed.

Lemma consume_positionals_cmd toks n e sn :
  consume_positionals toks (state n e sn [cmd_action]) =
  match match_positional (map snd toks) with
  | None => inr (0%nat, state n e sn [cmd_action])
  | Some k =>
      match get_values cmd_action (map fst (take k toks)) with
      | inl f => inl f
      | inr v => inr ((k + 0)%nat, state (setattr n "cmd" v) e ("cmd" :: sn) [])
      end
  end.
Proof.
  unfold consume_positionals. cbn [positionals match_arguments_partial].
  destruct (match_positional _) as [k|]; [|reflexivity].
  cbn [take_positionals]. unfold take_action.
  destruct (get_values _ _); reflexivity.
Qed.

(** With the separator's tokens well formed, what the positional takes
    is the command string and at most the separator. *)
Lemma wf_match_argument s rest :
  wf false ((s, A) :: rest) ->
  exists k, match_positional (map snd ((s, A) :: rest)) = Some (S k)
            /\ remove_first "--" (map fst (take (S k) ((s, A) :: rest))) = [s].
Proof.
  intros [[Hb|Hs] Hrest]; [discriminate|].
  unfold match_positional. cbn [map snd count_dashes drop].
  exists (count_dashes (map snd rest)). split; [reflexivity|].
  cbn [take map fst]. rewrite remove_first_other by assumption.
  destruct rest as [|[s1 l1] rest]; [reflexivity|].
  destruct l1; cbn [map snd count_dashes take fst]; try reflexivity.
  destruct Hrest as (_ & -> & Ht).
  rewrite (wf_true_no_dashes _ Ht). reflexivity.
Qed.

Lemma wf_match_separator s rest k :
  wf false ((s, Dash) :: rest) ->
  match_positional (map snd ((s, Dash) :: rest)) = Some k ->
  exists s1 k', k = S k' /\ remove_first "--" (map fst (take k ((s, Dash) :: rest))) = [s1].
Proof.
  intros (_ & -> & Ht). unfold match_positional.
  cbn [map snd count_dashes].
  destruct rest as [|[s1 l1] rest]; [discriminate|].
  destruct l1; cbn in Ht; try (destruct Ht as [Ht _]; discriminate).
  destruct Ht as [_ Ht].
  cbn [map snd count_dashes drop]. rewrite (wf_true_no_dashes _ Ht).
  intros [= <-]. exists s1, 1%nat. split; reflexivity.
Qed.

Lemma wf_match toks k :
  wf false toks ->
  match_positional (map snd toks) = Some k ->
  exists s k', k = S k' /\ remove_first "--" (map fst (take k toks)) = [s].
Proof.
  destruct toks as [|[s l] rest]; [discriminate|].
  destruct l; intros Hwf Hm.
  - destruct (wf_match_argument _ _ Hwf) as (k' & E & R).
    assert (Ek : Some (S k') = Some k) by (rewrite <- E; exact Hm).
    injection Ek as <-. eauto.
  - discriminate.
  - eapply wf_match_separator; eassumption.
Qed.

(** ** The loop *)

Lemma until_option_plain toks :
  plain toks ->
  forall before from_option,
    until_option toks = (before, from_option) ->
    from_option = [] \/
    exists s x y rest, from_option = (s, O (None, x, y)) :: rest /\ plain rest.
Proof.
  induction toks as [|[s l] toks IH]; intros Hp before from_option E.
  - injection E as <- <-. auto.
  - inversion Hp as [|? ? Ht Hp']; subst.
    destruct l; cbn in E.
    + destruct (until_option toks) as [a b]. injection E as <- <-. eauto.
    + injection E as <- <-. right.
      destruct t as [[o x] y]. specialize (Ht _ eq_refl). cbn in Ht. subst o.
      eauto 6.
    + destruct (until_option toks) as [a b]. injection E as <- <-. eauto.
Qed.

(** Once the command is stored, the loop only collects extras. *)
Lemma parse_loop_after_cmd fuel :
  forall toks n e sn,
    plain toks ->
    exists e', parse_loop fuel toks (state n e sn []) = inr (state n e' sn []).
Proof.
  assert (Hfinish : forall toks n e sn,
             exists e', finish toks (state n e sn []) = inr (state n e' sn [])).
  { intros. unfold finish. rewrite consume_positionals_none. cbn. eauto. }
  induction fuel as [|fuel IH]; intros toks n e sn Hp; [apply Hfinish|].
  cbn [parse_loop]. destruct (existsb is_option toks); [|apply Hfinish].
  assert (Hrest : exists e',
             (let* (k, st1) := consume_positionals toks (state n e sn []) in
              if (0 <? k)%nat then parse_loop fuel (drop k toks) st1
              else
                let '(before, from_option) := until_option toks in
                let st2 := add_extras (map fst before) st1 in
                match from_option with
                | (s, O t) :: rest =>
                    let* (k', st') := consume_optional t s rest st2 in
                    parse_loop fuel (drop k' rest) st'
                | _ => finish from_option st2
                end) = inr (state n e' sn [])).
  { rewrite consume_positionals_none. cbn [bind Nat.ltb Nat.leb].
    destruct (until_option toks) as [before from_option] eqn:E.
    destruct (until_option_plain _ Hp _ _ E) as [-> | (s & x & y & rest & -> & Hr)].
    - apply Hfinish.
    - cbn. apply IH, Hr. }
  destruct toks as [|[s l] rest]; [exact Hrest|].
  destruct l; [exact Hrest| |exact Hrest].
  inversion Hp as [|? ? Ht Hp']; subst.
  destruct t as [[o x] y]. specialize (Ht _ eq_refl). cbn in Ht. subst o.
  cbn. apply IH, Hp'.
Qed.

(** The loop stores nothing but a registered command. *)
Lemma parse_loop_cmd_sound fuel :
  forall toks n e sn st',
    wf false toks ->
    parse_loop fuel toks (state n e sn [cmd_action]) = inr st' ->
    (ns st' = n /\ seen st' = sn) \/
    (exists c, In c CHOICES /\ ns st' = setattr n "cmd" (VStr c)
               /\ seen st' = "cmd" :: sn).
Proof.
  assert (Hfinish : forall toks n e sn st',
             wf false toks ->
             finish toks (state n e sn [cmd_action]) = inr st' ->
             (ns st' = n /\ seen st' = sn) \/
             (exists c, In c CHOICES /\ ns st' = setattr n "cmd" (VStr c)
                        /\ seen st' = "cmd" :: sn)).
  { intros toks n e sn st' Hwf. unfold finish. rewrite consume_positionals_cmd.
    destruct (match_positional _) as [k|] eqn:Em.
    - destruct (wf_match _ _ Hwf Em) as (s & k' & -> & R).
      rewrite (get_values_cmd_one _ _ R).
      destruct (existsb (String.eqb s) CHOICES) eqn:Ec; [|discriminate].
      apply existsb_eqb_In in Ec. cbn [bind]. intros [= <-]. right.
      exists s. split; [exact Ec | split; reflexivity].
    - cbn [bind]. intros [= <-]. left. split; reflexivity. }
  induction fuel as [|fuel IH]; intros toks n e sn st' Hwf; [apply Hfinish, Hwf|].
  cbn [parse_loop]. destruct (existsb is_option toks) eqn:Eo; [|apply Hfinish, Hwf].
  destruct toks as [|[s l] rest]; [discriminate|].
  destruct l.
  - (* the command *)
    rewrite consume_positionals_cmd.
    destruct (wf_match_argument _ _ Hwf) as (k & Em & R).
    unfold token in *. rewrite Em, (get_values_cmd_one _ _ R).
    destruct (existsb (String.eqb s) CHOICES) eqn:Ec; [|discriminate].
    apply existsb_eqb_In in Ec. cbn [bind].
    replace (0 <? S k + 0)%nat with true by reflexivity.
    destruct (parse_loop_after_cmd fuel (drop (S k + 0) ((s, A) :: rest))
                (setattr n "cmd" (VStr s)) e ("cmd" :: sn)) as [e' ->].
    { apply plain_drop. eapply wf_plain, Hwf. }
    intros [= <-]. right.
    exists s. split; [exact Ec | split; reflexivity].
  - (* an unknown option string *)
    destruct Hwf as (_ & Ht & Hwf). destruct t as [[o x] y]. cbn in Ht. subst o.
    cbn. apply IH, Hwf.
  - (* the separator: no option string can follow *)
    destruct Hwf as (_ & _ & Hwf). cbn in Eo.
    rewrite (wf_true_no_option _ Hwf) in Eo. discriminate.
Qed.

(** A registered command at the head is stored, whatever follows. *)
Lemma parse_loop_registered fuel c rest n e sn :
  wf false ((c, A) :: rest) -> In c CHOICES ->
  exists e',
    parse_loop fuel ((c, A) :: rest) (state n e sn [cmd_action])
    = inr (state (setattr n "cmd" (VStr c)) e' ("cmd" :: sn) []).
Proof.
  intros Hwf Hc.
  destruct (wf_match_argument _ _ Hwf) as (k & Em & R).
  assert (Ec : existsb (String.eqb c) CHOICES = true) by (apply existsb_eqb_In, Hc).
  assert (Hfinish : exists e',
             finish ((c, A) :: rest) (state n e sn [cmd_action])
             = inr (state (setattr n "cmd" (VStr c)) e' ("cmd" :: sn) [])).
  { unfold finish. rewrite consume_positionals_cmd. unfold token in *.
    rewrite Em, (get_values_cmd_one _ _ R), Ec. cbn. eauto. }
  destruct fuel as [|fuel]; [exact Hfinish|].
  cbn [parse_loop]. destruct (existsb is_option _); [|exact Hfinish].
  rewrite consume_positionals_cmd. unfold token in *.
  rewrite Em, (get_values_cmd_one _ _ R), Ec.
  cbn [bind]. replace (0 <? S k + 0)%nat with true by reflexivity.
  apply parse_loop_after_cmd, plain_drop. eapply wf_plain, Hwf.
Qed.

(** A string at the head that is not a command stops the loop. *)
Lemma parse_loop_unregistered fuel s rest n e sn :
  wf false ((s, A) :: rest) -> ~ In s CHOICES ->
  parse_loop fuel ((s, A) :: rest) (state n e sn [cmd_action])
  = inl (invalid_choice s).
Proof.
  intros Hwf Hs.
  destruct (wf_match_argument _ _ Hwf) as (k & Em & R).
  assert (Ec : existsb (String.eqb s) CHOICES = false).
  { destruct (existsb _ _) eqn:E; [|reflexivity]. apply existsb_eqb_In in E. tauto. }
  assert (Hfinish : finish ((s, A) :: rest) (state n e sn [cmd_action])
                    = inl (invalid_choice s)).
  { unfold finish. rewrite consume_positionals_cmd. unfold token in *.
    rewrite Em, (get_values_cmd_one _ _ R), Ec. reflexivity. }
  destruct fuel as [|fuel]; [exact Hfinish|].
  cbn [parse_loop]. destruct (existsb is_option _); [|exact Hfinish].
  rewrite consume_positionals_cmd. unfold token in *.
  rewrite Em, (get_values_cmd_one _ _ R), Ec. reflexivity.
Qed.

(** ** [parse_known_args] on the [ta] parser *)

Lemma ta_parse_registered c rest :
  In c CHOICES ->
  exists unknown,
    parse_known_args make_ta_parser (c :: rest) = Parsed [("cmd", VStr c)] unknown.
Proof.
  intros Hc. unfold parse_known_args, parse_known_args_inner.
  destruct (classify_ta_head c rest (registered_no_dash _ Hc)) as (toks & -> & Hwf).
  cbn [bind].
  destruct (parse_loop_registered (length ((c, A) :: toks)) c toks
              (initial_namespace make_ta_parser) [] [] Hwf Hc) as [e' E].
  change (positional_actions make_ta_parser) with [cmd_action].
  unfold token in *. rewrite E. cbn. eauto.
Qed.

Lemma ta_parse_sound args n unknown :
  parse_known_args make_ta_parser args = Parsed n unknown ->
  exists c, In c CHOICES /\ n = [("cmd", VStr c)].
Proof.
  unfold parse_known_args, parse_known_args_inner.
  destruct (classify_ta args false) as (toks & -> & Hwf & _).
  cbn [bind].
  change (positional_actions make_ta_parser) with [cmd_action].
  destruct (parse_loop _ _ _) as [f|st] eqn:E; [destruct f; discriminate|].
  apply parse_loop_cmd_sound in E; [|exact Hwf].
  cbn [bind]. unfold check_required.
  destruct E as [[En Es] | (c & Hc & En & Es)].
  - cbn. rewrite Es. cbn. discriminate.
  - cbn. rewrite Es. cbn. rewrite En. intros [= <- _].
    exists c. split; [exact Hc | reflexivity].
Qed.

(** ** The fuel of the loop is enough *)

Lemma until_option_length toks :
  forall before from_option,
    until_option toks = (before, from_option) ->
    (length from_option <= length toks)%nat.
Proof.
  induction toks as [|t toks IH]; intros b f E.
  - injection E as <- <-. reflexivity.
  - cbn in E. destruct (is_option t).
    + injection E as <- <-. reflexivity.
    + destruct (until_option toks) as [a c]. injection E as <- <-.
      cbn. specialize (IH _ _ eq_refl). lia.
Qed.

Lemma parse_loop_fuel_irrelevant fuel1 :
  forall fuel2 toks st,
    (length toks <= fuel1)%nat -> (length toks <= fuel2)%nat ->
    parse_loop fuel1 toks st = parse_loop fuel2 toks st.
Proof.
  induction fuel1 as [|f1 IH]; intros fuel2 toks st H1 H2.
  - destruct toks; [|cbn in H1; lia]. destruct fuel2; reflexivity.
  - destruct fuel2 as [|f2].
    { destruct toks; [|cbn in H2; lia]. reflexivity. }
    cbn [parse_loop]. destruct (existsb is_option toks); [|reflexivity].
    assert (Hrest :
             (let* (k, st1) := consume_positionals toks st in
              if (0 <? k)%nat then parse_loop f1 (drop k toks) st1
              else
                let '(before, from_option) := until_option toks in
                let st2 := add_extras (map fst before) st1 in
                match from_option with
                | (s, O t) :: rest =>
                    let* (k', st') := consume_optional t s rest st2 in
                    parse_loop f1 (drop k' rest) st'
                | _ => finish from_option st2
                end) =
             (let* (k, st1) := consume_positionals toks st in
              if (0 <? k)%nat then parse_loop f2 (drop k toks) st1
              else
                let '(before, from_option) := until_option toks in
                let st2 := add_extras (map fst before) st1 in
                match from_option with
                | (s, O t) :: rest =>
                    let* (k', st') := consume_optional t s rest st2 in
                    parse_loop f2 (drop k' rest) st'
                | _ => finish from_option st2
                end)).
    { destruct (consume_positionals toks st) as [f|[k st1]]; [reflexivity|].
      cbn [bind]. destruct (0 <? k)%nat eqn:Ek.
      - apply Nat.ltb_lt in Ek.
        destruct toks as [|t toks]; [rewrite drop_nil; apply IH; cbn; lia|].
        destruct k as [|k]; [lia|]. cbn [drop].
        pose proof (length_drop toks k). cbn in H1, H2. apply IH; lia.
      - destruct (until_option toks) as [before from_option] eqn:Eu.
        apply until_option_length in Eu.
        destruct from_option as [|[s l] rest]; [reflexivity|].
        destruct l; try reflexivity.
        cbn zeta. destruct (consume_optional _ _ _ _) as [f|[k' st']]; [reflexivity|].
        cbn [bind]. pose proof (length_drop rest k'). cbn in Eu.
        apply IH; lia. }
    destruct toks as [|[s l] rest]; [exact Hrest|].
    destruct l; [exact Hrest| |exact Hrest].
    destruct (consume_optional _ _ _ _) as [f|[k st']]; [reflexivity|].
    cbn [bind]. pose proof (length_drop rest k). cbn in H1, H2.
    apply IH; lia.
Qed.

(** More fuel than there are strings changes nothing: the loop is not
    cut short by the fuel [parse_known_args_inner] gives it. *)
Lemma parse_loop_fuel fuel toks st :
  (length toks <= fuel)%nat ->
  parse_loop fuel toks st = parse_loop (length toks) toks st.
Proof. intros H. apply parse_loop_fuel_irrelevant; [exact H | reflexivity]. Qed.

End TaParser.

(* ===================================================================== *)
(** * Parsers whose type functions are tame let no exception through     *)
(* ===================================================================== *)

Section NoForeignException.
Import Argparse TA.

Variable p : parser.
Hypothesis tame_actions : forall a, In a (actions p) -> tame a.

Lemma bind_quiet {X Y} (m : res X) (k : X -> res Y) e :
  m <> inl (Propagated e) ->
  (forall x, m = inr x -> k x <> inl (Propagated e)) ->
  bind m k <> inl (Propagated e).
Proof.
  intros Hm Hk. destruct m as [f|x]; cbn.
  - intros [= ->]. apply Hm. reflexivity.
  - apply Hk. reflexivity.
Qed.

Lemma get_value_quiet a s e : tame a -> get_value a s <> inl (Propagated e).
Proof.
  intros Ha. unfold get_value.
  destruct (type_func a) as [f|] eqn:Ef; [|discriminate].
  destruct (f s) as [v|x] eqn:Efs; [discriminate|].
  destruct (Ha f s x Ef Efs) as [[m ->]|[[m ->]|[m ->]]]; discriminate.
Qed.

Lemma check_value_quiet a v e : check_value a v <> inl (Propagated e).
Proof.
  unfold check_value. destruct (choices a); [|discriminate].
  destruct (value_in _ _); discriminate.
Qed.

Lemma get_value_each_quiet a l e :
  tame a -> get_value_each a l <> inl (Propagated e).
Proof.
  intros Ha. induction l as [|s l IH]; [discriminate|].
  cbn [get_value_each]. apply bind_quiet; [apply get_value_quiet, Ha|].
  intros v _. apply bind_quiet; [exact IH|]. discriminate.
Qed.

Lemma check_value_each_quiet a l e : check_value_each a l <> inl (Propagated e).
Proof.
  induction l as [|v l IH]; [discriminate|].
  cbn [check_value_each]. apply bind_quiet; [apply check_value_quiet|].
  intros _ _. exact IH.
Qed.

Lemma get_values_quiet a l e : tame a -> get_values a l <> inl (Propagated e).
Proof.
  intros Ha. unfold get_values.
  assert (H1 : forall s, (let* v := get_value a s in
                          let* _ := check_value a v in inr v)
                         <> inl (Propagated e)).
  { intros s. apply bind_quiet; [apply get_value_quiet, Ha|].
    intros v _. apply bind_quiet; [apply check_value_quiet|]. discriminate. }
  assert (H2 : forall l', (let* vs := get_value_each a l' in
                           let* _ := check_value_each a vs in inr (VList vs))
                          <> inl (Propagated e)).
  { intros l'. apply bind_quiet; [apply get_value_each_quiet, Ha|].
    intros vs _. apply bind_quiet; [apply check_value_each_quiet|]. discriminate. }
  destruct (remove_first "--" l) as [|s [|s' l']]; [apply H2 | apply H1 | apply H2].
Qed.

Lemma take_action_quiet a l st e : tame a -> take_action a l st <> inl (Propagated e).
Proof.
  intros Ha. unfold take_action.
  apply bind_quiet; [apply get_values_quiet, Ha|]. discriminate.
Qed.

Lemma take_action_positionals a l st st' :
  take_action a l st = inr st' -> positionals st' = positionals st.
Proof.
  unfold take_action. destruct (get_values a l); [discriminate|].
  cbn. intros [= <-]. reflexivity.
Qed.

Lemma take_positionals_quiet acts :
  forall counts toks st e,
    Forall tame acts ->
    take_positionals acts counts toks st <> inl (Propagated e).
Proof.
  induction acts as [|a acts IH]; intros counts toks st e Ht; [discriminate|].
  inversion Ht; subst. destruct counts as [|k counts]; [discriminate|].
  cbn [take_positionals]. apply bind_quiet; [apply take_action_quiet; assumption|].
  intros st' _. apply IH. assumption.
Qed.

Lemma Forall_drop {X} (P : X -> Prop) k (l : list X) : Forall P l -> Forall P (drop k l).
Proof.
  revert l. induction k as [|k IH]; intros l H; [exact H|].
  destruct l as [|x l]; [constructor|]. cbn. apply IH. inversion H; assumption.
Qed.

Lemma consume_positionals_quiet toks st e :
  Forall tame (positionals st) ->
  consume_positionals toks st <> inl (Propagated e).
Proof.
  intros Ht. unfold consume_positionals.
  apply bind_quiet; [apply take_positionals_quiet, Ht|]. discriminate.
Qed.

Lemma consume_positionals_keeps toks st k st' :
  Forall tame (positionals st) ->
  consume_positionals toks st = inr (k, st') ->
  Forall tame (positionals st').
Proof.
  intros Ht. unfold consume_positionals.
  destruct (take_positionals _ _ _ _); [discriminate|].
  cbn. intros [= _ <-]. cbn. apply Forall_drop, Ht.
Qed.

Lemma lookup_option_In l s a :
  lookup_option l s = Some a -> In (s, a) l.
Proof.
  induction l as [|[k b] l IH]; [discriminate|].
  cbn. destruct (String.eqb k s) eqn:E.
  - apply String.eqb_eq in E. intros [= ->]. subst. auto.
  - auto.
Qed.

Lemma option_string_actions_In s a :
  In (s, a) (option_string_actions p) -> In a (actions p).
Proof.
  unfold option_string_actions. rewrite in_flat_map.
  intros (b & Hb & Hs). apply in_map_iff in Hs.
  destruct Hs as (x & [= _ <-] & _). exact Hb.
Qed.

Lemma omap_In {X Y} (f : X -> option Y) l y :
  In y (omap f l) -> exists x, In x l /\ f x = Some y.
Proof.
  induction l as [|x l IH]; [intros []|].
  cbn. destruct (f x) as [y'|] eqn:E.
  - intros [<- | H]; [eauto|]. destruct (IH H) as (x' & ? & ?). eauto.
  - intros H. destruct (IH H) as (x' & ? & ?). eauto.
Qed.

Lemma get_option_tuples_In s a x y :
  In (Some a, x, y) (get_option_tuples p s) -> In a (actions p).
Proof.
  unfold get_option_tuples.
  assert (H1 : forall prefix ex,
             In (Some a, x, y)
                (omap (fun sa : string * action =>
                         if String.prefix prefix (fst sa)
                         then Some (Some (snd sa), fst sa, ex) else None)
                      (option_string_actions p)) -> In a (actions p)).
  { intros prefix ex H. apply omap_In in H. destruct H as ([k b] & Hin & E).
    cbn in E. destruct (String.prefix _ _); [|discriminate].
    injection E as <- _ _. eapply option_string_actions_In, Hin. }
  assert (H2 : forall short ex whole,
             In (Some a, x, y)
                (omap (fun sa : string * action =>
                         if String.eqb (fst sa) short
                         then Some (Some (snd sa), fst sa, Some ex)
                         else if String.prefix whole (fst sa)
                              then Some (Some (snd sa), fst sa, None) else None)
                      (option_string_actions p)) -> In a (actions p)).
  { intros short ex whole H. apply omap_In in H. destruct H as ([k b] & Hin & E).
    cbn in E. destruct (String.eqb _ _); [|destruct (String.prefix _ _)];
      try discriminate; injection E as <- _ _;
      eapply option_string_actions_In, Hin. }
  destruct s as [|c0 [|c1 s]]; try (intros []).
  - destruct c0 as [[] [] [] [] [] [] [] []]; intros [].
  - destruct c0 as [[] [] [] [] [] [] [] []]; try (intros []).
    destruct c1 as [[] [] [] [] [] [] [] []];
      try (intros H; eapply H2; exact H).
    destruct (contains "=" _); [destruct (split_first _ _)|];
      intros H; eapply H1; exact H.
Qed.

Lemma parse_optional_quiet s e : parse_optional p s <> inl (Propagated e).
Proof.
  unfold parse_optional. destruct s as [|c0 s0]; [discriminate|].
  destruct (negb _); [discriminate|].
  destruct (lookup_option _ _); [discriminate|].
  destruct (_ =? 1)%nat; [discriminate|].
  match goal with |- match ?b with _ => _ end <> _ => destruct b end; [discriminate|].
  destruct (get_option_tuples _ _) as [|t [|t' ts]]; try discriminate.
  destruct (_ && _); [discriminate|]. destruct (contains " " _); discriminate.
Qed.

Lemma parse_optional_known s a x y :
  parse_optional p s = inr (Some (Some a, x, y)) -> In a (actions p).
Proof.
  unfold parse_optional. destruct s as [|c0 s0]; [discriminate|].
  destruct (negb _); [discriminate|].
  destruct (lookup_option _ _) as [b|] eqn:El.
  { intros [= <- _ _]. eapply option_string_actions_In, lookup_option_In, El. }
  destruct (_ =? 1)%nat; [discriminate|].
  match goal with
  | |- match ?b with _ => _ end = _ -> _ => destruct b as [t|] eqn:Eb
  end.
  { intros [= ->].
    destruct (contains "=" _); [|discriminate].
    destruct (split_first _ _) as [os ex].
    destruct (lookup_option _ os) as [b|] eqn:El2; [|discriminate].
    injection Eb as <- _ _. eapply option_string_actions_In, lookup_option_In, El2. }
  destruct (get_option_tuples _ _) as [|t [|t' ts]] eqn:Et.
  - destruct (_ && _); [discriminate|]. destruct (contains " " _); discriminate.
  - intros [= ->]. eapply get_option_tuples_In. rewrite Et. left. reflexivity.
  - discriminate.
Qed.

Lemma classify_quiet args : forall b e, classify p b args <> inl (Propagated e).
Proof.
  induction args as [|s args IH]; intros b e; [discriminate|].
  cbn [classify]. destruct b.
  - apply bind_quiet; [apply IH|]. discriminate.
  - destruct (String.eqb s "--").
    + apply bind_quiet; [apply IH|]. discriminate.
    + apply bind_quiet; [apply parse_optional_quiet|]. intros o _.
      apply bind_quiet; [apply IH|]. discriminate.
Qed.

Lemma classify_known args :
  forall b toks, classify p b args = inr toks -> known p toks.
Proof.
  induction args as [|s args IH]; intros b toks; [intros [= <-]; constructor|].
  cbn [classify]. destruct b.
  - destruct (classify p true args) as [f|ts] eqn:E; [discriminate|].
    cbn. intros [= <-]. constructor; [cbn; discriminate | eapply IH, E].
  - destruct (String.eqb s "--").
    + destruct (classify p true args) as [f|ts] eqn:E; [discriminate|].
      cbn. intros [= <-]. constructor; [cbn; discriminate | eapply IH, E].
    + destruct (parse_optional p s) as [f|o] eqn:Eo; [discriminate|].
      destruct (classify p false args) as [f|ts] eqn:E; [discriminate|].
      cbn. intros [= <-]. constructor; [|eapply IH, E].
      cbn. destruct o as [t|]; [|discriminate].
      intros a x y [= ->]. eapply parse_optional_known, Eo.
Qed.

Lemma consume_optional_quiet t s rest st e :
  (forall a x y, t = (Some a, x, y) -> In a (actions p)) ->
  consume_optional t s rest st <> inl (Propagated e).
Proof.
  intros Ht. destruct t as [[[a|] x] [y|]]; cbn; try discriminate.
  - apply bind_quiet; [|discriminate].
    apply take_action_quiet, tame_actions. eapply Ht. reflexivity.
  - destruct rest as [|[s1 l1] rest]; [discriminate|].
    destruct l1; try discriminate.
    apply bind_quiet; [|discriminate].
    apply take_action_quiet, tame_actions. eapply Ht. reflexivity.
Qed.

Lemma consume_optional_keeps t s rest st k st' :
  consume_optional t s rest st = inr (k, st') ->
  positionals st' = positionals st.
Proof.
  destruct t as [[[a|] x] [y|]]; cbn.
  - destruct (take_action _ _ _) as [f|st1] eqn:E; [discriminate|].
    cbn. intros [= _ <-]. eapply take_action_positionals, E.
  - destruct rest as [|[s1 l1] rest]; [discriminate|].
    destruct l1; try discriminate.
    destruct (take_action _ _ _) as [f|st1] eqn:E; [discriminate|].
    cbn. intros [= _ <-]. eapply take_action_positionals, E.
  - intros [= _ <-]. reflexivity.
  - intros [= _ <-]. reflexivity.
Qed.

Lemma until_option_known toks before from_option :
  known p toks -> until_option toks = (before, from_option) -> known p from_option.
Proof.
  revert before from_option.
  induction toks as [|t toks IH]; intros b f Hk E.
  - injection E as <- <-. constructor.
  - cbn in E. destruct (is_option t).
    + injection E as <- <-. exact Hk.
    + destruct (until_option toks) as [a c]. injection E as <- <-.
      inversion Hk; subst. eapply IH; [assumption | reflexivity].
Qed.

Lemma finish_quiet toks st e :
  Forall tame (positionals st) -> finish toks st <> inl (Propagated e).
Proof.
  intros Ht. unfold finish.
  apply bind_quiet; [apply consume_positionals_quiet, Ht|].
  intros [k st'] _. discriminate.
Qed.

Lemma parse_loop_quiet fuel :
  forall toks st e,
    known p toks -> Forall tame (positionals st) ->
    parse_loop fuel toks st <> inl (Propagated e).
Proof.
  induction fuel as [|fuel IH]; intros toks st e Hk Ht; [apply finish_quiet, Ht|].
  cbn [parse_loop]. destruct (existsb is_option toks); [|apply finish_quiet, Ht].
  assert (Hopt : forall s t rest st0,
             known p ((s, O t) :: rest) -> Forall tame (positionals st0) ->
             (let* (k, st') := consume_optional t s rest st0 in
              parse_loop fuel (drop k rest) st') <> inl (Propagated e)).
  { intros s t rest st0 Hk0 Ht0. inversion Hk0 as [|? ? Hhd Htl]; subst.
    apply bind_quiet.
    - apply consume_optional_quiet. intros a x y ->. eapply Hhd. reflexivity.
    - intros [k st'] E. apply IH; [apply Forall_drop, Htl|].
      rewrite (consume_optional_keeps _ _ _ _ _ _ E). exact Ht0. }
  assert (Hrest :
           (let* (k, st1) := consume_positionals toks st in
            if (0 <? k)%nat then parse_loop fuel (drop k toks) st1
            else
              let '(before, from_option) := until_option toks in
              let st2 := add_extras (map fst before) st1 in
              match from_option with
              | (s, O t) :: rest =>
                  let* (k', st') := consume_optional t s rest st2 in
                  parse_loop fuel (drop k' rest) st'
              | _ => finish from_option st2
              end) <> inl (Propagated e)).
  { apply bind_quiet; [apply consume_positionals_quiet, Ht|].
    intros [k st1] E. pose proof (consume_positionals_keeps _ _ _ _ Ht E) as Ht1.
    destruct (0 <? k)%nat; [apply IH; [apply Forall_drop, Hk | exact Ht1]|].
    destruct (until_option toks) as [before from_option] eqn:Eu.
    pose proof (until_option_known _ _ _ Hk Eu) as Hk'.
    destruct from_option as [|[s l] rest]; [apply finish_quiet, Ht1|].
    destruct l; try (apply finish_quiet, Ht1).
    apply Hopt; [exact Hk' | exact Ht1]. }
  destruct toks as [|[s l] rest]; [exact Hrest|].
  destruct l; [exact Hrest| |exact Hrest].
  apply Hopt; assumption.
Qed.

(** [parse_known_args] returns a namespace or exits; no exception of a
    type function escapes it. *)
Lemma parse_known_args_never_throws args e :
  parse_known_args p args <> Throws e.
Proof.
  unfold parse_known_args.
  destruct (parse_known_args_inner p args) as [f|[n u]] eqn:E; [|discriminate].
  destruct f; try discriminate. intros [= ->].
  revert E. unfold parse_known_args_inner.
  apply bind_quiet; [apply classify_quiet|]. intros toks Ec.
  apply bind_quiet.
  - apply parse_loop_quiet; [eapply classify_known, Ec|].
    cbn [positionals]. unfold positional_actions.
    apply List.Forall_forall. intros a Ha. apply filter_In in Ha.
    apply tame_actions, Ha.
  - intros st _. apply bind_quiet; [|discriminate].
    unfold check_required. destruct (List.filter _ _); discriminate.
Qed.

End NoForeignException.

(* ===================================================================== *)
(** * What the [ta] parser hands on                                       *)
(* ===================================================================== *)

Section TaForwarding.
Import Argparse TA.

Local Abbreviation state n e sn ps :=
  {| ns := n; extras := e; seen := sn; positionals := ps |}.

Lemma option_like_parse s :
  option_like s = true ->
  String.eqb s "--" = false
  /\ parse_optional make_ta_parser s = inr (Some (None, s, None)).
Proof.
  unfold option_like. intros H.
  apply andb_prop in H. destruct H as [H Hsp].
  apply andb_prop in H. destruct H as [H Hneg].
  apply andb_prop in H. destruct H as [H Hsep].
  apply andb_prop in H. destruct H as [Hd Hlen].
  apply negb_true_iff in Hsp, Hneg, Hsep, Hlen.
  split; [exact Hsep|].
  unfold parse_optional.
  destruct s as [|c0 s0]; [discriminate|].
  assert (Hc : Ascii.eqb c0 "-" = true).
  { destruct (Ascii.eqb c0 "-") eqn:E; [reflexivity|].
    apply Ascii.eqb_neq in E. cbn in Hd.
    destruct c0 as [[] [] [] [] [] [] [] []]; try discriminate. congruence. }
  rewrite Hc. cbn [negb].
  change (option_string_actions make_ta_parser) with (@nil (string * action)).
  cbn [lookup_option]. rewrite Hlen, get_option_tuples_ta.
  destruct (contains "=" (String c0 s0));
    [destruct (split_first "=" (String c0 s0))|]; cbv iota beta;
    rewrite Hneg, Hsp; reflexivity.
Qed.

Lemma until_option_app toks before from_option :
  until_option toks = (before, from_option) -> toks = (before ++ from_option)%list.
Proof.
  revert before from_option.
  induction toks as [|t toks IH]; intros b f E.
  - injection E as <- <-. reflexivity.
  - cbn in E. destruct (is_option t).
    + injection E as <- <-. reflexivity.
    + destruct (until_option toks) as [a c]. injection E as <- <-.
      cbn. f_equal. apply IH. reflexivity.
Qed.

(** Once the command is stored, every remaining string goes to the
    extras, in order. *)
Lemma parse_loop_after_cmd_extras fuel :
  forall toks n e sn,
    plain toks ->
    parse_loop fuel toks (state n e sn [])
    = inr (state n (e ++ map fst toks)%list sn []).
Proof.
  assert (Hfinish : forall toks n e sn,
             finish toks (state n e sn [])
             = inr (state n (e ++ map fst toks)%list sn [])).
  { intros. unfold finish. rewrite consume_positionals_none. reflexivity. }
  induction fuel as [|fuel IH]; intros toks n e sn Hp; [apply Hfinish|].
  cbn [parse_loop]. destruct (existsb is_option toks); [|apply Hfinish].
  assert (Hrest :
           (let* (k, st1) := consume_positionals toks (state n e sn []) in
            if (0 <? k)%nat then parse_loop fuel (drop k toks) st1
            else
              let '(before, from_option) := until_option toks in
              let st2 := add_extras (map fst before) st1 in
              match from_option with
              | (s, O t) :: rest =>
                  let* (k', st') := consume_optional t s rest st2 in
                  parse_loop fuel (drop k' rest) st'
              | _ => finish from_option st2
              end) = inr (state n (e ++ map fst toks)%list sn [])).
  { rewrite consume_positionals_none. cbn [bind Nat.ltb Nat.leb].
    destruct (until_option toks) as [before from_option] eqn:E.
    pose proof (until_option_app _ _ _ E) as Happ.
    destruct (until_option_plain _ Hp _ _ E) as [-> | (s & x & y & rest & -> & Hr)].
    - cbv beta iota zeta. unfold add_extras. cbn [ns extras seen positionals].
      rewrite Hfinish. rewrite app_nil_r in Happ. subst before.
      cbn [map]. rewrite app_nil_r. reflexivity.
    - cbv beta iota zeta. unfold consume_optional. cbn [bind].
      change (drop 0 rest) with rest. unfold add_extras.
      cbn [ns extras seen positionals].
      rewrite IH by exact Hr. rewrite Happ, map_app. cbn [map fst].
      rewrite <- !app_assoc. reflexivity. }
  destruct toks as [|[s l] rest]; [exact Hrest|].
  destruct l; [exact Hrest| |exact Hrest].
  inversion Hp as [|? ? Ht Hp']; subst.
  destruct t as [[o x] y]. specialize (Ht _ eq_refl). cbn in Ht. subst o.
  unfold consume_optional. cbn [bind].
  change (drop 0 rest) with rest. unfold add_extras.
  cbn [ns extras seen positionals].
  rewrite IH by exact Hp'. cbn [map fst]. rewrite <- app_assoc. reflexivity.
Qed.

(** A registered command at the head is stored; the extras receive what
    follows it, less the separator the positional took along. *)
Lemma parse_loop_registered_extras fuel c rest n e sn :
  wf false ((c, A) :: rest) -> In c CHOICES ->
  parse_loop fuel ((c, A) :: rest) (state n e sn [cmd_action])
  = inr (state (setattr n "cmd" (VStr c))
               (e ++ map fst (drop (count_dashes (map snd rest)) rest))%list
               ("cmd" :: sn) []).
Proof.
  intros Hwf Hc.
  destruct (wf_match_argument _ _ Hwf) as (k & Em & R).
  assert (Ek : k = count_dashes (map snd rest)).
  { unfold match_positional in Em. cbn [map snd count_dashes drop] in Em.
    injection Em as Em. lia. }
  assert (Ec : existsb (String.eqb c) CHOICES = true) by (apply existsb_eqb_In, Hc).
  assert (Hp : plain (drop (S k + 0) ((c, A) :: rest))).
  { apply plain_drop. eapply wf_plain, Hwf. }
  assert (Hfinish :
           finish ((c, A) :: rest) (state n e sn [cmd_action])
           = inr (state (setattr n "cmd" (VStr c))
                        (e ++ map fst (drop k rest))%list ("cmd" :: sn) [])).
  { unfold finish. rewrite consume_positionals_cmd. unfold token in *.
    rewrite Em, (get_values_cmd_one _ _ R), Ec. cbn [bind]. unfold add_extras.
    cbn [ns extras seen positionals].
    replace (S k + 0)%nat with (S k) by lia. reflexivity. }
  subst k.
  destruct fuel as [|fuel]; [exact Hfinish|].
  cbn [parse_loop]. destruct (existsb is_option _); [|exact Hfinish].
  rewrite consume_positionals_cmd. unfold token in *.
  rewrite Em, (get_values_cmd_one _ _ R), Ec.
  cbn [bind]. replace (0 <? S (count_dashes (map snd rest)) + 0)%nat with true by reflexivity.
  rewrite parse_loop_after_cmd_extras by exact Hp.
  replace (S (count_dashes (map snd rest)) + 0)%nat
    with (S (count_dashes (map snd rest))) by lia.
  reflexivity.
Qed.

(** What the positional leaves of the classified strings is
    [after_command] of the strings. *)
Lemma classified_after_command args toks :
  classify make_ta_parser false args = inr toks ->
  map fst (drop (count_dashes (map snd toks)) toks) = after_command args.
Proof.
  destruct (classify_ta args false) as (toks' & E & Hwf & Hm).
  rewrite E. intros [= <-].
  destruct args as [|s args]; [destruct toks'; [reflexivity | discriminate]|].
  cbn [classify] in E. unfold after_command.
  destruct (String.eqb s "--") eqn:Es.
  - destruct (classify_ta args true) as (t & Et & Hwt & Hmt).
    rewrite Et in E. cbn in E. injection E as <-.
    cbn [map snd count_dashes]. rewrite (wf_true_no_dashes _ Hwt).
    cbn [drop]. exact Hmt.
  - destruct (parse_optional make_ta_parser s) as [f|o]; [discriminate|].
    cbn [bind] in E.
    destruct (classify make_ta_parser false args) as [f|t]; [discriminate|].
    cbn in E. injection E as <-.
    destruct o; cbn [map snd count_dashes drop]; exact Hm.
Qed.

Lemma classify_options opts args toks :
  Forall (fun s => option_like s = true) opts ->
  classify make_ta_parser false args = inr toks ->
  classify make_ta_parser false (opts ++ args)
  = inr (map (fun s => (s, O (None, s, None))) opts ++ toks)%list.
Proof.
  intros Ho E. induction Ho as [|s opts Hs Ho IH]; [exact E|].
  destruct (option_like_parse s Hs) as [Hsep Hpo].
  cbn [app classify]. rewrite Hsep, Hpo. cbn [bind]. rewrite IH. reflexivity.
Qed.

(** The options in front of the command each take one turn of the
    loop. *)
Lemma parse_loop_options opts :
  forall fuel toks n e sn ps,
    parse_loop (length opts + fuel)
               (map (fun s => (s, O (None, s, None))) opts ++ toks)%list
               (state n e sn ps)
    = parse_loop fuel toks (state n (e ++ opts)%list sn ps).
Proof.
  induction opts as [|s opts IH]; intros fuel toks n e sn ps.
  - cbn. rewrite app_nil_r. reflexivity.
  - cbn [length Nat.add map app parse_loop existsb is_option snd orb].
    unfold consume_optional. cbn [bind].
    rewrite drop_0. unfold add_extras.
    cbn [ns extras seen positionals].
    rewrite IH. rewrite <- app_assoc. reflexivity.
Qed.

(** The [ta] parser on any number of unknown options, a registered
    command and whatever follows. *)
Lemma ta_parse_forwarding opts cmd rest :
  Forall (fun s => option_like s = true) opts -> In cmd CHOICES ->
  parse_known_args make_ta_parser (opts ++ cmd :: rest)
  = Parsed [("cmd", VStr cmd)] (opts ++ after_command rest).
Proof.
  intros Ho Hc. unfold parse_known_args, parse_known_args_inner.
  destruct (classify_ta_head cmd rest (registered_no_dash _ Hc)) as (toks & E & Hwf).
  rewrite (classify_options opts _ _ Ho E). cbn [bind].
  rewrite length_app, length_map.
  change (positional_actions make_ta_parser) with [cmd_action].
  rewrite parse_loop_options.
  pose proof (parse_loop_registered_extras (length ((cmd, A) :: toks)) cmd toks
                (initial_namespace make_ta_parser) ([] ++ opts)%list [] Hwf Hc) as El.
  unfold token in *. rewrite El. cbn [bind].
  assert (Ea : map fst (drop (count_dashes (map snd toks)) toks) = after_command rest).
  { destruct (classify_ta rest false) as (toks' & E' & _ & _).
    cbn [classify] in E.
    assert (Hne : String.eqb cmd "--" = false).
    { destruct (String.eqb cmd "--") eqn:E2; [|reflexivity].
      apply String.eqb_eq in E2. subst cmd. apply registered_no_dash in Hc. discriminate. }
    rewrite Hne, (parse_optional_no_dash _ _ (registered_no_dash _ Hc)), E' in E.
    cbn in E. injection E as <-.
    apply classified_after_command. exact E'. }
  unfold token in *. rewrite Ea. reflexivity.
Qed.

(** Unknown options alone leave the required command missing. *)
Lemma ta_parse_only_options opts :
  Forall (fun s => option_like s = true) opts ->
  parse_known_args make_ta_parser opts = Exits "ta" (RequiredMissing ["cmd"]).
Proof.
  intros Ho. unfold parse_known_args, parse_known_args_inner.
  pose proof (classify_options opts [] [] Ho eq_refl) as E.
  rewrite !app_nil_r in E. rewrite E. cbn [bind].
  rewrite length_map.
  pose proof (parse_loop_options opts 0 [] (initial_namespace make_ta_parser) [] []
                                 (positional_actions make_ta_parser)) as El.
  rewrite !app_nil_r, Nat.add_0_r in El. unfold token in *. rewrite El.
  reflexivity.
Qed.

(** A string the [ta] parser does not take for an option is a plain
    argument, unless it is the separator. *)
Lemma not_option_like_parse s :
  option_like s = false ->
  parse_optional make_ta_parser s = inr None \/ s = "--".
Proof.
  intros H. unfold parse_optional.
  destruct s as [|c0 s0]; [left; reflexivity|].
  destruct (Ascii.eqb c0 "-") eqn:Hc; cbn [negb]; [|left; reflexivity].
  apply Ascii.eqb_eq in Hc. subst c0.
  change (option_string_actions make_ta_parser) with (@nil (string * action)).
  cbn [lookup_option].
  destruct (_ =? 1)%nat eqn:Hlen; [left; reflexivity|].
  rewrite get_option_tuples_ta.
  unfold option_like in H. cbn [starts_with_dash andb] in H.
  rewrite Hlen in H. cbn [negb andb] in H.
  destruct (String.eqb (String "-" s0) "--") eqn:Hsep.
  { right. apply String.eqb_eq. exact Hsep. }
  cbn [negb andb] in H.
  change (has_negative_number_optionals make_ta_parser) with false.
  cbn [negb].
  destruct (contains "=" (String "-" s0));
    [destruct (split_first "=" (String "-" s0))|]; cbv iota beta.
  all: destruct (negative_number _); cbn [andb negb] in *; [left; reflexivity|].
  all: destruct (contains " " _); [left; reflexivity | discriminate].
Qed.

(** Such a string at the head is an argument. *)
Lemma classify_ta_argument s args :
  option_like s = false -> s <> "--" ->
  exists toks,
    classify make_ta_parser false (s :: args) = inr ((s, A) :: toks)
    /\ wf false ((s, A) :: toks).
Proof.
  intros Ho Hs.
  destruct (classify_ta (s :: args) false) as (toks & E & Hwf & Hm).
  pose proof E as E0.
  cbn [classify] in E.
  assert (Hne : String.eqb s "--" = false).
  { destruct (String.eqb s "--") eqn:E2; [|reflexivity].
    apply String.eqb_eq in E2. contradiction. }
  destruct (not_option_like_parse s Ho) as [Hp|]; [|contradiction].
  rewrite Hne, Hp in E. cbn in E.
  destruct (classify make_ta_parser false args) as [f|toks']; [discriminate|].
  cbn in E. injection E as <-.
  exists toks'. split; [exact E0 | exact Hwf].
Qed.

(** Whatever is not a command, not an unknown option and not the
    separator is refused as an invalid choice, also behind unknown
    options. *)
Lemma ta_parse_not_a_command opts t rest :
  Forall (fun s => option_like s = true) opts ->
  option_like t = false -> t <> "--" -> ~ In t CHOICES ->
  parse_known_args make_ta_parser (opts ++ t :: rest) = Exits "ta" (invalid_choice t).
Proof.
  intros Ho Hd Hs Ht. unfold parse_known_args, parse_known_args_inner.
  destruct (classify_ta_argument t rest Hd Hs) as (toks & E & Hwf).
  rewrite (classify_options opts _ _ Ho E). cbn [bind].
  rewrite length_app, length_map.
  change (positional_actions make_ta_parser) with [cmd_action].
  rewrite parse_loop_options.
  pose proof (parse_loop_unregistered (length ((t, A) :: toks)) t toks
                (initial_namespace make_ta_parser) ([] ++ opts)%list [] Hwf Ht) as El.
  unfold token in *. rewrite El. reflexivity.
Qed.

(** Unknown options in front do not hide an unknown command. *)
Lemma ta_parse_unregistered_after_options opts t rest :
  Forall (fun s => option_like s = true) opts ->
  starts_with_dash t = false -> ~ In t CHOICES ->
  parse_known_args make_ta_parser (opts ++ t :: rest) = Exits "ta" (invalid_choice t).
Proof.
  intros Ho Hd Ht. unfold parse_known_args, parse_known_args_inner.
  destruct (classify_ta_head t rest Hd) as (toks & E & Hwf).
  rewrite (classify_options opts _ _ Ho E). cbn [bind].
  rewrite length_app, length_map.
  change (positional_actions make_ta_parser) with [cmd_action].
  rewrite parse_loop_options.
  pose proof (parse_loop_unregistered (length ((t, A) :: toks)) t toks
                (initial_namespace make_ta_parser) ([] ++ opts)%list [] Hwf Ht) as El.
  unfold token in *. rewrite El. reflexivity.
Qed.

End TaForwarding.

(* ===================================================================== *)
(** * The tokens of an input line                                         *)
(* ===================================================================== *)

Section Tokens.
Import Text.

Lemma append_String c s t : String c s +:+ t = String c (s +:+ t).
Proof. reflexivity. Qed.

Lemma append_empty_l t : "" +:+ t = t.
Proof. reflexivity. Qed.

Lemma append_empty_r s : s +:+ "" = s.
Proof.
  induction s as [|c s IH]; [reflexivity|]. rewrite append_String, IH. reflexivity.
Qed.

Lemma append_cons_assoc cur c t : cur +:+ String c t = (cur +:+ String c "") +:+ t.
Proof.
  induction cur as [|d cur IH]; [reflexivity|].
  rewrite !append_String, IH. reflexivity.
Qed.

Lemma append_not_empty cur c : cur +:+ String c "" <> "".
Proof. destruct cur; discriminate. Qed.

Lemma all_chars_app p s t :
  all_chars p (s +:+ t) = all_chars p s && all_chars p t.
Proof.
  induction s as [|c s IH]; [reflexivity|].
  rewrite append_String. cbn [all_chars]. rewrite IH. apply andb_assoc.
Qed.

Lemma split_from_blank s :
  forall cur, blank s = true ->
    split_from cur s = match cur with EmptyString => [] | _ => [cur] end.
Proof.
  induction s as [|c s IH]; intros cur H; [reflexivity|].
  cbn in H. apply andb_prop in H. destruct H as [Hc Hs].
  cbn [split_from]. rewrite Hc, (IH "" Hs). reflexivity.
Qed.

Lemma split_from_nil s :
  forall cur, split_from cur s = [] -> cur = "" /\ blank s = true.
Proof.
  induction s as [|c s IH]; intros cur H.
  - destruct cur; [auto | discriminate].
  - cbn [split_from] in H. unfold blank. cbn [all_chars].
    destruct (isspace c).
    + destruct cur; [|discriminate]. split; [reflexivity|].
      apply (IH "" H).
    + apply IH in H. destruct H as [H _]. apply append_not_empty in H. contradiction.
Qed.

Lemma split_blank s : blank s = true -> split s = [].
Proof. intros H. apply (split_from_blank s "" H). Qed.

Lemma split_from_tokens s :
  forall cur, spaceless cur = true ->
    Forall (fun t => t <> "" /\ spaceless t = true) (split_from cur s).
Proof.
  induction s as [|c s IH]; intros cur Hcur; cbn [split_from].
  - destruct cur; constructor; [split; [discriminate | exact Hcur] | constructor].
  - destruct (isspace c) eqn:Ec.
    + destruct cur; [apply IH; reflexivity|].
      constructor; [split; [discriminate | exact Hcur] | apply IH; reflexivity].
    + apply IH. unfold spaceless in *. rewrite all_chars_app, Hcur.
      cbn [all_chars andb]. rewrite Ec. reflexivity.
Qed.

Lemma split_from_token t :
  forall cur rest, spaceless t = true ->
    split_from cur (t +:+ rest) = split_from (cur +:+ t) rest.
Proof.
  induction t as [|c t IH]; intros cur rest H.
  - rewrite append_empty_r. reflexivity.
  - cbn in H. apply andb_prop in H. destruct H as [Hc Ht].
    apply negb_true_iff in Hc.
    rewrite append_String. cbn [split_from].
    rewrite Hc, (IH _ _ Ht), <- append_cons_assoc.
    reflexivity.
Qed.

(** X12.  The [split] of an input line, which [switch] hands to the parser:
    every token is non-empty and holds no whitespace, and there is no
    token at all exactly when the line is blank. *)
Theorem split_tokens s :
  Forall (fun t => t <> "" /\ spaceless t = true) (split s)
  /\ (split s = [] <-> blank s = true).
Proof.
  split; [apply split_from_tokens; reflexivity|].
  split; [intros H; apply (split_from_nil _ _ H) | apply split_blank].
Qed.

(** X13.  Tokens joined by single spaces form a line that [split] takes apart
    into the same tokens. *)
Theorem split_join ts :
  Forall (fun t => t <> "" /\ spaceless t = true) ts ->
  split (join " " ts) = ts.
Proof.
  unfold split, join. induction 1 as [|t ts [Hne Ht] Hts IH]; [reflexivity|].
  destruct ts as [|t' ts].
  - cbn [String.concat].
    replace (split_from "" t) with (split_from "" (t +:+ ""))
      by (rewrite append_empty_r; reflexivity).
    rewrite (split_from_token t "" "" Ht).
    rewrite append_empty_l. destruct t; [contradiction | reflexivity].
  - change (String.concat " " (t :: t' :: ts))
      with (t +:+ " " +:+ String.concat " " (t' :: ts)).
    rewrite (split_from_token t "" _ Ht). rewrite append_empty_l.
    rewrite append_String, append_empty_l.
    cbn [split_from].
    change (isspace " ") with true. cbv iota. rewrite IH.
    destruct t; [contradiction | reflexivity].
Qed.

End Tokens.

(* ===================================================================== *)
(** * The controller                                                      *)
(* ===================================================================== *)

Section ControllerFacts.
Import Argparse HelperFuncs TA.

Variable ext : collaborators.
Variable gtff : feature_flags.

(** ** The parsers of [ema] and [sma] let no exception through *)

Lemma int_raises s e : int s = Raise e -> e = ValueError s.
Proof.
  unfold int.
  match goal with
  | |- match ?r with Some _ => _ | None => _ end = _ -> _ => destruct r
  end; [destruct (_ <? _)%Z; [|discriminate]|];
    intros [= <-]; reflexivity.
Qed.

Lemma int_each_raises l e : int_each l = Raise e -> exists m, e = ValueError m.
Proof.
  induction l as [|s l IH]; [discriminate|]. cbn.
  destruct (int s) eqn:E.
  - destruct (int_each l); [discriminate|]. intros [= <-]. apply IH. reflexivity.
  - intros [= <-]. apply int_raises in E. eauto.
Qed.

Lemma tame_length : tame length_action.
Proof.
  intros f s e [= <-]. unfold length_type.
  destruct (int_each _) eqn:E; [discriminate|]. intros [= <-].
  apply int_each_raises in E. auto.
Qed.

Lemma tame_offset : tame offset_action.
Proof.
  intros f s e [= <-]. unfold check_positive.
  destruct (int s) eqn:E.
  - destruct (_ <? _)%Z; [|discriminate]. intros [= <-]. eauto.
  - intros [= <-]. apply int_raises in E. eauto.
Qed.

Lemma moving_average_parser_never_throws prog args e :
  parse_known_args {| prog := prog; actions := [length_action; offset_action] |} args
  <> Throws e.
Proof.
  apply parse_known_args_never_throws.
  intros a [<- | [<- | []]]; [apply tame_length | apply tame_offset].
Qed.

Lemma parse_known_args_and_warn_returns prog args :
  exists r ws,
    parse_known_args_and_warn
      {| prog := prog; actions := [length_action; offset_action] |} args
    = (Ret r, ws).
Proof.
  unfold parse_known_args_and_warn.
  destruct (parse_known_args _ args) as [n [|u us]|pr f|e] eqn:E; eauto.
  exfalso. eapply moving_average_parser_never_throws, E.
Qed.

(** ** Running the handlers symbolically *)

Ltac unfold_M :=
  cbv beta iota zeta delta
      [ call_help call_q call_quit call_view call_summary call_recom call_pr
        call_ema call_sma call_vwap call_cci call_macd call_rsi call_stoch
        call_adx call_aroon call_bbands call_ad call_obv
        delegate moving_average print_help ema_parser sma_parser
        mbind ret raise emit print self attr call_ext assign_delete_img
        try_except_Exception parse_known_args_and_warn_M
        os_path_isfile os_remove cleanup call1 fst snd ].

Ltac case_split :=
  match goal with
  | |- context [ext ?c ?w] => destruct (ext c w) as [[[[]|?] ?] ?] eqn:?
  | |- context [parse_known_args_and_warn ?p ?a] =>
      let r := fresh "r" in
      let ws := fresh "ws" in
      let E := fresh "E" in
      destruct (parse_known_args_and_warn_returns (prog p) a) as (r & ws & E);
      cbn [prog] in E; rewrite E; destruct r
  | |- context [getattr ?n ?d] => destruct (getattr n d) eqn:?
  | |- context [is_Exception ?e] => destruct (is_Exception e) eqn:?
  | |- context [USE_ION ?g] => destruct (USE_ION g) eqn:?
  | |- context [delete_img ?c] => destruct (delete_img c) eqn:?
  | |- context [bool_decide ?P] => destruct (bool_decide P) eqn:?
  | |- context [start ?c] => destruct (start c) eqn:?
  end; cbv beta iota zeta.

Ltac run_M := unfold_M; repeat case_split; cbn [fst snd].

Lemma same_session_refl c : same_session c c.
Proof. repeat split. Qed.

Lemma same_session_flag b c : same_session c (set_delete_img b c).
Proof. repeat split. Qed.

Lemma same_session_trans c1 c2 c3 :
  same_session c1 c2 -> same_session c2 c3 -> same_session c1 c3.
Proof. unfold same_session. intuition congruence. Qed.

Ltac close_handler :=
  first
    [ apply same_session_refl
    | apply same_session_flag
    | discriminate
    | intros [= <-]; unfold control_signal; tauto
    | match goal with
      | H : ext ?call ?w = (Raise ?e, _, _) |- Raise ?e = Raise _ -> _ =>
          intros [= <-]; exists call, w; rewrite H; reflexivity
      end ].

(** Every handler of the class leaves the session context alone,
    returns nothing but a control signal, and raises nothing that a
    collaborator did not raise. *)
Lemma methods_behave :
  Forall (fun nh : string * (list string -> M value) =>
            forall other_args c w,
              same_session c (snd (fst (snd nh other_args c w)))
              /\ (forall v, fst (fst (snd nh other_args c w)) = Ret v -> control_signal v)
              /\ (forall e, fst (fst (snd nh other_args c w)) = Raise e -> upstream ext e))
         (methods ext gtff).
Proof.
  unfold methods.
  repeat (constructor;
          [intros other_args c w; cbn [snd];
           (split; [|split; intros ?]); run_M; close_handler|]).
  constructor.
Qed.

Lemma lookup_method_In l name h :
  lookup_method l name = Method h -> In (name, h) l.
Proof.
  induction l as [|[k g] l IH]; [discriminate|].
  cbn. destruct (String.eqb k name) eqn:E.
  - apply String.eqb_eq in E. intros [= ->]. subst. auto.
  - auto.
Qed.

(** Every name in [CHOICES] has its [call_] method. *)
Lemma registered_method :
  Forall (fun c => exists h, getattr_or_fallback ext gtff ("call_" +:+ c) = Method h)
         CHOICES.
Proof. unfold CHOICES. repeat constructor; eexists; reflexivity. Qed.

Lemma registered_method_In c :
  In c CHOICES -> exists h, getattr_or_fallback ext gtff ("call_" +:+ c) = Method h.
Proof. intros H. exact (proj1 (List.Forall_forall _ _) registered_method c H). Qed.

(** ** The parts of [switch] *)

Lemma cleanup_spec c w :
  cleanup c w =
  if delete_img c && bool_decide (figure c ∈ fs w)
  then match remove_error w (figure c) with
       | Some e => (Raise e, c, w)
       | None => (Ret tt, set_delete_img false c, without_figure c w)
       end
  else (Ret tt, c, w).
Proof.
  unfold without_figure, figure. unfold_M.
  destruct (delete_img c); [|reflexivity].
  cbn [andb].
  destruct (bool_decide _) eqn:E1; [|reflexivity].
  rewrite E1. destruct (remove_error w _); reflexivity.
Qed.

(** [cleanup] in terms of the error of the deletion. *)
Lemma cleanup_cases c w :
  cleanup c w =
  match cleanup_error c w with
  | Some e => (Raise e, c, w)
  | None =>
      if delete_img c && bool_decide (figure c ∈ fs w)
      then (Ret tt, set_delete_img false c, without_figure c w)
      else (Ret tt, c, w)
  end.
Proof.
  rewrite cleanup_spec. unfold cleanup_error.
  destruct (_ && _); [|reflexivity].
  destruct (remove_error w _); reflexivity.
Qed.

Lemma cleanup_frame : keeps_session cleanup.
Proof.
  intros c w. rewrite cleanup_spec.
  destruct (_ && _); [|apply same_session_refl].
  destruct (remove_error w _); [apply same_session_refl | apply same_session_flag].
Qed.

Lemma method_behaves name h other_args c w :
  getattr_or_fallback ext gtff name = Method h ->
  same_session c (snd (fst (h other_args c w)))
  /\ (forall v, fst (fst (h other_args c w)) = Ret v -> control_signal v)
  /\ (forall e, fst (fst (h other_args c w)) = Raise e -> upstream ext e).
Proof.
  intros E. apply lookup_method_In in E.
  exact (proj1 (List.Forall_forall _ _) methods_behave _ E other_args c w).
Qed.

Lemma invoke_handler_frame known_args other_args :
  keeps_session (invoke_handler ext gtff known_args other_args).
Proof.
  intros c w. unfold invoke_handler, attr, mbind.
  destruct (getattr known_args "cmd") as [[| | |name|]|];
    try apply same_session_refl.
  cbv beta iota delta [ret].
  destruct (getattr_or_fallback ext gtff ("call_" +:+ name)) as [h|] eqn:E;
    [|apply same_session_refl].
  apply (method_behaves _ _ other_args c w E).
Qed.

Lemma invoke_handler_signal known_args other_args :
  returns_signal (invoke_handler ext gtff known_args other_args).
Proof.
  intros c w v. unfold invoke_handler, attr, mbind.
  destruct (getattr known_args "cmd") as [[| | |name|]|]; try discriminate.
  cbv beta iota delta [ret].
  destruct (getattr_or_fallback ext gtff ("call_" +:+ name)) as [h|] eqn:E;
    [|discriminate].
  apply (method_behaves _ _ other_args c w E).
Qed.

(** [switch], step by step, on a controller built by [__init__]. *)
Lemma switch_unfold an_input c w :
  built c ->
  switch ext gtff an_input c w =
  match parse_known_args make_ta_parser (split an_input) with
  | Parsed known_args other_args =>
      (cleanup ;; invoke_handler ext gtff known_args other_args)
        c (log [Switch an_input] w)
  | Exits prog f =>
      (Raise (SystemExit 2), c, log [Switch an_input; ParserError prog f] w)
  | Throws e => (Raise e, c, log [Switch an_input] w)
  end.
Proof.
  intros Hb. unfold switch, parse_known_args_M.
  cbv beta iota zeta delta [mbind emit self raise ret fst snd].
  rewrite Hb. destruct (parse_known_args _ _); try reflexivity.
  unfold log. cbn [fs trace]. rewrite <- app_assoc. reflexivity.
Qed.

Lemma handler_controller_session c w : same_session c (handler_controller c w).
Proof.
  unfold handler_controller.
  destruct (_ && _); [apply same_session_flag | apply same_session_refl].
Qed.

(** [switch] on a line the parser accepts: the deletion of a pending
    figure, which may fail, then the handler. *)
Lemma switch_parsed an_input c w known_args other_args :
  built c ->
  parse_known_args make_ta_parser (split an_input) = Parsed known_args other_args ->
  switch ext gtff an_input c w =
  match cleanup_error c w with
  | Some e => (Raise e, c, log [Switch an_input] w)
  | None =>
      invoke_handler ext gtff known_args other_args
        (handler_controller c w) (handler_world an_input c w)
  end.
Proof.
  intros Hb E. rewrite switch_unfold, E by exact Hb.
  cbv beta iota zeta delta [mbind]. rewrite cleanup_cases.
  unfold cleanup_error, handler_controller, handler_world.
  cbn [log fs remove_error].
  destruct (_ && _); [|reflexivity].
  destruct (remove_error w _); reflexivity.
Qed.

(** [switch] on a line the parser rejects. *)
Lemma switch_rejected an_input c w prog f :
  built c ->
  parse_known_args make_ta_parser (split an_input) = Exits prog f ->
  switch ext gtff an_input c w
  = (Raise (SystemExit 2), c, log [Switch an_input; ParserError prog f] w).
Proof. intros Hb E. rewrite switch_unfold, E by exact Hb. reflexivity. Qed.

(** C7.  Whatever the input line, the collaborators and the state of
    the world, and whether [switch] returns or raises, the controller it
    leaves behind has the [stock], [ticker], [start], [interval] and [gst]
    it had, and the parser with its [CHOICES]; only [delete_img] may have
    changed.  ([CHOICES] and the [call_] methods are class attributes:
    no field of the controller holds them, so no dispatch can alter
    them.) *)
Theorem switch_keeps_session an_input c w :
  same_session c (snd (fst (switch ext gtff an_input c w))).
Proof.
  unfold switch, parse_known_args_M.
  cbv beta iota zeta delta [mbind emit self raise ret fst snd].
  destruct (parse_known_args (ta_parser c) (split an_input))
    as [known_args other_args|prog f|e]; try apply same_session_refl.
  pose proof (cleanup_frame c (log [Switch an_input] w)) as H1.
  destruct (cleanup c (log [Switch an_input] w)) as [[[[]|e] c1] w1];
    [|exact H1].
  pose proof (invoke_handler_frame known_args other_args c1 w1) as H2.
  destruct (invoke_handler ext gtff known_args other_args c1 w1) as [[r c2] w2].
  eapply same_session_trans; eassumption.
Qed.

(** ** Dispatching an unregistered token *)

Lemma log_log evs1 evs2 w : log evs2 (log evs1 w) = log (evs1 ++ evs2) w.
Proof. unfold log. cbn [fs trace]. rewrite app_assoc. reflexivity. Qed.

Lemma switch_unregistered an_input t rest c w :
  built c -> split an_input = t :: rest ->
  ~ In t CHOICES -> option_like t = false -> t <> "--" ->
  switch ext gtff an_input c w =
  (Raise (SystemExit 2), c,
   log [Switch an_input; ParserError "ta" (invalid_choice t)] w).
Proof.
  intros Hb Hs Ht Hd Hsep. apply switch_rejected; [exact Hb|].
  rewrite Hs. apply (ta_parse_not_a_command [] t rest); auto.
Qed.

(** C1, as the code has it.  For an input line whose first token is not
    a registered command, and is neither the separator [--] nor a string
    the parser takes for an unknown option (so: any word, but also [-],
    [-5] or [-.5]), [switch] does not return: the parser writes its usage
    and invalid-choice error to standard error and [switch] raises
    [SystemExit(2)], leaving the controller and the files as they were.
    It is the [menu] loop that catches [SystemExit], prints "The command
    selected doesn't exist" and goes on to the next line (here: provided
    [plt.close("all")] returned). *)
Theorem unregistered_command_exits an_input t rest c w more :
  built c -> split an_input = t :: rest ->
  ~ In t CHOICES -> option_like t = false -> t <> "--" ->
  switch ext gtff an_input c w =
    (Raise (SystemExit 2), c,
     log [Switch an_input; ParserError "ta" (invalid_choice t)] w)
  /\ (fst (fst (ext (plt_close "all")
                   (log [Called (plt_close "all")]
                        (log [Prompted (use_toolkit gtff) an_input] w))))
       = Ret tt ->
      menu_loop ext gtff (an_input :: more) c w =
      menu_loop ext gtff more c
        (log [Switch an_input; ParserError "ta" (invalid_choice t); not_a_command]
             (world_after_call ext (plt_close "all")
                (log [Prompted (use_toolkit gtff) an_input] w)))).
Proof.
  intros Hb Hs Ht Hd Hsep.
  split; [apply (switch_unregistered _ t rest); assumption|].
  intros Hclose. cbn [menu_loop]. unfold world_after_call.
  cbv beta iota zeta delta [mbind emit call_ext fst snd].
  destruct (ext _ _) as [[r files] written]. cbn [fst] in Hclose. subst r.
  rewrite (switch_unregistered _ _ _ _ _ Hb Hs Ht Hd Hsep).
  cbv beta iota zeta delta [print emit not_a_command].
  rewrite log_log. reflexivity.
Qed.

(** ** Dispatching a registered command *)

Lemma print_then {X} text (k : M X) c w :
  (print text ;; k) c w = k c (log [Print text] w).
Proof. reflexivity. Qed.

Lemma self_then {X Y} (field : controller -> X) (k : X -> M Y) c w :
  (let! x := self field in k x) c w = k (field c) c w.
Proof. reflexivity. Qed.

Lemma print_help_log c :
  exists lines, forall w, print_help c w = (Ret tt, c, log lines w).
Proof.
  unfold print_help.
  destruct (start c) as [date|] eqn:Es; eexists; intros w;
    rewrite !self_then, Es, !print_then; unfold print, emit;
    rewrite !log_log; cbn [app]; reflexivity.
Qed.

Lemma print_help_spec c w : print_help c w = (Ret tt, c, log (help_text c) w).
Proof.
  destruct (print_help_log c) as [lines H].
  unfold help_text. rewrite !H. reflexivity.
Qed.

Lemma dispatches_app t1 t2 :
  dispatches (t1 ++ t2) = (dispatches t1 + dispatches t2)%nat.
Proof. unfold dispatches. rewrite List.filter_app, length_app. reflexivity. Qed.

Lemma call_help_spec other_args c w :
  call_help other_args c w = (Ret VNone, c, log (help_text c) w).
Proof.
  unfold call_help. cbv beta iota zeta delta [mbind ret].
  rewrite print_help_spec. reflexivity.
Qed.

Lemma invoke_handler_registered cmd other_args :
  In cmd CHOICES ->
  exists h, getattr_or_fallback ext gtff ("call_" +:+ cmd) = Method h
            /\ invoke_handler ext gtff [("cmd", VStr cmd)] other_args = h other_args.
Proof.
  intros Hc. destruct (registered_method_In _ Hc) as [h E].
  exists h. split; [exact E|].
  unfold invoke_handler. change (attr [("cmd", VStr cmd)] "cmd") with (@ret value (VStr cmd)).
  cbv beta iota zeta delta [mbind ret]. rewrite E. reflexivity.
Qed.

(** [switch] when nothing is pending: the handler runs right after the
    parser. *)
Lemma switch_not_pending an_input c w known_args other_args :
  built c -> delete_img c = false ->
  parse_known_args make_ta_parser (split an_input) = Parsed known_args other_args ->
  switch ext gtff an_input c w
  = invoke_handler ext gtff known_args other_args c (log [Switch an_input] w).
Proof.
  intros Hb Hp E. rewrite (switch_parsed _ _ _ _ _ Hb E).
  unfold cleanup_error, handler_controller, handler_world.
  rewrite Hp. reflexivity.
Qed.

Lemma help_text_lines stock ticker start interval gst :
  help_text (init stock ticker start interval gst)
  = help_lines
      (let s_intraday :=
         if String.eqb interval "1440min" then "Daily"
         else "Intraday " +:+ interval in
       match start with
       | Some date =>
           newline +:+ s_intraday +:+ " Stock: " +:+ ticker
           +:+ " (from " +:+ date +:+ ")"
       | None => newline +:+ s_intraday +:+ " Stock: " +:+ ticker
       end).
Proof. destruct start; reflexivity. Qed.

(** C3.  With [plt.close("all")] returning quietly, [menu] on the lines
    ["bogus"], ["help"], ["q"] (followed by any further lines, which
    stay unread) prints the help text once on entry: the header with the
    interval ("Daily" for [1440min]), the ticker and, if there is one, the
    start date, then the menu lines; then for ["bogus"] the parser's error
    and "The command selected doesn't exist", for ["help"] the same help
    text again, and on ["q"] it returns [False], the signal to leave the
    menu; [switch] was entered exactly three times. *)
Theorem menu_bogus_help_q stock ticker start interval gst rest w :
  (forall w0, ext (plt_close "all") w0 = (Ret tt, fs w0, [])) ->
  let c := init stock ticker start interval gst in
  let s_intraday :=
    if String.eqb interval "1440min" then "Daily"
    else "Intraday " +:+ interval in
  let header :=
    match start with
    | Some date =>
        newline +:+ s_intraday +:+ " Stock: " +:+ ticker
        +:+ " (from " +:+ date +:+ ")"
    | None => newline +:+ s_intraday +:+ " Stock: " +:+ ticker
    end in
  let shown :=
    (help_lines header
     ++ [ Prompted (use_toolkit gtff) "bogus"; Called (plt_close "all");
          Switch "bogus";
          ParserError "ta" (invalid_choice "bogus"); not_a_command;
          Prompted (use_toolkit gtff) "help"; Called (plt_close "all");
          Switch "help" ]
     ++ help_lines header
     ++ [ Prompted (use_toolkit gtff) "q"; Called (plt_close "all");
          Switch "q" ])%list in
  menu ext gtff stock ticker start interval gst
       ("bogus" :: "help" :: "q" :: rest) w
  = (Ret (VBool false), c, log shown w)
  /\ dispatches shown = 3%nat.
Proof.
  intros Hclose c s_intraday header shown.
  assert (Hh : help_text c = help_lines header) by apply help_text_lines.
  assert (Hb : built c) by reflexivity.
  assert (Hp : delete_img c = false) by reflexivity.
  assert (Hcall : forall w0, call_ext ext (plt_close "all") c w0
                             = (Ret tt, c, log [Called (plt_close "all")] w0)).
  { intros w0. unfold call_ext. rewrite Hclose. unfold log. cbn [fs trace map].
    rewrite app_nil_r. reflexivity. }
  split.
  - unfold menu. fold c.
    cbv beta iota zeta delta [mbind]. rewrite call_help_spec.
    cbn [menu_loop]. cbv beta iota zeta delta [mbind emit fst snd].
    rewrite Hcall.
    rewrite (switch_unregistered "bogus" "bogus" [] c _ Hb eq_refl)
      by (try reflexivity; cbn; intuition discriminate).
    cbv beta iota zeta delta [print emit fst snd]. rewrite Hcall.
    rewrite (switch_not_pending "help" c _ [("cmd", VStr "help")] [] Hb Hp eq_refl).
    change (invoke_handler ext gtff [("cmd", VStr "help")] [])
      with (call_help []).
    rewrite call_help_spec. rewrite Hcall.
    rewrite (switch_not_pending "q" c _ [("cmd", VStr "q")] [] Hb Hp eq_refl).
    change (invoke_handler ext gtff [("cmd", VStr "q")] [] c)
      with (@ret value (VBool false) c).
    unfold ret. rewrite !log_log, Hh. unfold shown, not_a_command.
    repeat rewrite <- app_assoc. reflexivity.
  - unfold shown. rewrite !dispatches_app. reflexivity.
Qed.

(** ** What the handlers do with failures *)

Ltac not_this_handler :=
  let H := fresh in
  intros H; exfalso; cbn in H; intuition discriminate.

(** [call_ema] and [call_sma] return [None] and nothing else, and let no
    [Exception] out. *)
Lemma moving_averages_outcome :
  Forall (fun nh : string * (list string -> M value) =>
            In (fst nh) ["call_ema"; "call_sma"] ->
            forall other_args c w,
              fst (fst (snd nh other_args c w)) = Ret VNone
              \/ exists e, fst (fst (snd nh other_args c w)) = Raise e
                           /\ is_Exception e = false)
         (methods ext gtff).
Proof.
  unfold methods.
  repeat (constructor;
          [first [ not_this_handler
                 | intros _ other_args c w; cbn [snd];
                   enough (H : forall P : outcome value -> Prop,
                              P (Ret VNone) ->
                              (forall x, is_Exception x = false -> P (Raise x)) ->
                              P (fst (fst (moving_average ext gtff
                                             {| prog := _; actions := _ |} _
                                             other_args c w))))
                     by (apply (H (fun r => r = Ret VNone
                                            \/ exists e, r = Raise e
                                                         /\ is_Exception e = false));
                         [left; reflexivity
                         |intros x Hx; right; exists x; split; [reflexivity | exact Hx]]);
                   intros P HN HX; run_M;
                   first [ exact HN | apply HX; assumption ] ]|]).
  constructor.
Qed.

(** A delegating handler makes the call [delegated_call] names, once;
    it returns [None] when the call returns and raises what the call
    raises; [call_view] sets the flag when its call returned. *)
Lemma delegates_call :
  Forall (fun nh : string * (list string -> M value) =>
            forall cmd, fst nh = "call_" +:+ cmd -> In cmd delegating ->
            forall other_args c w,
            exists call,
              delegated_call cmd other_args c = Some call
              /\ snd nh other_args c w
                 = (match fst (fst (ext call (log [Called call] w))) with
                    | Ret _ => Ret VNone
                    | Raise e => Raise e
                    end,
                    match fst (fst (ext call (log [Called call] w))) with
                    | Ret _ => if String.eqb cmd "view" then set_delete_img true c else c
                    | Raise _ => c
                    end,
                    world_after_call ext call w))
         (methods ext gtff).
Proof.
  unfold methods.
  repeat (constructor;
          [intros cmd Hn Hd other_args c w; cbn [fst snd] in *;
           change ("call_" +:+ cmd)
             with (String "c" (String "a" (String "l" (String "l" (String "_" cmd)))))
             in Hn;
           injection Hn as Hn; subst cmd;
           first [ solve [exfalso; cbn in Hd; intuition discriminate]
                 | eexists; split; [reflexivity|];
                   unfold world_after_call; unfold_M;
                   destruct (ext _ _) as [[[[]|?] ?] ?]; reflexivity ]|]).
  constructor.
Qed.

Lemma delegated_call_handler cmd other_args c w :
  delegated_call cmd other_args (handler_controller c w)
  = delegated_call cmd other_args c.
Proof. unfold handler_controller. destruct (_ && _); reflexivity. Qed.

Lemma method_named (P : string * (list string -> M value) -> Prop) name h :
  Forall P (methods ext gtff) ->
  getattr_or_fallback ext gtff name = Method h -> P (name, h).
Proof.
  intros HP E. apply lookup_method_In in E.
  exact (proj1 (List.Forall_forall _ _) HP _ E).
Qed.

(** The [ta] parser on a line that starts with a command. *)
Lemma ta_parse_command cmd rest :
  In cmd CHOICES ->
  parse_known_args make_ta_parser (cmd :: rest)
  = Parsed [("cmd", VStr cmd)] (after_command rest).
Proof.
  intros Hc. apply (ta_parse_forwarding [] cmd rest); [constructor | exact Hc].
Qed.

Lemma delegating_registered cmd : In cmd delegating -> In cmd CHOICES.
Proof. unfold delegating, CHOICES. cbn. intuition. Qed.

(** [switch] on a delegating command behind unknown options, when the
    deletion of a pending figure does not fail. *)
Lemma switch_delegates an_input opts cmd rest c w :
  built c -> split an_input = (opts ++ cmd :: rest)%list ->
  Forall (fun s => option_like s = true) opts ->
  In cmd delegating -> cleanup_error c w = None ->
  exists call,
    delegated_call cmd (opts ++ after_command rest) c = Some call
    /\ switch ext gtff an_input c w
       = (match fst (fst (ext call (log [Called call] (handler_world an_input c w)))) with
          | Ret _ => Ret VNone
          | Raise e => Raise e
          end,
          match fst (fst (ext call (log [Called call] (handler_world an_input c w)))) with
          | Ret _ =>
              if String.eqb cmd "view"
              then set_delete_img true (handler_controller c w)
              else handler_controller c w
          | Raise _ => handler_controller c w
          end,
          world_after_call ext call (handler_world an_input c w)).
Proof.
  intros Hb Hs Ho Hd He.
  pose proof (delegating_registered _ Hd) as Hc.
  pose proof (ta_parse_forwarding opts cmd rest Ho Hc) as Ep.
  rewrite <- Hs in Ep.
  rewrite (switch_parsed _ _ _ _ _ Hb Ep), He.
  destruct (invoke_handler_registered cmd (opts ++ after_command rest) Hc)
    as (h & E & ->).
  destruct (method_named _ _ _ delegates_call E cmd eq_refl Hd
              (opts ++ after_command rest)%list
              (handler_controller c w) (handler_world an_input c w))
    as (call & Hcall & Hrun).
  cbn [snd] in Hrun.
  exists call. split; [|exact Hrun].
  rewrite <- Hcall. symmetry. apply delegated_call_handler.
Qed.

(** [switch] on [help], [q] and [quit], whatever tokens follow. *)
Lemma switch_help an_input rest c w :
  built c -> split an_input = "help" :: rest -> cleanup_error c w = None ->
  switch ext gtff an_input c w
  = (Ret VNone, handler_controller c w,
     log (help_text (handler_controller c w)) (handler_world an_input c w)).
Proof.
  intros Hb Hs He.
  assert (Ep := ta_parse_command "help" rest). rewrite <- Hs in Ep.
  rewrite (switch_parsed _ _ _ _ _ Hb (Ep ltac:(cbn; tauto))), He.
  change (invoke_handler ext gtff [("cmd", VStr "help")] (after_command rest))
    with (call_help (after_command rest)).
  apply call_help_spec.
Qed.

Lemma switch_q an_input rest c w :
  built c -> split an_input = "q" :: rest -> cleanup_error c w = None ->
  switch ext gtff an_input c w
  = (Ret (VBool false), handler_controller c w, handler_world an_input c w).
Proof.
  intros Hb Hs He.
  assert (Ep := ta_parse_command "q" rest). rewrite <- Hs in Ep.
  rewrite (switch_parsed _ _ _ _ _ Hb (Ep ltac:(cbn; tauto))), He.
  reflexivity.
Qed.

Lemma switch_quit an_input rest c w :
  built c -> split an_input = "quit" :: rest -> cleanup_error c w = None ->
  switch ext gtff an_input c w
  = (Ret (VBool true), handler_controller c w, handler_world an_input c w).
Proof.
  intros Hb Hs He.
  assert (Ep := ta_parse_command "quit" rest). rewrite <- Hs in Ep.
  rewrite (switch_parsed _ _ _ _ _ Hb (Ep ltac:(cbn; tauto))), He.
  reflexivity.
Qed.

(** C2, as the code has it.  [switch] has no exception handling of its
    own.  For a line whose first token is a registered command, the parser
    stores the command and hands on the tokens behind it.  If a figure is
    pending and [os.remove] fails on it, [switch] raises that error and
    runs no handler.  Otherwise: whatever [switch] returns is [None],
    [False] or [True]; whatever it raises was raised by a collaborator (so
    it returns when none of them raises); [help] returns [None], [q]
    [False] and [quit] [True]; [ema] and [sma] catch every [Exception], so
    they return [None] or raise an exception outside that class; and each
    of the other commands calls its own view or indicator function, with
    those tokens and the ticker (the indicators also with the interval and
    the stock data), and [switch] returns [None] when that call returns
    and raises whatever it raises. *)
Theorem switch_outcomes an_input cmd rest c w :
  built c -> split an_input = cmd :: rest -> In cmd CHOICES ->
  parse_known_args make_ta_parser (split an_input)
  = Parsed [("cmd", VStr cmd)] (after_command rest)
  /\ (forall e, cleanup_error c w = Some e ->
        switch ext gtff an_input c w = (Raise e, c, log [Switch an_input] w))
  /\ (cleanup_error c w = None ->
      let r := fst (fst (switch ext gtff an_input c w)) in
      (forall v, r = Ret v -> control_signal v)
      /\ (forall e, r = Raise e -> upstream ext e)
      /\ (cmd = "help" -> r = Ret VNone)
      /\ (cmd = "q" -> r = Ret (VBool false))
      /\ (cmd = "quit" -> r = Ret (VBool true))
      /\ (In cmd ["ema"; "sma"] ->
          r = Ret VNone \/ exists e, r = Raise e /\ is_Exception e = false)
      /\ (In cmd delegating ->
          exists call,
            delegated_call cmd (after_command rest) c = Some call
            /\ r = match fst (fst (ext call
                                     (log [Called call]
                                          (handler_world an_input c w)))) with
                   | Ret _ => Ret VNone
                   | Raise e => Raise e
                   end)).
Proof.
  intros Hb Hs Hc.
  assert (Ep : parse_known_args make_ta_parser (split an_input)
               = Parsed [("cmd", VStr cmd)] (after_command rest)).
  { rewrite Hs. apply ta_parse_command, Hc. }
  pose proof (switch_parsed an_input c w _ _ Hb Ep) as Hsw.
  split; [exact Ep|]. split.
  { intros e He. rewrite Hsw, He. reflexivity. }
  intros He r.
  assert (Hr : r = fst (fst (invoke_handler ext gtff [("cmd", VStr cmd)]
                               (after_command rest)
                               (handler_controller c w)
                               (handler_world an_input c w)))).
  { subst r. rewrite Hsw, He. reflexivity. }
  destruct (invoke_handler_registered cmd (after_command rest) Hc) as (h & E & Ei).
  rewrite Ei in Hr.
  destruct (method_behaves _ _ (after_command rest) (handler_controller c w)
              (handler_world an_input c w) E) as (_ & Hv & Hx).
  rewrite <- Hr in Hv, Hx.
  split; [exact Hv|]. split; [exact Hx|].
  split; [|split; [|split; [|split]]].
  - intros ->. subst r. rewrite (switch_help an_input rest c w Hb Hs He). reflexivity.
  - intros ->. subst r. rewrite (switch_q an_input rest c w Hb Hs He). reflexivity.
  - intros ->. subst r. rewrite (switch_quit an_input rest c w Hb Hs He). reflexivity.
  - intros Hin. rewrite Hr.
    apply (method_named _ _ _ moving_averages_outcome E).
    cbn [fst]. cbn in Hin. cbn.
    destruct Hin as [<- | [<- | []]]; auto.
  - intros Hin.
    destruct (switch_delegates an_input [] cmd rest c w Hb Hs
                ltac:(constructor) Hin He) as (call & Hcall & Hrun).
    exists call. split; [exact Hcall|].
    subst r. rewrite Hrun. reflexivity.
Qed.

(** C9.  When the [ta] parser accepts a line, the command it stored is
    an element of [CHOICES] and the controller has the [call_] method for
    it, so [getattr] never falls back on the zero-argument lambda; every
    element of [CHOICES] has its method; and calling the fallback with
    the argument [switch] passes would raise [TypeError]. *)
Theorem fallback_never_invoked an_input known_args other_args :
  parse_known_args make_ta_parser (split an_input) = Parsed known_args other_args ->
  (exists cmd h,
      getattr known_args "cmd" = Some (VStr cmd) /\ In cmd CHOICES
      /\ getattr_or_fallback ext gtff ("call_" +:+ cmd) = Method h
      /\ invoke_handler ext gtff known_args other_args = h other_args)
  /\ Forall (fun cmd => exists h,
                 getattr_or_fallback ext gtff ("call_" +:+ cmd) = Method h) CHOICES
  /\ (forall c w, exists msg,
         call1 Fallback other_args c w = (Raise (TypeError msg), c, w)).
Proof.
  intros E. apply ta_parse_sound in E. destruct E as (cmd & Hc & ->).
  split; [|split].
  - destruct (invoke_handler_registered cmd other_args Hc) as (h & Eh & Ei).
    exists cmd, h. repeat split; assumption.
  - exact registered_method.
  - intros c w. eexists. reflexivity.
Qed.

(** ** The pending figure *)

Lemma call_view_sets_flag other_args c w v c' w' :
  call_view ext other_args c w = (Ret v, c', w') ->
  delete_img c' = true /\ figure c' = figure c.
Proof.
  unfold_M. destruct (ext _ _) as [[[[]|?] ?] ?]; [|discriminate].
  intros [= <- <- <-]. split; reflexivity.
Qed.

(** C4, as the code has it.  After a [view] command that returned, the
    flag is set and the figure is [<ticker>.jpg].  With the flag set, a
    call of [switch] whose line the parser accepts first looks for the
    figure.  If the file exists and [os.remove] deletes it, the flag is
    cleared, and only then does the handler run.  If the file exists and
    [os.remove] fails, [switch] raises that error: no handler runs, the
    file and the flag stay.  If the file is already absent nothing is
    raised, the handler runs, and the flag is left set.  A line the parser
    rejects makes [switch] raise before the cleanup: the figure and the
    flag stay. *)
Theorem cleanup_before_handler an_input c w known_args other_args :
  built c -> delete_img c = true ->
  parse_known_args make_ta_parser (split an_input) = Parsed known_args other_args ->
  (figure c ∈ fs w -> remove_error w (figure c) = None ->
   switch ext gtff an_input c w
   = invoke_handler ext gtff known_args other_args
       (set_delete_img false c)
       {| fs := fs w ∖ {[figure c]}; remove_error := remove_error w;
          trace := trace w ++ [Switch an_input] |})
  /\ (figure c ∈ fs w -> forall e, remove_error w (figure c) = Some e ->
      switch ext gtff an_input c w = (Raise e, c, log [Switch an_input] w))
  /\ (figure c ∉ fs w ->
      switch ext gtff an_input c w
      = invoke_handler ext gtff known_args other_args c (log [Switch an_input] w))
  /\ (forall line rest c0 w0 v c' w',
         built c0 -> split line = "view" :: rest ->
         switch ext gtff line c0 w0 = (Ret v, c', w') ->
         delete_img c' = true /\ figure c' = ticker c0 +:+ ".jpg")
  /\ (forall line prog f w0,
         parse_known_args make_ta_parser (split line) = Exits prog f ->
         switch ext gtff line c w0
         = (Raise (SystemExit 2), c, log [Switch line; ParserError prog f] w0)).
Proof.
  intros Hb Hp E.
  pose proof (switch_parsed an_input c w _ _ Hb E) as Hsw.
  unfold cleanup_error, handler_controller, handler_world in Hsw.
  rewrite Hp in Hsw. cbn [andb] in Hsw.
  split; [|split; [|split; [|split]]].
  - intros Hf Hr. rewrite Hsw, (bool_decide_eq_true_2 _ Hf), Hr. reflexivity.
  - intros Hf e Hr. rewrite Hsw, (bool_decide_eq_true_2 _ Hf), Hr. reflexivity.
  - intros Hf. rewrite Hsw, (bool_decide_eq_false_2 _ Hf). reflexivity.
  - intros line rest c0 w0 v c' w' Hb0 Hs.
    assert (Ep := ta_parse_command "view" rest). rewrite <- Hs in Ep.
    rewrite (switch_parsed _ _ _ _ _ Hb0 (Ep ltac:(cbn; tauto))).
    destruct (cleanup_error c0 w0); [discriminate|].
    change (invoke_handler ext gtff [("cmd", VStr "view")] (after_command rest))
      with (call_view ext (after_command rest)).
    intros H. apply call_view_sets_flag in H. destruct H as [H1 H2].
    split; [exact H1|]. rewrite H2.
    unfold handler_controller. destruct (_ && _); reflexivity.
  - intros line prog f w0 Ef. apply switch_rejected; assumption.
Qed.

(** ** The [ema] scenario *)

Lemma calls_app t1 t2 : calls (t1 ++ t2) = (calls t1 ++ calls t2)%list.
Proof. unfold calls. apply omap_app. Qed.

Lemma handler_world_trace an_input c w :
  trace (handler_world an_input c w) = (trace w ++ [Switch an_input])%list.
Proof. unfold handler_world. destruct (_ && _); reflexivity. Qed.


(** ** Commands that take no options *)

Lemma calls_Wrote l : calls (map Wrote l) = [].
Proof. induction l as [|x l IH]; [reflexivity | exact IH]. Qed.

Lemma world_after_call_calls call w :
  calls (trace (world_after_call ext call w)) = (calls (trace w) ++ [call])%list.
Proof.
  unfold world_after_call.
  destruct (ext _ _) as [[r files] written].
  cbn [log fs trace]. rewrite !calls_app, calls_Wrote, app_nil_r. reflexivity.
Qed.

Lemma handler_world_calls an_input c w :
  calls (trace (handler_world an_input c w)) = calls (trace w).
Proof. rewrite handler_world_trace, calls_app. apply app_nil_r. Qed.

(** C8, as the code has it.  [ema] and [sma] declare [-l/--length],
    converted to a list of integers and [[20, 50]] by default, and
    [-o/--offset], converted by [check_positive] and [0] by default:
    without tokens either parser yields length [[20, 50]] and offset [0],
    [--length 10,30 --offset 5] yields [[10, 30]] and [5], and a negative
    offset is refused.  [help], [q] and [quit] declare no option: unless
    the deletion of a pending figure fails, they return their signal
    whatever tokens follow the command.  The handlers of the remaining
    commands declare no option either: unless that deletion fails, each
    calls its own view or indicator function, once, with the tokens
    exactly as the [ta] parser left them, the ticker and, for the
    indicators, the interval and the stock data. *)
Theorem moving_average_options an_input cmd rest c w :
  built c -> split an_input = cmd :: rest ->
  (parse_known_args ema_parser []
   = Parsed [("length", VList [VInt 20; VInt 50]); ("offset", VInt 0)] []
   /\ parse_known_args sma_parser []
      = Parsed [("length", VList [VInt 20; VInt 50]); ("offset", VInt 0)] []
   /\ parse_known_args ema_parser ["--length"; "10,30"; "--offset"; "5"]
      = Parsed [("length", VList [VInt 10; VInt 30]); ("offset", VInt 5)] []
   /\ parse_known_args sma_parser ["-l"; "10,30"; "-o"; "5"]
      = Parsed [("length", VList [VInt 10; VInt 30]); ("offset", VInt 5)] []
   /\ parse_known_args sma_parser ["--offset"; "-1"]
      = Exits "sma" (ArgumentError "-o/--offset" (TypeMessage "-1 is negative")))
  /\ (cleanup_error c w = None ->
      (cmd = "help" -> fst (fst (switch ext gtff an_input c w)) = Ret VNone)
      /\ (cmd = "q" -> fst (fst (switch ext gtff an_input c w)) = Ret (VBool false))
      /\ (cmd = "quit" -> fst (fst (switch ext gtff an_input c w)) = Ret (VBool true))
      /\ (In cmd delegating ->
          exists call,
            parse_known_args make_ta_parser (split an_input)
            = Parsed [("cmd", VStr cmd)] (after_command rest)
            /\ delegated_call cmd (after_command rest) c = Some call
            /\ calls (trace (snd (switch ext gtff an_input c w)))
               = (calls (trace w) ++ [call])%list)).
Proof.
  intros Hb Hs. split; [repeat split; reflexivity|].
  intros He.
  split; [|split; [|split]]; try intros ->.
  - rewrite (switch_help an_input rest c w Hb Hs He). reflexivity.
  - rewrite (switch_q an_input rest c w Hb Hs He). reflexivity.
  - rewrite (switch_quit an_input rest c w Hb Hs He). reflexivity.
  - intros Hd.
    destruct (switch_delegates an_input [] cmd rest c w Hb Hs
                ltac:(constructor) Hd He) as (call & Hcall & Hrun).
    exists call. split; [|split; [exact Hcall|]].
    + rewrite Hs. apply ta_parse_command, delegating_registered, Hd.
    + rewrite Hrun. cbn [snd].
      rewrite world_after_call_calls, handler_world_calls. reflexivity.
Qed.

(** C5.  In the parsers of [ema] and [sma] the value ["20,50"] of
    [--length] is converted to the list [[20, 50]], and the value
    ["20,abc"] makes the parser fail with an [ArgumentError] for
    [-l/--length] (the conversion of ["abc"] raises [ValueError]) instead
    of yielding a namespace. *)
Theorem length_list_coercion :
  length_type "20,50" = Ret (VList [VInt 20; VInt 50])
  /\ length_type "20,abc" = Raise (ValueError "abc")
  /\ parse_known_args ema_parser ["--length"; "20,50"]
     = Parsed [("length", VList [VInt 20; VInt 50]); ("offset", VInt 0)] []
  /\ parse_known_args sma_parser ["--length"; "20,50"]
     = Parsed [("length", VList [VInt 20; VInt 50]); ("offset", VInt 0)] []
  /\ parse_known_args ema_parser ["--length"; "20,abc"]
     = Exits "ema" (ArgumentError "-l/--length" (InvalidValue "<lambda>" "20,abc"))
  /\ parse_known_args sma_parser ["--length"; "20,abc"]
     = Exits "sma" (ArgumentError "-l/--length" (InvalidValue "<lambda>" "20,abc")).
Proof. repeat split; reflexivity. Qed.

(** ** A line the parser rejects *)

(** One turn of the loop of [menu]: [plt.close("all")], then [switch]
    unless it raised. *)
Lemma close_then_switch an_input c w :
  (call_ext ext (plt_close "all") ;; switch ext gtff an_input) c w
  = match fst (fst (ext (plt_close "all") (log [Called (plt_close "all")] w))) with
    | Ret _ => switch ext gtff an_input c (world_after_call ext (plt_close "all") w)
    | Raise e => (Raise e, c, world_after_call ext (plt_close "all") w)
    end.
Proof.
  unfold world_after_call. cbv beta iota zeta delta [mbind call_ext].
  destruct (ext _ _) as [[[[]|e] files] written]; reflexivity.
Qed.

(** The loop catches [SystemExit], reports it and reads the next
    line. *)
Lemma menu_loop_caught an_input more c w status c' w' :
  (call_ext ext (plt_close "all") ;; switch ext gtff an_input)
    c (log [Prompted (use_toolkit gtff) an_input] w)
  = (Raise (SystemExit status), c', w') ->
  menu_loop ext gtff (an_input :: more) c w
  = menu_loop ext gtff more c' (log [not_a_command] w').
Proof.
  intros H. cbn [menu_loop].
  change ((emit (Prompted (use_toolkit gtff) an_input) ;;
           fun c0 w0 =>
             match (call_ext ext (plt_close "all") ;; switch ext gtff an_input) c0 w0 with
             | (Ret VNone, c1, w1) => menu_loop ext gtff more c1 w1
             | (Ret process_input, c1, w1) => (Ret process_input, c1, w1)
             | (Raise (SystemExit _), c1, w1) =>
                 (print ("The command selected doesn't exist" +:+ newline) ;;
                  menu_loop ext gtff more) c1 w1
             | (Raise e, c1, w1) => (Raise e, c1, w1)
             end) c w)
    with (match (call_ext ext (plt_close "all") ;; switch ext gtff an_input)
                  c (log [Prompted (use_toolkit gtff) an_input] w) with
          | (Ret VNone, c1, w1) => menu_loop ext gtff more c1 w1
          | (Ret process_input, c1, w1) => (Ret process_input, c1, w1)
          | (Raise (SystemExit _), c1, w1) =>
              (print ("The command selected doesn't exist" +:+ newline) ;;
               menu_loop ext gtff more) c1 w1
          | (Raise e, c1, w1) => (Raise e, c1, w1)
          end).
  rewrite H. reflexivity.
Qed.

(** The loop of [menu] on a line the parser rejects. *)
Lemma menu_loop_rejected an_input more c w prog f :
  built c ->
  parse_known_args make_ta_parser (split an_input) = Exits prog f ->
  fst (fst (ext (plt_close "all")
              (log [Called (plt_close "all")]
                   (log [Prompted (use_toolkit gtff) an_input] w))))
  = Ret tt ->
  menu_loop ext gtff (an_input :: more) c w
  = menu_loop ext gtff more c
      (log [Switch an_input; ParserError prog f; not_a_command]
           (world_after_call ext (plt_close "all")
              (log [Prompted (use_toolkit gtff) an_input] w))).
Proof.
  intros Hb E Hclose.
  rewrite (menu_loop_caught an_input more c w 2 c
             (log [Switch an_input; ParserError prog f]
                  (world_after_call ext (plt_close "all")
                     (log [Prompted (use_toolkit gtff) an_input] w)))).
  - rewrite log_log. reflexivity.
  - rewrite close_then_switch, Hclose. apply switch_rejected; assumption.
Qed.

(** X2.  A line made of option-like tokens only, such as [-h] or [--help]
    (the [ta] parser is built with [add_help=False]), names no command:
    [switch] does not return.  The parser reports that [cmd] is required
    and [switch] raises [SystemExit(2)]; the controller and the files stay
    as they were. *)
Theorem options_without_command an_input c w :
  built c ->
  Forall (fun s => option_like s = true) (split an_input) ->
  switch ext gtff an_input c w
  = (Raise (SystemExit 2), c,
     log [Switch an_input; ParserError "ta" (RequiredMissing ["cmd"])] w).
Proof.
  intros Hb Ho. apply switch_rejected; [exact Hb|].
  apply ta_parse_only_options, Ho.
Qed.

(** X3.  Unknown options in front do not hide an unknown command.  For a
    line whose tokens are option-like tokens followed by a token that is
    not a registered command and does not start with [-], the parser
    reports the invalid choice and [switch] raises [SystemExit(2)] with the
    controller and the files as they were; so does the loop of [menu] go on
    to the next line, once [plt.close("all")] returned. *)
Theorem unregistered_after_options an_input opts t rest more c w :
  built c -> split an_input = (opts ++ t :: rest)%list ->
  Forall (fun s => option_like s = true) opts ->
  starts_with_dash t = false -> ~ In t CHOICES ->
  switch ext gtff an_input c w
  = (Raise (SystemExit 2), c,
     log [Switch an_input; ParserError "ta" (invalid_choice t)] w)
  /\ (fst (fst (ext (plt_close "all")
                   (log [Called (plt_close "all")]
                        (log [Prompted (use_toolkit gtff) an_input] w))))
      = Ret tt ->
      menu_loop ext gtff (an_input :: more) c w
      = menu_loop ext gtff more c
          (log [Switch an_input; ParserError "ta" (invalid_choice t); not_a_command]
               (world_after_call ext (plt_close "all")
                  (log [Prompted (use_toolkit gtff) an_input] w)))).
Proof.
  intros Hb Hs Ho Hd Ht.
  pose proof (ta_parse_unregistered_after_options opts t rest Ho Hd Ht) as E.
  rewrite <- Hs in E. split.
  - apply switch_rejected; assumption.
  - intros Hclose. apply menu_loop_rejected; assumption.
Qed.

(** X4.  A blank line at the prompt (nothing, or whitespace only): provided
    [plt.close("all")] returned, the parser reports the missing command,
    [menu] prints "The command selected doesn't exist" and goes on to the
    next line with the controller unchanged. *)
Theorem blank_line_continues an_input more c w :
  built c -> Text.blank an_input = true ->
  fst (fst (ext (plt_close "all")
              (log [Called (plt_close "all")]
                   (log [Prompted (use_toolkit gtff) an_input] w))))
  = Ret tt ->
  menu_loop ext gtff (an_input :: more) c w
  = menu_loop ext gtff more c
      (log [Switch an_input; ParserError "ta" (RequiredMissing ["cmd"]);
            not_a_command]
           (world_after_call ext (plt_close "all")
              (log [Prompted (use_toolkit gtff) an_input] w))).
Proof.
  intros Hb Hblank Hclose. apply menu_loop_rejected; [exact Hb| |exact Hclose].
  rewrite (split_blank _ Hblank). apply ta_parse_only_options. constructor.
Qed.

(** ** What reaches the view and indicator functions *)

(** X1.  Unknown options may precede the command.  For a line whose tokens
    are option-like tokens, a registered command and whatever follows, the
    parser stores the command and leaves the options, then what follows the
    command less a separator [--] right behind it.  A delegating handler
    calls the view or indicator function of its command once, with
    exactly these tokens, the ticker and, for the indicators, the interval
    and the stock data; when the deletion of a pending figure fails,
    nothing is called. *)
Theorem switch_forwards_tokens an_input opts cmd rest c w :
  built c -> split an_input = (opts ++ cmd :: rest)%list ->
  Forall (fun s => option_like s = true) opts -> In cmd CHOICES ->
  parse_known_args make_ta_parser (split an_input)
  = Parsed [("cmd", VStr cmd)] (opts ++ after_command rest)
  /\ (In cmd delegating -> cleanup_error c w = None ->
      exists call,
        delegated_call cmd (opts ++ after_command rest) c = Some call
        /\ calls (trace (snd (switch ext gtff an_input c w)))
           = (calls (trace w) ++ [call])%list)
  /\ (forall e, cleanup_error c w = Some e ->
        calls (trace (snd (switch ext gtff an_input c w))) = calls (trace w)).
Proof.
  intros Hb Hs Ho Hc.
  pose proof (ta_parse_forwarding opts cmd rest Ho Hc) as Ep.
  rewrite <- Hs in Ep. split; [exact Ep|]. split.
  - intros Hd He.
    destruct (switch_delegates an_input opts cmd rest c w Hb Hs Ho Hd He)
      as (call & Hcall & Hrun).
    exists call. split; [exact Hcall|].
    rewrite Hrun. cbn [snd].
    rewrite world_after_call_calls, handler_world_calls. reflexivity.
  - intros e He. rewrite (switch_parsed _ _ _ _ _ Hb Ep), He.
    cbn [snd log trace]. rewrite calls_app. apply app_nil_r.
Qed.

(** ** The pending flag *)

(** A handler leaves the flag as it found it; [call_view] sets it, after
    its view function returned. *)
Lemma methods_flag :
  Forall (fun nh : string * (list string -> M value) =>
            forall other_args c w,
              delete_img (snd (fst (snd nh other_args c w))) = delete_img c
              \/ (fst nh = "call_view"
                  /\ fst (fst (snd nh other_args c w)) = Ret VNone
                  /\ delete_img (snd (fst (snd nh other_args c w))) = true))
         (methods ext gtff).
Proof.
  unfold methods.
  repeat (constructor;
          [intros other_args c w; cbn [snd fst]; run_M;
           first [ left; reflexivity | right; repeat split; reflexivity
                 | cbn in *; congruence ]|]).
  constructor.
Qed.

Lemma call_prefix_inj a b : "call_" +:+ a = "call_" +:+ b -> a = b.
Proof. intros H. injection H as H. exact H. Qed.

Lemma invoke_handler_flag known_args other_args c w :
  delete_img (snd (fst (invoke_handler ext gtff known_args other_args c w)))
  = delete_img c
  \/ (getattr known_args "cmd" = Some (VStr "view")
      /\ fst (fst (invoke_handler ext gtff known_args other_args c w)) = Ret VNone
      /\ delete_img (snd (fst (invoke_handler ext gtff known_args other_args c w)))
         = true).
Proof.
  unfold invoke_handler, attr, mbind.
  destruct (getattr known_args "cmd") as [[| | |name|]|]; try (left; reflexivity).
  cbv beta iota delta [ret].
  destruct (getattr_or_fallback ext gtff ("call_" +:+ name)) as [h|] eqn:E;
    [|left; reflexivity].
  pose proof (method_named _ _ _ methods_flag E other_args c w) as H.
  cbn [fst snd] in H. unfold call1.
  destruct H as [H | (Hn & Hr & Hf)]; [left; exact H|].
  right. apply (call_prefix_inj name "view") in Hn. subst name. auto.
Qed.

(** X5.  Only [view] sets the flag, and only when its view function returned.
    If the flag is clear before a call of [switch] and set after it, the
    parser stored the command [view] and [switch] returned [None]. *)
Theorem flag_set_only_by_view an_input c w :
  built c -> delete_img c = false ->
  delete_img (snd (fst (switch ext gtff an_input c w))) = true ->
  (exists other_args,
      parse_known_args make_ta_parser (split an_input)
      = Parsed [("cmd", VStr "view")] other_args)
  /\ fst (fst (switch ext gtff an_input c w)) = Ret VNone.
Proof.
  intros Hb Hf.
  destruct (parse_known_args make_ta_parser (split an_input))
    as [known_args other_args|prog f|e] eqn:E.
  - rewrite (switch_not_pending _ _ _ _ _ Hb Hf E).
    destruct (invoke_handler_flag known_args other_args c
                (log [Switch an_input] w)) as [H | (Hn & Hr & _)].
    + rewrite H, Hf. discriminate.
    + intros _. split; [|exact Hr].
      destruct (ta_parse_sound _ _ _ E) as (cmd & _ & ->).
      cbn in Hn. injection Hn as ->. eauto.
  - rewrite (switch_rejected _ _ _ _ _ Hb E). cbn [fst snd].
    rewrite Hf. discriminate.
  - rewrite switch_unfold, E by exact Hb. cbn [fst snd].
    rewrite Hf. discriminate.
Qed.

(** X6.  The flag is cleared only by deleting the figure.  If the flag is set
    before a call of [switch] and clear after it, the parser accepted the
    line and the figure file was there when [switch] was entered. *)
Theorem flag_cleared_only_by_deletion an_input c w :
  built c -> delete_img c = true ->
  delete_img (snd (fst (switch ext gtff an_input c w))) = false ->
  figure c ∈ fs w
  /\ exists known_args other_args,
      parse_known_args make_ta_parser (split an_input)
      = Parsed known_args other_args.
Proof.
  intros Hb Hf.
  destruct (parse_known_args make_ta_parser (split an_input))
    as [known_args other_args|prog f|e] eqn:E.
  - rewrite (switch_parsed _ _ _ _ _ Hb E).
    unfold cleanup_error, handler_controller, handler_world.
    rewrite Hf. cbn [andb].
    destruct (bool_decide (figure c ∈ fs w)) eqn:Ef.
    + intros _. apply bool_decide_eq_true in Ef. eauto.
    + destruct (invoke_handler_flag known_args other_args c
                  (log [Switch an_input] w)) as [H | (_ & _ & H)];
        rewrite H, ?Hf; discriminate.
  - rewrite (switch_rejected _ _ _ _ _ Hb E). cbn [fst snd].
    rewrite Hf. discriminate.
  - rewrite switch_unfold, E by exact Hb. cbn [fst snd].
    rewrite Hf. discriminate.
Qed.

(** ** The files *)

(** [switch] leaves the session context alone (the statement of
    [same_session] for one call, as a lemma to build on). *)
Lemma switch_same_session an_input c w :
  same_session c (snd (fst (switch ext gtff an_input c w))).
Proof.
  unfold switch, parse_known_args_M.
  cbv beta iota zeta delta [mbind emit self raise ret fst snd].
  destruct (parse_known_args (ta_parser c) (split an_input))
    as [known_args other_args|prog f|e]; try apply same_session_refl.
  pose proof (cleanup_frame c (log [Switch an_input] w)) as H1.
  destruct (cleanup c (log [Switch an_input] w)) as [[[[]|e] c1] w1];
    [|exact H1].
  pose proof (invoke_handler_frame known_args other_args c1 w1) as H2.
  destruct (invoke_handler ext gtff known_args other_args c1 w1) as [[r c2] w2].
  eapply same_session_trans; eassumption.
Qed.

Lemma files_step (f0 f1 f2 : gset string) fig :
  f1 = f0 \/ f1 = f0 ∖ {[fig]} ->
  f2 = f1 \/ f2 = f1 ∖ {[fig]} ->
  f2 = f0 \/ f2 = f0 ∖ {[fig]}.
Proof.
  intros [H1 | H1] [H2 | H2]; subst f2 f1; auto. right.
  apply set_eq. intros x. rewrite !elem_of_difference. tauto.
Qed.

Section QuietFiles.

Hypothesis leaves_files : forall call w0, snd (fst (ext call w0)) = fs w0.

Ltac call_leaves_files :=
  match goal with
  | |- context [ext ?call ?w0] =>
      let H := fresh "Hfs" in
      pose proof (leaves_files call w0) as H;
      destruct (ext call w0) as [[[[]|?] ?] ?];
      cbn [fst snd log fs trace] in H; subst
  end; cbv beta iota zeta.

Lemma methods_files :
  Forall (fun nh : string * (list string -> M value) =>
            forall other_args c w, fs (snd (snd nh other_args c w)) = fs w)
         (methods ext gtff).
Proof.
  unfold methods.
  repeat (constructor;
          [intros other_args c w; cbn [snd]; unfold_M;
           repeat first [ call_leaves_files | case_split ];
           cbn [fst snd log fs trace]; reflexivity|]).
  constructor.
Qed.

Lemma invoke_handler_files known_args other_args c w :
  fs (snd (invoke_handler ext gtff known_args other_args c w)) = fs w.
Proof.
  unfold invoke_handler, attr, mbind.
  destruct (getattr known_args "cmd") as [[| | |name|]|]; try reflexivity.
  cbv beta iota delta [ret].
  destruct (getattr_or_fallback ext gtff ("call_" +:+ name)) as [h|] eqn:E;
    [|reflexivity].
  exact (method_named _ _ _ methods_files E other_args c w).
Qed.

Lemma switch_files an_input c w :
  built c ->
  fs (snd (switch ext gtff an_input c w)) = fs w
  \/ (delete_img c = true /\ figure c ∈ fs w
      /\ fs (snd (switch ext gtff an_input c w)) = fs w ∖ {[figure c]}).
Proof.
  intros Hb.
  destruct (parse_known_args make_ta_parser (split an_input))
    as [known_args other_args|prog f|e] eqn:E.
  - rewrite (switch_parsed _ _ _ _ _ Hb E).
    unfold cleanup_error, handler_controller, handler_world.
    destruct (delete_img c); cbn [andb];
      [|left; rewrite invoke_handler_files; reflexivity].
    destruct (bool_decide _) eqn:Ef.
    + destruct (remove_error w (figure c)); [left; reflexivity|].
      right. apply bool_decide_eq_true in Ef.
      rewrite invoke_handler_files. auto.
    + left. rewrite invoke_handler_files. reflexivity.
  - left. rewrite (switch_rejected _ _ _ _ _ Hb E). reflexivity.
  - left. rewrite switch_unfold, E by exact Hb. reflexivity.
Qed.

Lemma menu_loop_files lines :
  forall c w,
    built c ->
    fs (snd (menu_loop ext gtff lines c w)) = fs w
    \/ fs (snd (menu_loop ext gtff lines c w)) = fs w ∖ {[figure c]}.
Proof.
  induction lines as [|an_input lines IH]; intros c w Hb; [left; reflexivity|].
  cbn [menu_loop]. cbv beta iota zeta delta [mbind emit call_ext print].
  match goal with
  | |- context [ext ?call ?w0] =>
      pose proof (leaves_files call w0) as Hfs;
      destruct (ext call w0) as [[[[]|e] files] written];
      cbn [fst snd log fs trace] in Hfs; subst files
  end.
  - match goal with
    | |- context [switch ext gtff an_input c ?w0] =>
        pose proof (switch_files an_input c w0 Hb) as Hsw;
        pose proof (switch_same_session an_input c w0) as Hss;
        destruct (switch ext gtff an_input c w0) as [[r c'] w']
    end.
    cbn [fst snd log fs trace] in Hsw, Hss.
    assert (Hsw' : fs w' = fs w \/ fs w' = fs w ∖ {[figure c]})
      by (destruct Hsw as [H | (_ & _ & H)]; auto).
    assert (Hb' : built c')
      by (unfold built in *; destruct Hss as (_ & _ & _ & _ & _ & ->); exact Hb).
    assert (Hfig : figure c' = figure c)
      by (unfold figure; destruct Hss as (_ & -> & _); reflexivity).
    assert (Hnext : forall w1, fs w1 = fs w' ->
               fs (snd (menu_loop ext gtff lines c' w1)) = fs w
               \/ fs (snd (menu_loop ext gtff lines c' w1)) = fs w ∖ {[figure c]}).
    { intros w1 E1. pose proof (IH c' w1 Hb') as H. rewrite Hfig, E1 in H.
      exact (files_step _ _ _ _ Hsw' H). }
    destruct r as [v|e].
    + destruct v; cbv beta iota; first [ apply Hnext; reflexivity | exact Hsw' ].
    + destruct e; cbv beta iota; first [ apply Hnext; reflexivity | exact Hsw' ].
  - destruct e; cbv beta iota;
      first [ match goal with
              | |- context [menu_loop ext gtff lines c ?w1] => exact (IH c w1 Hb)
              end
            | left; reflexivity ].
Qed.

End QuietFiles.

(** X7.  The controller itself touches one file only.  When the view and
    indicator functions and matplotlib leave the files alone, a call of
    [switch] leaves them as they were, or, with the flag set and the
    figure present, deletes the figure [<ticker>.jpg] and nothing else. *)
Theorem switch_deletes_only_figure an_input c w :
  built c ->
  (forall call w0, snd (fst (ext call w0)) = fs w0) ->
  fs (snd (switch ext gtff an_input c w)) = fs w
  \/ (delete_img c = true /\ figure c ∈ fs w
      /\ fs (snd (switch ext gtff an_input c w)) = fs w ∖ {[figure c]}).
Proof. intros Hb Hq. apply switch_files; assumption. Qed.

(** X8.  A whole session touches one file only.  When the view and indicator
    functions and matplotlib leave the files alone, the files after [menu]
    are the files before it, with at most the figure [<ticker>.jpg]
    deleted. *)
Theorem menu_deletes_only_figure stock ticker start interval gst lines w :
  (forall call w0, snd (fst (ext call w0)) = fs w0) ->
  fs (snd (menu ext gtff stock ticker start interval gst lines w)) = fs w
  \/ fs (snd (menu ext gtff stock ticker start interval gst lines w))
     = fs w ∖ {[ticker +:+ ".jpg"]}.
Proof.
  intros Hq. unfold menu. cbv beta iota zeta delta [mbind].
  rewrite call_help_spec.
  exact (menu_loop_files Hq lines (init stock ticker start interval gst)
           (log (help_text (init stock ticker start interval gst)) w) eq_refl).
Qed.

(** ** How [menu] ends *)

Lemma switch_signal an_input : returns_signal (switch ext gtff an_input).
Proof.
  intros c w v. unfold switch, parse_known_args_M.
  cbv beta iota zeta delta [mbind emit self raise ret].
  destruct (parse_known_args (ta_parser c) (split an_input))
    as [known_args other_args|prog f|e]; try discriminate.
  rewrite cleanup_spec.
  destruct (_ && _); [destruct (remove_error _ _); [discriminate|]|];
    apply invoke_handler_signal.
Qed.

Lemma menu_loop_outcome lines :
  forall c w,
    match fst (fst (menu_loop ext gtff lines c w)) with
    | Ret v => v = VBool false \/ v = VBool true
    | Raise e => forall status, e <> SystemExit status
    end.
Proof.
  induction lines as [|an_input lines IH]; intros c w.
  - cbn. discriminate.
  - cbn [menu_loop]. cbv beta iota zeta delta [mbind emit call_ext print].
    destruct (ext _ _) as [[[[]|e] files] written].
    + match goal with
      | |- context [switch ext gtff an_input c ?w0] =>
          pose proof (switch_signal an_input c w0) as Hs;
          destruct (switch ext gtff an_input c w0) as [[[v|e] c'] w']
      end.
      * cbn [fst] in Hs. specialize (Hs v eq_refl).
        destruct Hs as [-> | [-> | ->]]; [apply IH | cbn; auto | cbn; auto].
      * destruct e; first [ apply IH | cbn; discriminate ].
    + destruct e; first [ apply IH | cbn; discriminate ].
Qed.

(** X9.  [menu] returns [False] or [True], never [None] or anything else, and
    the exceptions it raises do not include [SystemExit]: whatever the
    lines, the collaborators and the files, a [SystemExit] is caught,
    reported as an unknown command, and the next line is read.  This holds
    for one turn of the loop in general, and so for a [SystemExit] from
    [plt.close] (then [switch] is not called), from the parser, and from a
    view or indicator function. *)
Theorem menu_outcome stock ticker start interval gst lines w :
  match fst (fst (menu ext gtff stock ticker start interval gst lines w)) with
  | Ret v => v = VBool false \/ v = VBool true
  | Raise e => forall status, e <> SystemExit status
  end
  /\ (forall an_input more c w0 status c' w',
        (call_ext ext (plt_close "all") ;; switch ext gtff an_input)
          c (log [Prompted (use_toolkit gtff) an_input] w0)
        = (Raise (SystemExit status), c', w') ->
        menu_loop ext gtff (an_input :: more) c w0
        = menu_loop ext gtff more c' (log [not_a_command] w'))
  /\ (forall an_input more c w0 status,
        fst (fst (ext (plt_close "all")
                    (log [Called (plt_close "all")]
                         (log [Prompted (use_toolkit gtff) an_input] w0))))
        = Raise (SystemExit status) ->
        menu_loop ext gtff (an_input :: more) c w0
        = menu_loop ext gtff more c
            (log [not_a_command]
                 (world_after_call ext (plt_close "all")
                    (log [Prompted (use_toolkit gtff) an_input] w0))))
  /\ (forall an_input more c w0 prog f,
        built c ->
        fst (fst (ext (plt_close "all")
                    (log [Called (plt_close "all")]
                         (log [Prompted (use_toolkit gtff) an_input] w0))))
        = Ret tt ->
        parse_known_args make_ta_parser (split an_input) = Exits prog f ->
        menu_loop ext gtff (an_input :: more) c w0
        = menu_loop ext gtff more c
            (log [Switch an_input; ParserError prog f; not_a_command]
                 (world_after_call ext (plt_close "all")
                    (log [Prompted (use_toolkit gtff) an_input] w0))))
  /\ (forall an_input opts cmd rest more c w0 call status,
        let w1 := world_after_call ext (plt_close "all")
                    (log [Prompted (use_toolkit gtff) an_input] w0) in
        built c -> split an_input = (opts ++ cmd :: rest)%list ->
        Forall (fun s => option_like s = true) opts -> In cmd delegating ->
        fst (fst (ext (plt_close "all")
                    (log [Called (plt_close "all")]
                         (log [Prompted (use_toolkit gtff) an_input] w0))))
        = Ret tt ->
        cleanup_error c w1 = None ->
        delegated_call cmd (opts ++ after_command rest) c = Some call ->
        fst (fst (ext call (log [Called call] (handler_world an_input c w1))))
        = Raise (SystemExit status) ->
        menu_loop ext gtff (an_input :: more) c w0
        = menu_loop ext gtff more (handler_controller c w1)
            (log [not_a_command]
                 (world_after_call ext call (handler_world an_input c w1)))).
Proof.
  split; [|split; [|split; [|split]]].
  - unfold menu. cbv beta iota zeta delta [mbind]. rewrite call_help_spec.
    apply menu_loop_outcome.
  - intros an_input more c w0 status c' w'. apply menu_loop_caught.
  - intros an_input more c w0 status Hclose.
    apply (menu_loop_caught an_input more c w0 status).
    rewrite close_then_switch, Hclose. reflexivity.
  - intros an_input more c w0 prog f Hb Hclose E.
    apply menu_loop_rejected; assumption.
  - intros an_input opts cmd rest more c w0 call status w1 Hb Hs Ho Hd Hclose He
           Hcall Hraise.
    apply (menu_loop_caught an_input more c w0 status).
    rewrite close_then_switch, Hclose. fold w1.
    destruct (switch_delegates an_input opts cmd rest c w1 Hb Hs Ho Hd He)
      as (call' & Hcall' & Hrun).
    assert (call' = call) by congruence. subst call'.
    rewrite Hrun, Hraise. reflexivity.
Qed.

(** ** The commands and their handlers *)

(** X10.  The class has a [call_] method for a name exactly when the name is
    in [CHOICES]: every command has its handler and no handler is out of
    the parser's reach. *)
Theorem handlers_are_commands name :
  (exists h, getattr_or_fallback ext gtff ("call_" +:+ name) = Method h)
  <-> In name CHOICES.
Proof.
  split; [|apply registered_method_In].
  intros [h E]. apply lookup_method_In in E. unfold methods in E.
  cbn [In] in E.
  change ("call_" +:+ name)
    with (String "c" (String "a" (String "l" (String "l" (String "_" name))))) in E.
  repeat (destruct E as [E | E];
          [injection E as E _; subst name; cbn; tauto|]).
  contradiction.
Qed.


Lemma line_later (Q : string -> Prop) ev l :
  (exists text, In (Print text) l /\ Q text) ->
  exists text, In (Print text) (ev :: l) /\ Q text.
Proof. intros (text & H & HQ). exists text. split; [right; exact H | exact HQ]. Qed.

Ltac find_line :=
  lazymatch goal with
  | |- exists text, In (Print text) (Print ?t :: _) /\ String.prefix ?p text = true =>
      first [ assert_succeeds
                (assert (String.prefix p t = true) by (vm_compute; reflexivity));
              exists t; split; [left; reflexivity | vm_compute; reflexivity]
            | apply line_later; find_line ]
  end.

(** X11.  The help text has a line for every command: for each name in
    [CHOICES], [print_help] prints a line that starts with three spaces,
    the name and a space. *)
Theorem help_lists_commands c :
  Forall (fun cmd =>
            exists text,
              In (Print text) (help_text c)
              /\ String.prefix ("   " +:+ cmd +:+ " ") text = true)
         CHOICES.
Proof.
  unfold help_text.
  destruct c as [st tk [date|] iv dl g p];
    match goal with
    | |- context [trace ?r] =>
        let l := eval vm_compute in (trace r) in change (trace r) with l
    end;
    unfold CHOICES; repeat constructor; find_line.
Qed.

End ControllerFacts.

(* ===================================================================== *)
(** * Integers and their text                                            *)
(* ===================================================================== *)

Section Numerals.
Import Text MarketCap.

Lemma isdigit_facts c :
  isdigit c = true ->
  int_space c = false /\ Ascii.eqb c "," = false /\ Ascii.eqb c "_" = false.
Proof.
  destruct c as [[] [] [] [] [] [] [] []]; intros H; vm_compute in H;
    try discriminate H; repeat split; reflexivity.
Qed.

Lemma digit_char_spec d :
  (0 <= d < 10)%Z ->
  isdigit (digit_char d) = true /\ digit_value (digit_char d) = d.
Proof.
  intros H.
  assert (E : (d = 0 \/ d = 1 \/ d = 2 \/ d = 3 \/ d = 4 \/ d = 5 \/ d = 6
               \/ d = 7 \/ d = 8 \/ d = 9)%Z) by lia.
  repeat (destruct E as [-> | E]; [split; reflexivity|]).
  subst d. split; reflexivity.
Qed.

Lemma mod_10_digit n : (0 <= n mod 10 < 10)%Z.
Proof. apply Z.mod_pos_bound. lia. Qed.

Lemma digits_fuel_isdigit f :
  forall n acc,
    all_chars isdigit acc = true -> all_chars isdigit (digits_fuel f n acc) = true.
Proof.
  induction f as [|f IH]; intros n acc Hacc; cbn [digits_fuel]; [exact Hacc|].
  assert (Hd : all_chars isdigit (String (digit_char (n mod 10)) acc) = true).
  { cbn [all_chars]. rewrite (proj1 (digit_char_spec _ (mod_10_digit n))), Hacc.
    reflexivity. }
  destruct (n <? 10)%Z; [exact Hd | apply IH, Hd].
Qed.

Lemma digits_fuel_not_empty f :
  forall n acc, acc <> "" \/ f <> 0%nat -> digits_fuel f n acc <> "".
Proof.
  induction f as [|f IH]; intros n acc H; cbn [digits_fuel].
  - destruct H as [H | H]; [exact H | contradiction].
  - destruct (n <? 10)%Z; [discriminate|]. apply IH. left. discriminate.
Qed.

Lemma int_digits_digit d acc a b :
  (0 <= d < 10)%Z ->
  int_digits a b (String (digit_char d) acc) = int_digits (10 * a + d) true acc.
Proof.
  intros H. destruct (digit_char_spec d H) as [H1 H2].
  cbn [int_digits]. rewrite H1, H2. reflexivity.
Qed.

(** Reading back the digits that [digits_fuel] wrote, when the fuel
    covers the number. *)
Lemma int_digits_digits_fuel f :
  forall n acc b,
    (0 <= n < 2 ^ Z.of_nat (S f))%Z ->
    int_digits 0 b (digits_fuel (S f) n acc) = int_digits n true acc.
Proof.
  induction f as [|f IH]; intros n acc b Hn.
  - change (2 ^ Z.of_nat 1)%Z with 2%Z in Hn. cbn [digits_fuel].
    replace (n <? 10)%Z with true by (symmetry; apply Z.ltb_lt; lia).
    rewrite int_digits_digit by apply mod_10_digit.
    rewrite Z.mod_small by lia. reflexivity.
  - remember (S f) as f1 eqn:Ef. cbn [digits_fuel].
    destruct (n <? 10)%Z eqn:E.
    + apply Z.ltb_lt in E. rewrite int_digits_digit by apply mod_10_digit.
      rewrite Z.mod_small by lia. reflexivity.
    + apply Z.ltb_ge in E. subst f1. rewrite IH.
      * rewrite int_digits_digit by apply mod_10_digit.
        rewrite <- Z.div_mod by lia. reflexivity.
      * split; [apply Z.div_pos; lia|].
        apply Z.div_lt_upper_bound; [lia|].
        replace (Z.of_nat (S (S f))) with (Z.succ (Z.of_nat (S f))) in Hn by lia.
        rewrite Z.pow_succ_r in Hn by lia. lia.
Qed.

Lemma digits_covered n : (0 <= n)%Z -> (n < 2 ^ Z.of_nat (S (Z.to_nat (Z.log2 n))))%Z.
Proof.
  intros H. pose proof (Z.log2_nonneg n) as Hl.
  replace (Z.of_nat (S (Z.to_nat (Z.log2 n)))) with (Z.succ (Z.log2 n)) by lia.
  destruct (Z.eq_dec n 0%Z) as [-> | Hn]; [reflexivity|].
  apply Z.log2_spec. lia.
Qed.

Lemma int_digits_digits n : (0 <= n)%Z -> int_digits 0 false (digits n) = Some n.
Proof.
  intros H. unfold digits.
  rewrite int_digits_digits_fuel by (split; [exact H | apply digits_covered, H]).
  reflexivity.
Qed.

Lemma digits_isdigit n : all_chars isdigit (digits n) = true.
Proof. apply digits_fuel_isdigit. reflexivity. Qed.

Lemma digits_not_empty n : digits n <> "".
Proof. apply digits_fuel_not_empty. right. discriminate. Qed.

Lemma all_chars_impl (p q : ascii -> bool) s :
  (forall c, p c = true -> q c = true) ->
  all_chars p s = true -> all_chars q s = true.
Proof.
  intros Hpq. induction s as [|c s IH]; [reflexivity|]. cbn [all_chars].
  intros H. apply andb_prop in H. destruct H as [Hc Hs].
  rewrite (Hpq _ Hc), (IH Hs). reflexivity.
Qed.

Lemma rstrip_id s :
  all_chars (fun c => negb (int_space c)) s = true -> rstrip s = s.
Proof.
  induction s as [|c s IH]; [reflexivity|]. cbn [all_chars rstrip].
  intros H. apply andb_prop in H. destruct H as [Hc Hs].
  apply negb_true_iff in Hc. rewrite (IH Hs), Hc.
  destruct s; reflexivity.
Qed.

Lemma digits_no_space n :
  all_chars (fun c => negb (int_space c)) (digits n) = true.
Proof.
  apply (all_chars_impl isdigit); [|apply digits_isdigit].
  intros c H. apply isdigit_facts in H. destruct H as [-> _]. reflexivity.
Qed.

Lemma int_unsigned c rest :
  isdigit c = true -> rstrip (String c rest) = String c rest ->
  int (String c rest)
  = match int_digits 0 false (String c rest) with
    | Some n =>
        if (max_str_digits <? digit_count (String c rest))%Z
        then Raise (ValueError (String c rest)) else Ret n
    | None => Raise (ValueError (String c rest))
    end.
Proof.
  intros Hc Hr. unfold int, strip. cbn [lstrip].
  rewrite (proj1 (isdigit_facts c Hc)), Hr.
  destruct c as [[] [] [] [] [] [] [] []]; vm_compute in Hc;
    try discriminate Hc; reflexivity.
Qed.

Lemma digit_count_digits s :
  all_chars isdigit s = true -> digit_count s = Z.of_nat (String.length s).
Proof.
  induction s as [|c s IH]; [reflexivity|]. cbn [all_chars].
  intros H. apply andb_prop in H. destruct H as [Hc Hs].
  cbn [digit_count String.length]. rewrite Hc, (IH Hs). lia.
Qed.

Lemma digit_count_str n :
  digit_count (str n) = Z.of_nat (String.length (digits (Z.abs n))).
Proof.
  unfold str. destruct (n <? 0)%Z eqn:E.
  - apply Z.ltb_lt in E. cbn [digit_count]. change (isdigit "-") with false.
    rewrite digit_count_digits by apply digits_isdigit.
    replace (Z.abs n) with (- n)%Z by lia. lia.
  - apply Z.ltb_ge in E. rewrite digit_count_digits by apply digits_isdigit.
    replace (Z.abs n) with n by lia. reflexivity.
Qed.

(** The number of digits of a number below a power of ten. *)
Lemma digits_fuel_length f :
  forall n acc k,
    (0 <= n < 10 ^ Z.of_nat (S k))%Z ->
    (String.length (digits_fuel f n acc) <= String.length acc + S k)%nat.
Proof.
  induction f as [|f IH]; intros n acc k Hn; cbn [digits_fuel]; [lia|].
  destruct (n <? 10)%Z eqn:E; [cbn [String.length]; lia|].
  apply Z.ltb_ge in E. destruct k as [|k].
  - change (10 ^ Z.of_nat 1)%Z with 10%Z in Hn. lia.
  - specialize (IH (n / 10)%Z (String (digit_char (n mod 10)) acc) k).
    cbn [String.length] in IH. etransitivity; [apply IH|lia].
    split; [apply Z.div_pos; lia|].
    apply Z.div_lt_upper_bound; [lia|].
    replace (Z.of_nat (S (S k))) with (Z.succ (Z.of_nat (S k))) in Hn by lia.
    rewrite Z.pow_succ_r in Hn by lia. lia.
Qed.

Lemma digits_length n k :
  (0 <= n < 10 ^ Z.of_nat (S k))%Z -> (String.length (digits n) <= S k)%nat.
Proof. intros H. apply (digits_fuel_length _ n "" k H). Qed.

(** [int] reads back what [str] wrote, within the limit on the digits. *)
Lemma int_str n :
  (Z.of_nat (String.length (digits (Z.abs n))) <= max_str_digits)%Z ->
  int (str n) = Ret n.
Proof.
  intros Hlen.
  assert (Hlim : (max_str_digits <? digit_count (str n))%Z = false)
    by (rewrite digit_count_str; apply Z.ltb_ge, Hlen).
  revert Hlim. unfold str. destruct (n <? 0)%Z eqn:E; intros Hlim.
  - apply Z.ltb_lt in E. unfold int, strip.
    change (lstrip (String "-" (digits (- n)))) with (String "-" (digits (- n))).
    rewrite rstrip_id
      by (cbn [all_chars]; rewrite digits_no_space; reflexivity).
    rewrite int_digits_digits by lia. cbn [option_map].
    rewrite Hlim, Z.opp_involutive. reflexivity.
  - apply Z.ltb_ge in E.
    pose proof (digits_isdigit n) as Hd. pose proof (digits_no_space n) as Hs.
    pose proof (int_digits_digits n E) as Hi.
    destruct (digits n) as [|c rest] eqn:Ed; [exfalso; eapply digits_not_empty, Ed|].
    cbn [all_chars] in Hd. apply andb_prop in Hd. destruct Hd as [Hc _].
    rewrite int_unsigned by (try exact Hc; apply rstrip_id, Hs).
    rewrite Hi, Hlim. reflexivity.
Qed.

(** A number below [10 ^ 4300] in absolute value is within the limit. *)
Lemma within_limit n :
  (Z.abs n < 10 ^ max_str_digits)%Z ->
  (Z.of_nat (String.length (digits (Z.abs n))) <= max_str_digits)%Z.
Proof.
  intros H. unfold max_str_digits in *.
  pose proof (digits_length (Z.abs n) 4299) as Hl.
  replace (Z.of_nat 4300) with 4300%Z in Hl by reflexivity.
  specialize (Hl (conj (Z.abs_nonneg n) H)).
  apply inj_le in Hl. replace (Z.of_nat 4300) with 4300%Z in Hl by reflexivity.
  exact Hl.
Qed.

Lemma str_commaless n : commaless (str n) = true.
Proof.
  assert (H : forall m, commaless (digits m) = true).
  { intros m. apply (all_chars_impl isdigit); [|apply digits_isdigit].
    intros c Hc. apply isdigit_facts in Hc. destruct Hc as (_ & -> & _).
    reflexivity. }
  unfold str. destruct (n <? 0)%Z; [|apply H].
  unfold commaless. cbn [all_chars]. apply H.
Qed.

(** ** Comma-separated fields *)

Lemma split_on_from_field sep t :
  forall cur rest,
    all_chars (fun c => negb (Ascii.eqb c sep)) t = true ->
    split_on_from sep cur (t +:+ rest) = split_on_from sep (cur +:+ t) rest.
Proof.
  induction t as [|c t IH]; intros cur rest H.
  - rewrite append_empty_r. reflexivity.
  - cbn [all_chars] in H. apply andb_prop in H. destruct H as [Hc Ht].
    apply negb_true_iff in Hc.
    rewrite append_String. cbn [split_on_from].
    rewrite Hc, (IH _ _ Ht), <- append_cons_assoc. reflexivity.
Qed.

Lemma split_on_join items :
  items <> [] -> Forall (fun t => commaless t = true) items ->
  split_on "," (join "," items) = items.
Proof.
  unfold split_on, join. intros Hne H.
  induction H as [|t ts Ht Hts IH]; [contradiction|]. clear Hne.
  destruct ts as [|t' ts].
  - cbn [String.concat].
    replace (split_on_from "," "" t) with (split_on_from "," "" (t +:+ ""))
      by (rewrite append_empty_r; reflexivity).
    rewrite (split_on_from_field "," t "" "" Ht). reflexivity.
  - change (String.concat "," (t :: t' :: ts))
      with (t +:+ "," +:+ String.concat "," (t' :: ts)).
    rewrite (split_on_from_field "," t "" _ Ht). rewrite append_empty_l.
    rewrite append_String, append_empty_l. cbn [split_on_from].
    change (Ascii.eqb "," ",") with true. cbv iota.
    rewrite IH by discriminate. reflexivity.
Qed.

Lemma int_each_str l :
  Forall (fun n => (Z.abs n < 10 ^ max_str_digits)%Z) l ->
  TA.int_each (map str l) = Ret (map VInt l).
Proof.
  induction 1 as [|n l Hn Hl IH]; [reflexivity|].
  cbn [map TA.int_each]. rewrite (int_str n (within_limit n Hn)), IH. reflexivity.
Qed.

(** X14.  The [--length] conversion reads back any non-empty list of
    integers written with commas between them, each integer being within
    the limit on the digits: below [10 ^ 4300] in absolute value. *)
Theorem length_type_round_trip l :
  l <> [] ->
  Forall (fun n => (Z.abs n < 10 ^ max_str_digits)%Z) l ->
  TA.length_type (join "," (map str l)) = Ret (VList (map VInt l)).
Proof.
  intros Hne Hl. unfold TA.length_type.
  rewrite split_on_join.
  - rewrite (int_each_str l Hl). reflexivity.
  - destruct l; [contradiction | discriminate].
  - apply List.Forall_forall. intros t Ht. apply in_map_iff in Ht.
    destruct Ht as (n & <- & _). apply str_commaless.
Qed.

Lemma split_on_from_not_nil sep s : forall cur, split_on_from sep cur s <> [].
Proof.
  induction s as [|c s IH]; intros cur; cbn [split_on_from]; [discriminate|].
  destruct (Ascii.eqb c sep); [discriminate | apply IH].
Qed.

Lemma int_each_outcome items :
  match TA.int_each items with
  | Ret vs =>
      exists l, vs = map VInt l
                /\ Forall2 (fun item n => int item = Ret n) items l
  | Raise e =>
      exists before item after,
        items = (before ++ item :: after)%list
        /\ Forall (fun it => exists n, int it = Ret n) before
        /\ int item = Raise e /\ e = ValueError item
  end.
Proof.
  induction items as [|item items IH]; [exists []; split; [reflexivity | constructor]|].
  cbn [TA.int_each]. destruct (int item) as [n|e] eqn:E.
  - destruct (TA.int_each items) as [vs|e].
    + destruct IH as (l & -> & Hl). exists (n :: l).
      split; [reflexivity | constructor; assumption].
    + destruct IH as (before & it & after & -> & Hb & Hi & He).
      exists (item :: before), it, after.
      split; [reflexivity|]. split; [|split; assumption].
      apply List.Forall_cons; [exists n; exact E | exact Hb].
  - exists [], item, items. pose proof (int_raises _ _ E) as He.
    split; [reflexivity|]. split; [apply List.Forall_nil | split; assumption].
Qed.

Lemma int_each_refused items item e :
  In item items -> int item = Raise e -> exists e', TA.int_each items = Raise e'.
Proof.
  induction items as [|it items IH]; [intros []|].
  intros [-> | Hin] He; cbn [TA.int_each].
  - rewrite He. eauto.
  - destruct (int it); [|eauto].
    destruct (IH Hin He) as [e' ->]. eauto.
Qed.

(** X15.  What the [--length] conversion can give.  It returns a list of
    integers, one for each comma-separated field and each the value [int]
    gives for its field, so never an empty list; or it raises the
    [ValueError] of the first field that [int] refuses.  It raises as soon
    as one field is refused; an empty field is refused, so the empty
    string, a comma at either end and two commas in a row all make it
    raise. *)
Theorem length_type_outcome s :
  match TA.length_type s with
  | Ret v =>
      exists l, v = VList (map VInt l) /\ l <> []
                /\ Forall2 (fun item n => int item = Ret n) (split_on "," s) l
  | Raise e =>
      exists before item after,
        split_on "," s = (before ++ item :: after)%list
        /\ Forall (fun it => exists n, int it = Ret n) before
        /\ int item = Raise e /\ e = ValueError item
  end
  /\ (forall item e,
        In item (split_on "," s) -> int item = Raise e ->
        exists e', TA.length_type s = Raise e')
  /\ int "" = Raise (ValueError "")
  /\ (In "" (split_on "," s) -> exists e', TA.length_type s = Raise e')
  /\ TA.length_type "" = Raise (ValueError "").
Proof.
  assert (Hrefused : forall item e,
             In item (split_on "," s) -> int item = Raise e ->
             exists e', TA.length_type s = Raise e').
  { intros item e Hin He. unfold TA.length_type.
    destruct (int_each_refused _ _ _ Hin He) as [e' ->]. eauto. }
  split; [|split; [exact Hrefused|split; [reflexivity|split; [|reflexivity]]]].
  - unfold TA.length_type.
    pose proof (int_each_outcome (split_on "," s)) as H.
    destruct (TA.int_each (split_on "," s)) as [vs|e]; [|exact H].
    destruct H as (l & -> & Hl). exists l.
    split; [reflexivity|]. split; [|exact Hl].
    intros ->. inversion Hl as [Hs|]. symmetry in Hs.
    exact (split_on_from_not_nil _ _ _ Hs).
  - intros Hin. apply (Hrefused "" (ValueError "") Hin). reflexivity.
Qed.

(** ** The [--length] option in its parser *)

Lemma length_option_parsed prog s :
  Argparse.starts_with_dash s = false ->
  Argparse.parse_known_args
    {| Argparse.prog := prog;
       Argparse.actions := [TA.length_action; TA.offset_action] |}
    ["--length"; s]
  = match TA.length_type s with
    | Ret v => Argparse.Parsed [("length", v); ("offset", VInt 0)] []
    | Raise _ =>
        Argparse.Exits prog
          (Argparse.ArgumentError "-l/--length" (Argparse.InvalidValue "<lambda>" s))
    end.
Proof.
  intros Hd.
  set (p := {| Argparse.prog := prog;
               Argparse.actions := [TA.length_action; TA.offset_action] |}).
  assert (E1 : String.eqb s "--" = false).
  { destruct (String.eqb s "--") eqn:E; [|reflexivity].
    apply String.eqb_eq in E. subst s. discriminate. }
  assert (E2 : String.eqb "--" s = false) by (rewrite String.eqb_sym; exact E1).
  pose proof (parse_optional_no_dash p s Hd) as E3.
  unfold Argparse.parse_known_args, Argparse.parse_known_args_inner.
  assert (Ec : Argparse.classify p false ["--length"; s]
               = inr [("--length", Argparse.O (Some TA.length_action, "--length", None));
                      (s, Argparse.A)]).
  { cbn [Argparse.classify].
    change (String.eqb "--length" "--") with false. cbv iota.
    change (Argparse.parse_optional p "--length")
      with (@inr Argparse.failure _
              (Some (Some TA.length_action, "--length", @None string))).
    rewrite E1, E3. reflexivity. }
  rewrite Ec. cbn [Argparse.bind length].
  change (Argparse.positional_actions p) with (@nil Argparse.action).
  change (Argparse.initial_namespace p)
    with [("length", VList [VInt 20; VInt 50]); ("offset", VInt 0)].
  cbn [Argparse.parse_loop existsb Argparse.is_option snd orb].
  unfold Argparse.consume_optional, Argparse.take_action, Argparse.get_values.
  cbn [Argparse.remove_first]. rewrite E2.
  unfold Argparse.get_value. cbn [Argparse.type_func TA.length_action].
  destruct (TA.length_type s) as [v|e] eqn:El; [reflexivity|].
  unfold TA.length_type in El.
  destruct (TA.int_each (split_on "," s)) as [l|e'] eqn:Ei; [discriminate|].
  injection El as ->. apply int_each_raises in Ei. destruct Ei as [m ->].
  reflexivity.
Qed.

(** X16.  The [--length] option of [ema] and [sma], for any value that does
    not start with [-].  If the conversion returns a list, the parser
    yields it as [length], with the default offset and nothing left over;
    if the conversion raises, the parser calls [error] for [-l/--length]
    with the value as given, and no exception of the conversion gets
    through. *)
Theorem length_option_outcome s :
  Argparse.starts_with_dash s = false ->
  Forall (fun p : Argparse.parser =>
            Argparse.parse_known_args p ["--length"; s]
            = match TA.length_type s with
              | Ret v => Argparse.Parsed [("length", v); ("offset", VInt 0)] []
              | Raise _ =>
                  Argparse.Exits (Argparse.prog p)
                    (Argparse.ArgumentError "-l/--length"
                       (Argparse.InvalidValue "<lambda>" s))
              end)
         [TA.ema_parser; TA.sma_parser].
Proof.
  intros Hd. repeat (apply List.Forall_cons; [apply length_option_parsed, Hd|]).
  apply List.Forall_nil.
Qed.

(** ** Thousands separators *)

Lemma remove_commas_commas s : commaless s = true -> remove_commas (commas s) = s.
Proof.
  induction s as [|c s IH]; [reflexivity|]. unfold commaless. cbn [all_chars].
  intros H. apply andb_prop in H. destruct H as [Hc Hs].
  apply negb_true_iff in Hc. cbn [commas remove_commas]. rewrite Hc.
  destruct (_ && _); cbn [remove_commas];
    change (Ascii.eqb "," ",") with true; cbv iota; rewrite (IH Hs); reflexivity.
Qed.

Lemma remove_commas_format n : remove_commas (format_commas n) = str n.
Proof.
  assert (H : forall m, remove_commas (commas (digits m)) = digits m).
  { intros m. apply remove_commas_commas.
    apply (all_chars_impl isdigit); [|apply digits_isdigit].
    intros c Hc. apply isdigit_facts in Hc. destruct Hc as (_ & -> & _).
    reflexivity. }
  unfold format_commas, str. destruct (n <? 0)%Z; [|apply H].
  cbn [remove_commas]. change (Ascii.eqb "-" ",") with false. cbv iota.
  rewrite H. reflexivity.
Qed.

(** X17.  The market caps lose nothing but their fraction.  When the lambda of
    [display_coin_potential_returns] returns a text for a cell, the cell
    converts to an integer, and the text with its commas taken out reads
    back as that integer. *)
Theorem market_cap_round_trip x s :
  format_market_cap x = Ret s ->
  exists n, int_of_scalar x = Ret n /\ int (remove_commas s) = Ret n.
Proof.
  unfold format_market_cap, format_int.
  destruct (int_of_scalar x) as [n|e]; [|discriminate].
  destruct (_ <? _)%Z eqn:E; [discriminate|]. apply Z.ltb_ge in E.
  intros [= <-]. exists n. split; [reflexivity|].
  rewrite remove_commas_format. apply int_str, E.
Qed.

Lemma length_append_char cur c :
  String.length (cur +:+ String c "") = S (String.length cur).
Proof.
  induction cur as [|d cur IH]; [reflexivity|].
  rewrite append_String. cbn [String.length]. rewrite IH. reflexivity.
Qed.

Lemma mod_3_before L :
  (0 < L)%nat ->
  (L mod 3 = 0 -> (L - 1) mod 3 = 2)%nat
  /\ (L mod 3 <> 0 -> S ((L - 1) mod 3) = L mod 3)%nat.
Proof.
  intros HL.
  pose proof (Nat.div_mod_eq L 3) as E1.
  pose proof (Nat.mod_upper_bound L 3) as B1.
  pose proof (Nat.div_mod_eq (L - 1) 3) as E2.
  pose proof (Nat.mod_upper_bound (L - 1) 3) as B2.
  lia.
Qed.

(** The fields of a grouped digit string: the first takes what is left
    over, the others three characters each. *)
Lemma commas_fields s :
  forall cur,
    commaless s = true -> s <> "" ->
    String.length (hd "" (split_on_from "," cur (commas s)))
    = (String.length cur + S ((String.length s - 1) mod 3))%nat
    /\ Forall (fun f => String.length f = 3%nat)
              (tl (split_on_from "," cur (commas s))).
Proof.
  induction s as [|c s IH]; intros cur Hs Hne; [contradiction|]. clear Hne.
  unfold commaless in Hs. cbn [all_chars] in Hs.
  apply andb_prop in Hs. destruct Hs as [Hc Hs]. apply negb_true_iff in Hc.
  cbn [commas split_on_from]. rewrite Hc.
  cbn [String.length]. rewrite Nat.sub_1_r. cbn [Nat.pred].
  destruct s as [|c' s'] eqn:Es.
  - cbn. rewrite length_append_char. split; [lia | constructor].
  - rewrite <- Es in *.
    assert (HL : (0 < String.length s)%nat) by (rewrite Es; cbn; lia).
    assert (Hne : s <> "") by (rewrite Es; discriminate).
    destruct (mod_3_before _ HL) as [M0 M1].
    replace (0 <? String.length s)%nat with true
      by (symmetry; apply Nat.ltb_lt, HL).
    cbn [andb]. destruct (String.length s mod 3 =? 0)%nat eqn:E.
    + apply Nat.eqb_eq in E. cbn [split_on_from].
      change (Ascii.eqb "," ",") with true. cbv iota. cbn [hd tl].
      rewrite length_append_char, E. split; [lia|].
      destruct (IH "" Hs Hne) as [H1 H2].
      destruct (split_on_from "," "" (commas s)) as [|f fs] eqn:Ef;
        [exfalso; eapply split_on_from_not_nil, Ef|].
      cbn [hd tl String.length] in H1, H2. constructor; [|exact H2].
      rewrite H1, (M0 E). reflexivity.
    + apply Nat.eqb_neq in E.
      destruct (IH (cur +:+ String c "") Hs Hne) as [H1 H2].
      split; [|exact H2].
      rewrite H1, length_append_char, <- (M1 E). lia.
Qed.

Lemma concat_split_on_from s :
  forall cur,
    String.concat "" (split_on_from "," cur s) = cur +:+ remove_commas s.
Proof.
  induction s as [|c s IH]; intros cur; cbn [split_on_from remove_commas].
  - cbn [String.concat]. rewrite append_empty_r. reflexivity.
  - destruct (Ascii.eqb c ",").
    + pose proof (IH "") as H.
      destruct (split_on_from "," "" s) as [|f fs] eqn:Ef;
        [exfalso; eapply split_on_from_not_nil, Ef|].
      cbn [String.concat]. rewrite append_empty_l.
      cbn [String.concat] in H. rewrite H, append_empty_l. reflexivity.
    + rewrite IH, <- append_cons_assoc. reflexivity.
Qed.

(** X18.  How ["{:,}".format] groups a market cap that is not negative: the
    commas cut the text into a first field of one to three characters and
    further fields of exactly three, and the fields put together are the
    decimal digits of the number. *)
Theorem format_commas_groups n :
  (0 <= n)%Z ->
  (1 <= String.length (hd "" (split_on "," (format_commas n))) <= 3)%nat
  /\ Forall (fun f => String.length f = 3%nat)
            (tl (split_on "," (format_commas n)))
  /\ String.concat "" (split_on "," (format_commas n)) = str n.
Proof.
  intros Hn. unfold split_on.
  rewrite concat_split_on_from, append_empty_l, remove_commas_format.
  unfold format_commas. replace (n <? 0)%Z with false by (symmetry; apply Z.ltb_ge, Hn).
  assert (Hc : commaless (digits n) = true).
  { apply (all_chars_impl isdigit); [|apply digits_isdigit].
    intros c Hc. apply isdigit_facts in Hc. destruct Hc as (_ & -> & _).
    reflexivity. }
  destruct (commas_fields (digits n) "" Hc (digits_not_empty n)) as [H1 H2].
  split; [|split; [exact H2 | reflexivity]].
  rewrite H1. cbn [String.length].
  pose proof (Nat.mod_upper_bound (String.length (digits n) - 1) 3). lia.
Qed.

End Numerals.

(* ===================================================================== *)
(** * Properties of the views that print a table and export it           *)
(* ===================================================================== *)

Section TableViewFacts.
Import ComparisonView TableViews.

Variable get_sec_filings : string -> outcome DataFrame.
Variable get_gwei_fees : outcome DataFrame.
Variable get_tradingview_recommendation :
  string -> string -> string -> string -> outcome DataFrame.
Variable gecko : coin_data -> outcome DataFrame.
Variable get_financial_comparisons :
  list string -> string -> string -> bool -> outcome DataFrame.
Variable financials_colored_values : value -> outcome value.
Variable helper : call -> outcome unit.
Variable module_dir : string.

(** The rows [head] keeps. *)
Lemma head_rows n df :
  length (index (head n df))
  = if (0 <=? n)%Z then Nat.min (Z.to_nat n) (length (index df))
    else (length (index df) - Z.to_nat (- n))%nat.
Proof.
  unfold head. cbn [index]. rewrite length_take.
  destruct (0 <=? n)%Z eqn:E; [apply Z.leb_le in E | apply Z.leb_gt in E]; lia.
Qed.

Ltac run_view :=
  unfold invoke;
  repeat match goal with
         | |- context [helper ?c] => destruct (helper c) as [[]|?] eqn:?
         end;
  cbn.

(** X19.  [sec_filings] shows the first [num] filings and exports them all.
    When the view returns, the table it printed is [head(num)] of the
    fetched table ([num] rows at most, or all but the last [-num] for a
    negative [num]) and the table it exported is the fetched table
    itself. *)
Theorem sec_filings_exports_all ticker num export df :
  get_sec_filings ticker = Ret df ->
  fst (sec_filings get_sec_filings helper module_dir ticker num export) = Ret tt ->
  printed (sec_filings get_sec_filings helper module_dir ticker num export)
  = [head num df]
  /\ exported_tables (sec_filings get_sec_filings helper module_dir ticker num export)
     = [df]
  /\ length (index (head num df))
     = if (0 <=? num)%Z then Nat.min (Z.to_nat num) (length (index df))
       else (length (index df) - Z.to_nat (- num))%nat.
Proof.
  intros Hdf. unfold sec_filings, printed, exported_tables. rewrite Hdf.
  run_view; intros H; try discriminate H.
  repeat split. apply head_rows.
Qed.

(** X20.  [display_gwei_fees] on the table the model returned.  An empty table
    gives the error message and nothing else: no table is printed and
    nothing is exported.  Otherwise, when the view returns, it has printed
    the first four rows and exported the whole table.  In no case does it
    print a table of more than four rows. *)
Theorem gwei_fees_outcome export df :
  get_gwei_fees = Ret df ->
  (empty df = true ->
   snd (display_gwei_fees get_gwei_fees helper module_dir export)
   = [console_print (newline +:+ "Error in ethgasstation request" +:+ newline)])
  /\ (empty df = false ->
      fst (display_gwei_fees get_gwei_fees helper module_dir export) = Ret tt ->
      printed (display_gwei_fees get_gwei_fees helper module_dir export)
      = [head 4 df]
      /\ exported_tables (display_gwei_fees get_gwei_fees helper module_dir export)
         = [df])
  /\ Forall (fun d => length (index d) <= 4)
            (printed (display_gwei_fees get_gwei_fees helper module_dir export)).
Proof.
  intros Hdf. unfold display_gwei_fees, printed, exported_tables. rewrite Hdf.
  assert (H4 : length (index (head 4 df)) <= 4).
  { rewrite head_rows. cbn. lia. }
  split; [|split].
  - intros ->. run_view; reflexivity.
  - intros ->. run_view; intros H; try discriminate H. auto.
  - destruct (empty df); run_view;
      first [ constructor 1 | constructor 2; [exact H4 | constructor 1] ].
Qed.


Lemma print_and_export_shown data title name export df :
  In df (exported_tables (print_and_export gecko helper module_dir data title name export)) ->
  gecko data = Ret df
  /\ printed (print_and_export gecko helper module_dir data title name export) = [df]
  /\ exported_tables (print_and_export gecko helper module_dir data title name export)
     = [df].
Proof.
  unfold print_and_export, printed, exported_tables.
  destruct (gecko data) as [d|e]; [|intros []].
  run_view; intros H; try contradiction; destruct H as [<- | []]; auto.
Qed.

(** The run of a CoinGecko view, call by call. *)
Lemma print_and_export_run data title name export df :
  gecko data = Ret df ->
  print_and_export gecko helper module_dir data title name export
  = match helper (print_rich_table df (columns df) false title) with
    | Raise e => (Raise e, [print_rich_table df (columns df) false title])
    | Ret _ =>
        match helper (console_print "") with
        | Raise e =>
            (Raise e, [print_rich_table df (columns df) false title;
                       console_print ""])
        | Ret _ =>
            (match helper (export_data export module_dir name df) with
             | Ret _ => Ret tt
             | Raise e => Raise e
             end,
             [print_rich_table df (columns df) false title; console_print "";
              export_data export module_dir name df])
        end
    end.
Proof.
  intros Hdf. unfold print_and_export. rewrite Hdf. run_view; reflexivity.
Qed.

Lemma print_and_export_facts data title name export :
  (forall df,
      In df (exported_tables
               (print_and_export gecko helper module_dir data title name export)) ->
      printed (print_and_export gecko helper module_dir data title name export) = [df]
      /\ exported_tables
           (print_and_export gecko helper module_dir data title name export) = [df])
  /\ (forall e,
        gecko data = Raise e ->
        print_and_export gecko helper module_dir data title name export
        = (Raise e, []))
  /\ (forall df,
        gecko data = Ret df ->
        print_and_export gecko helper module_dir data title name export
        = match helper (print_rich_table df (columns df) false title) with
          | Raise e => (Raise e, [print_rich_table df (columns df) false title])
          | Ret _ =>
              match helper (console_print "") with
              | Raise e =>
                  (Raise e, [print_rich_table df (columns df) false title;
                             console_print ""])
              | Ret _ =>
                  (match helper (export_data export module_dir name df) with
                   | Ret _ => Ret tt
                   | Raise e => Raise e
                   end,
                   [print_rich_table df (columns df) false title; console_print "";
                    export_data export module_dir name df])
              end
          end)
  /\ (forall df e,
        gecko data = Ret df ->
        helper (print_rich_table df (columns df) false title) = Raise e
        \/ helper (console_print "") = Raise e ->
        exported_tables
          (print_and_export gecko helper module_dir data title name export) = []).
Proof.
  split; [|split; [|split]].
  - intros df H. apply print_and_export_shown in H.
    destruct H as (_ & H1 & H2). split; [exact H1 | exact H2].
  - intros e He. unfold print_and_export. rewrite He. reflexivity.
  - intros df Hdf. apply print_and_export_run, Hdf.
  - intros df e Hdf Hraise. rewrite (print_and_export_run _ _ _ _ _ Hdf).
    unfold exported_tables.
    destruct Hraise as [-> | Hc]; [reflexivity|].
    destruct (helper (print_rich_table _ _ _ _)); [|reflexivity].
    rewrite Hc. reflexivity.
Qed.

(** X22.  The CoinGecko views export what they have shown.  Each of the
    nine views that take their table as the model hands it over fetches
    its own table and, if that raises, raises the same and calls nothing.
    Otherwise it prints the table, whole and without its index, under its
    own title, prints an empty line, and exports the table under its own
    name, in this order, and stops at the first of these calls that
    raises: nothing is exported when [print_rich_table] or
    [console.print] raised.  So a table reaches [export_data] only after
    it was printed, and it is the one table printed and the one table
    exported. *)
Theorem coin_views_export_what_they_show symbol currency export :
  Forall (fun v : run * (coin_data * string * string) =>
            let '(r, (data, title, name)) := v in
            (forall df, In df (exported_tables r) ->
                        printed r = [df] /\ exported_tables r = [df])
            /\ (forall e, gecko data = Raise e -> r = (Raise e, []))
            /\ (forall df,
                  gecko data = Ret df ->
                  r = match helper (print_rich_table df (columns df) false title) with
                      | Raise e =>
                          (Raise e, [print_rich_table df (columns df) false title])
                      | Ret _ =>
                          match helper (console_print "") with
                          | Raise e =>
                              (Raise e,
                               [print_rich_table df (columns df) false title;
                                console_print ""])
                          | Ret _ =>
                              (match helper (export_data export module_dir name df) with
                               | Ret _ => Ret tt
                               | Raise e => Raise e
                               end,
                               [print_rich_table df (columns df) false title;
                                console_print "";
                                export_data export module_dir name df])
                          end
                      end)
            /\ (forall df e,
                  gecko data = Ret df ->
                  helper (print_rich_table df (columns df) false title) = Raise e
                  \/ helper (console_print "") = Raise e ->
                  exported_tables r = []))
         [ (display_info gecko helper module_dir symbol export,
            (base_info_wrapped symbol 80, "Basic Coin Information", "info"));
           (display_web gecko helper module_dir symbol export,
            (websites symbol, "Websites for Loaded Coin", "web"));
           (display_social gecko helper module_dir symbol export,
            (social_media symbol, "Social Media for Loaded Coin", "social"));
           (display_dev gecko helper module_dir symbol export,
            (developers_data symbol, "Developers Data for Loaded Coin", "dev"));
           (display_ath gecko helper module_dir symbol currency export,
            (all_time_high symbol currency, "Coin Highs", "ath"));
           (display_atl gecko helper module_dir symbol currency export,
            (all_time_low symbol currency, "Coin Lows", "atl"));
           (display_score gecko helper module_dir symbol export,
            (scores symbol, "Different Scores for Loaded Coin", "score"));
           (display_bc gecko helper module_dir symbol export,
            (blockchain_explorers symbol, "Blockchain URLs", "bc"));
           (display_market gecko helper module_dir symbol export,
            (market_data symbol, "Market Data", "market")) ].
Proof.
  repeat (apply List.Forall_cons; [apply print_and_export_facts|]).
  apply List.Forall_nil.
Qed.

(** X23.  The comparison views print after the export, and not the same
    table.  If [export_data] raises, the view raises the same and prints
    nothing.  When the view returns, the table exported is the fetched
    one, while the table printed is the fetched one with its cells coloured
    when [USE_COLOR] is set, and with the index named after the timeframe
    unless [quarter] is set. *)
Theorem comparison_prints_after_export
        color statement title similar timeframe quarter export df :
  get_financial_comparisons similar statement timeframe quarter = Ret df ->
  (forall e,
      helper (export_data export module_dir statement df) = Raise e ->
      display_comparison get_financial_comparisons financials_colored_values
                         helper module_dir color statement title similar
                         timeframe quarter export
      = (Raise e, [export_data export module_dir statement df]))
  /\ (fst (display_comparison get_financial_comparisons financials_colored_values
                              helper module_dir color statement title similar
                              timeframe quarter export) = Ret tt ->
      exists shown,
        (if color then applymap financials_colored_values df = Ret shown
         else shown = df)
        /\ printed (display_comparison get_financial_comparisons
                      financials_colored_values helper module_dir color statement
                      title similar timeframe quarter export)
           = [if quarter then shown else set_index_name timeframe shown]
        /\ exported_tables (display_comparison get_financial_comparisons
                              financials_colored_values helper module_dir color
                              statement title similar timeframe quarter export)
           = [df]).
Proof.
  intros Hdf. unfold display_comparison, printed, exported_tables. rewrite Hdf.
  split.
  - intros e He. unfold invoke at 1. rewrite He. reflexivity.
  - destruct color.
    + destruct (applymap financials_colored_values df) as [colored|e] eqn:Ea.
      * destruct quarter; run_view; intros H; try discriminate H;
          exists colored; auto.
      * run_view; intros H; discriminate H.
    + destruct quarter; run_view; intros H; try discriminate H;
        exists df; auto.
Qed.

End TableViewFacts.

(* ===================================================================== *)
(** * Witnesses and counterexamples in concrete sessions                  *)
(* ===================================================================== *)

(** The line ["bogus"] in a fresh AAPL session: an unregistered token
    makes [switch] exit. *)
Lemma unregistered_command_exits_witness :
  TA.built Session.aapl /\ Py.split "bogus" = ["bogus"] /\
  ~ In "bogus" TA.CHOICES /\ TA.option_like "bogus" = false /\ "bogus" <> "--" /\
  fst (fst (TA.switch Session.quiet Session.flags "bogus" Session.aapl Session.no_files))
  = Raise (SystemExit 2).
Proof.
  assert (H1 : TA.built Session.aapl) by reflexivity.
  assert (H2 : Py.split "bogus" = ["bogus"]) by reflexivity.
  assert (H3 : ~ In "bogus" TA.CHOICES) by (cbn; intuition discriminate).
  assert (H4 : TA.option_like "bogus" = false) by reflexivity.
  assert (H5 : "bogus" <> "--") by discriminate.
  repeat (split; [assumption|]).
  destruct (unregistered_command_exits Session.quiet Session.flags
              "bogus" "bogus" [] Session.aapl Session.no_files [] H1 H2 H3 H4 H5)
    as [H _].
  rewrite H. reflexivity.
Defined.

(** C1 as stated fails: the first token of ["bogus"] is not registered,
    yet [switch] raises [SystemExit(2)] instead of returning [None]; and
    for ["--foo help"] and ["-- help"], whose first token is not
    registered either, no diagnostic is written and the help handler
    runs. *)
Lemma unregistered_token_raises :
  Py.split "bogus" = ["bogus"] /\ ~ In "bogus" TA.CHOICES /\
  TA.switch Session.quiet Session.flags "bogus" Session.aapl Session.no_files
  = (Raise (SystemExit 2), Session.aapl,
     {| TA.fs := ∅; TA.remove_error := fun _ => None;
        TA.trace := [TA.Switch "bogus";
                     TA.ParserError "ta" (TA.invalid_choice "bogus")] |})
  /\ Py.split "--foo help" = ["--foo"; "help"] /\ ~ In "--foo" TA.CHOICES /\
  TA.switch Session.quiet Session.flags "--foo help" Session.aapl Session.no_files
  = (Ret VNone, Session.aapl,
     {| TA.fs := ∅; TA.remove_error := fun _ => None;
        TA.trace := TA.Switch "--foo help" :: TA.help_text Session.aapl |})
  /\ Py.split "-- help" = ["--"; "help"] /\ ~ In "--" TA.CHOICES /\
  TA.switch Session.quiet Session.flags "-- help" Session.aapl Session.no_files
  = (Ret VNone, Session.aapl,
     {| TA.fs := ∅; TA.remove_error := fun _ => None;
        TA.trace := TA.Switch "-- help" :: TA.help_text Session.aapl |}).
Proof.
  repeat split; try reflexivity; cbn; intuition discriminate.
Qed.

(** With every view and indicator function failing, ["vwap"] is a
    registered command whose handler's failure leaves [switch] as an
    exception: C2 as stated fails. *)
Lemma handler_failure_propagates :
  Py.split "vwap" = ["vwap"] /\ In "vwap" TA.CHOICES /\
  TA.switch Session.upstream_down Session.flags "vwap" Session.aapl Session.no_files
  = (Raise (Exception "UpstreamUnavailable" "connection refused"), Session.aapl,
     {| TA.fs := ∅; TA.remove_error := fun _ => None;
        TA.trace := [TA.Switch "vwap";
                     TA.Called (TA.ta_overlap_vwap [] "AAPL" "1440min" 1)] |}).
Proof.
  repeat split; try reflexivity. cbn. tauto.
Qed.

(** The command ["vwap"] in a fresh AAPL session, with collaborators that
    fail: [switch] calls the indicator function of [vwap] and raises
    what it raises. *)
Lemma switch_outcomes_witness :
  TA.built Session.aapl /\ Py.split "vwap" = ["vwap"] /\ In "vwap" TA.CHOICES /\
  TA.cleanup_error Session.aapl Session.no_files = None /\
  In "vwap" TA.delegating /\
  exists call,
    TA.delegated_call "vwap" [] Session.aapl = Some call
    /\ call = TA.ta_overlap_vwap [] "AAPL" "1440min" 1
    /\ fst (fst (TA.switch Session.upstream_down Session.flags "vwap"
                   Session.aapl Session.no_files))
       = Raise (Exception "UpstreamUnavailable" "connection refused").
Proof.
  assert (H1 : TA.built Session.aapl) by reflexivity.
  assert (H2 : Py.split "vwap" = ["vwap"]) by reflexivity.
  assert (H3 : In "vwap" TA.CHOICES) by (cbn; tauto).
  assert (H4 : TA.cleanup_error Session.aapl Session.no_files = None) by reflexivity.
  assert (H5 : In "vwap" TA.delegating) by (cbn; tauto).
  repeat (split; [assumption|]).
  destruct (switch_outcomes Session.upstream_down Session.flags
              "vwap" "vwap" [] Session.aapl Session.no_files H1 H2 H3)
    as (_ & _ & H).
  destruct (H H4) as (_ & _ & _ & _ & _ & _ & Hd).
  destruct (Hd H5) as (call & Hcall & Hr).
  exists call. split; [exact Hcall|].
  assert (Ec : call = TA.ta_overlap_vwap [] "AAPL" "1440min" 1)
    by (injection Hcall as <-; reflexivity).
  split; [exact Ec|]. rewrite Hr, Ec. reflexivity.
Defined.

(** The scenario of C3 with quiet collaborators, from an empty trace. *)
Lemma menu_bogus_help_q_witness :
  (forall w0, Session.quiet (TA.plt_close "all") w0 = (Ret tt, TA.fs w0, [])) /\
  fst (fst (TA.menu Session.quiet Session.flags 1 "AAPL" None "15min" 2
                    ["bogus"; "help"; "q"] Session.no_files))
  = Ret (VBool false).
Proof.
  assert (H : forall w0, Session.quiet (TA.plt_close "all") w0 = (Ret tt, TA.fs w0, []))
    by reflexivity.
  split; [exact H|].
  destruct (menu_bogus_help_q Session.quiet Session.flags 1 "AAPL" None "15min" 2
              [] Session.no_files H) as [E _].
  rewrite E. reflexivity.
Defined.

(** With the flag set and the figure already absent, [switch] on ["q"]
    returns and leaves the flag set; and a line the parser rejects leaves
    both the flag and an existing figure: C4 as stated fails.  And when
    [os.remove] fails on the figure, [switch] on ["q"] raises instead of
    running its command, and the figure and the flag stay. *)
Lemma absent_figure_keeps_flag :
  TA.delete_img Session.aapl_pending = true /\
  TA.figure Session.aapl_pending = "AAPL.jpg" /\
  ("AAPL.jpg" ∉ TA.fs Session.no_files) /\
  TA.switch Session.quiet Session.flags "q" Session.aapl_pending Session.no_files
  = (Ret (VBool false), Session.aapl_pending,
     {| TA.fs := ∅; TA.remove_error := fun _ => None;
        TA.trace := [TA.Switch "q"] |}) /\
  TA.switch Session.quiet Session.flags "bogus" Session.aapl_pending Session.with_figure
  = (Raise (SystemExit 2), Session.aapl_pending,
     {| TA.fs := {["AAPL.jpg"]}; TA.remove_error := fun _ => None;
        TA.trace := [TA.Switch "bogus";
                     TA.ParserError "ta" (TA.invalid_choice "bogus")] |}) /\
  TA.switch Session.quiet Session.flags "q" Session.aapl_pending
            Session.with_locked_figure
  = (Raise (Exception "PermissionError" "AAPL.jpg"), Session.aapl_pending,
     TA.log [TA.Switch "q"] Session.with_locked_figure).
Proof.
  repeat split; try reflexivity. cbn. set_solver.
Qed.

(** With the flag set and the figure present, [switch] on ["q"] deletes
    the figure and clears the flag before the handler returns [False]. *)
Lemma cleanup_before_handler_witness :
  TA.built Session.aapl_pending /\ TA.delete_img Session.aapl_pending = true /\
  Argparse.parse_known_args TA.make_ta_parser (Py.split "q")
  = Argparse.Parsed [("cmd", VStr "q")] [] /\
  (TA.figure Session.aapl_pending ∈ TA.fs Session.with_figure) /\
  TA.remove_error Session.with_figure (TA.figure Session.aapl_pending) = None /\
  TA.switch Session.quiet Session.flags "q" Session.aapl_pending Session.with_figure
  = (Ret (VBool false), Session.aapl,
     {| TA.fs := {["AAPL.jpg"]} ∖ {["AAPL.jpg"]}; TA.remove_error := fun _ => None;
        TA.trace := [TA.Switch "q"] |}).
Proof.
  assert (H1 : TA.built Session.aapl_pending) by reflexivity.
  assert (H2 : TA.delete_img Session.aapl_pending = true) by reflexivity.
  assert (H3 : Argparse.parse_known_args TA.make_ta_parser (Py.split "q")
               = Argparse.Parsed [("cmd", VStr "q")] []) by reflexivity.
  assert (H4 : TA.figure Session.aapl_pending ∈ TA.fs Session.with_figure)
    by (vm_compute; reflexivity).
  assert (H5 : TA.remove_error Session.with_figure (TA.figure Session.aapl_pending)
               = None) by reflexivity.
  repeat (split; [assumption|]).
  destruct (cleanup_before_handler Session.quiet Session.flags "q"
              Session.aapl_pending Session.with_figure _ _ H1 H2 H3) as [E _].
  rewrite (E H4 H5). reflexivity.
Defined.



(** ["q"] is a registered command, but [--length 20,abc] after it is not
    parsed at all: [switch] returns [False] without a warning, whereas the
    same tokens make the [ema] parser fail.  C8 as stated fails. *)
Lemma menu_commands_take_no_options :
  In "q" TA.CHOICES /\
  TA.switch Session.quiet Session.flags "q --length 20,abc"
            Session.aapl Session.no_files
  = (Ret (VBool false), Session.aapl,
     {| TA.fs := ∅; TA.remove_error := fun _ => None;
        TA.trace := [TA.Switch "q --length 20,abc"] |}) /\
  Argparse.parse_known_args TA.ema_parser ["--length"; "20,abc"]
  = Argparse.Exits "ema"
      (Argparse.ArgumentError "-l/--length"
         (Argparse.InvalidValue "<lambda>" "20,abc")).
Proof.
  repeat split; try reflexivity. cbn. tauto.
Qed.

(** ["q --length 20,abc"] in a fresh AAPL session. *)
Lemma moving_average_options_witness :
  TA.built Session.aapl /\
  Py.split "q --length 20,abc" = ["q"; "--length"; "20,abc"] /\
  TA.cleanup_error Session.aapl Session.no_files = None /\
  fst (fst (TA.switch Session.quiet Session.flags "q --length 20,abc"
                      Session.aapl Session.no_files))
  = Ret (VBool false).
Proof.
  assert (H1 : TA.built Session.aapl) by reflexivity.
  assert (H2 : Py.split "q --length 20,abc" = ["q"; "--length"; "20,abc"])
    by reflexivity.
  assert (H3 : TA.cleanup_error Session.aapl Session.no_files = None) by reflexivity.
  repeat (split; [assumption|]).
  destruct (moving_average_options Session.quiet Session.flags
              "q --length 20,abc" "q" ["--length"; "20,abc"]
              Session.aapl Session.no_files H1 H2) as (_ & H).
  destruct (H H3) as (_ & Hq & _).
  exact (Hq eq_refl).
Defined.

(** The line ["help"]: the parser accepts it and [call_help] is found. *)
Lemma fallback_never_invoked_witness :
  Argparse.parse_known_args TA.make_ta_parser (Py.split "help")
  = Argparse.Parsed [("cmd", VStr "help")] [] /\
  exists cmd h,
    Argparse.getattr [("cmd", VStr "help")] "cmd" = Some (VStr cmd) /\
    In cmd TA.CHOICES /\
    TA.getattr_or_fallback Session.quiet Session.flags ("call_" +:+ cmd)
    = TA.Method h.
Proof.
  assert (H1 : Argparse.parse_known_args TA.make_ta_parser (Py.split "help")
               = Argparse.Parsed [("cmd", VStr "help")] []) by reflexivity.
  split; [exact H1|].
  destruct (fallback_never_invoked Session.quiet Session.flags "help" _ _ H1)
    as [(cmd & h & E1 & E2 & E3 & _) _].
  exists cmd, h. repeat split; assumption.
Defined.

(* ===================================================================== *)
(** * Further concrete runs                                               *)
(* ===================================================================== *)

(** The tokens of ["rsi -l 14"]. *)
Lemma split_join_witness :
  Forall (fun t => t <> "" /\ Text.spaceless t = true) ["rsi"; "-l"; "14"] /\
  Py.split (Text.join " " ["rsi"; "-l"; "14"]) = ["rsi"; "-l"; "14"].
Proof.
  assert (H : Forall (fun t => t <> "" /\ Text.spaceless t = true) ["rsi"; "-l"; "14"])
    by (repeat constructor; discriminate).
  split; [exact H | exact (split_join _ H)].
Defined.

(** ["--help -h"] in a fresh AAPL session: no help, but an exit. *)
Lemma options_without_command_witness :
  TA.built Session.aapl /\
  Forall (fun s => TA.option_like s = true) (Py.split "--help -h") /\
  TA.switch Session.quiet Session.flags "--help -h" Session.aapl Session.no_files
  = (Raise (SystemExit 2), Session.aapl,
     {| TA.fs := ∅; TA.remove_error := fun _ => None;
        TA.trace := [TA.Switch "--help -h";
                     TA.ParserError "ta" (Argparse.RequiredMissing ["cmd"])] |}).
Proof.
  assert (H1 : TA.built Session.aapl) by reflexivity.
  assert (H2 : Forall (fun s => TA.option_like s = true) (Py.split "--help -h"))
    by (change (Py.split "--help -h") with ["--help"; "-h"]; repeat constructor).
  repeat (split; [assumption|]).
  rewrite (options_without_command Session.quiet Session.flags "--help -h"
             Session.aapl Session.no_files H1 H2).
  reflexivity.
Defined.

(** A line of three spaces, then ["q"]. *)
Lemma blank_line_continues_witness :
  TA.built Session.aapl /\ Text.blank "   " = true /\
  fst (fst (Session.quiet (TA.plt_close "all")
              (TA.log [TA.Called (TA.plt_close "all")]
                 (TA.log [TA.Prompted (TA.use_toolkit Session.flags) "   "]
                    Session.no_files))))
  = Ret tt /\
  fst (fst (TA.menu_loop Session.quiet Session.flags ["   "; "q"]
              Session.aapl Session.no_files))
  = Ret (VBool false).
Proof.
  assert (H1 : TA.built Session.aapl) by reflexivity.
  assert (H2 : Text.blank "   " = true) by reflexivity.
  assert (H3 : fst (fst (Session.quiet (TA.plt_close "all")
                           (TA.log [TA.Called (TA.plt_close "all")]
                              (TA.log [TA.Prompted (TA.use_toolkit Session.flags) "   "]
                                 Session.no_files))))
               = Ret tt) by reflexivity.
  repeat (split; [assumption|]).
  rewrite (blank_line_continues Session.quiet Session.flags "   " ["q"]
             Session.aapl Session.no_files H1 H2 H3).
  reflexivity.
Defined.

(** ["--fast rsi -- -l 14"]: the option in front and the tokens behind
    the separator are what is left for the handler. *)
Lemma switch_forwards_tokens_witness :
  TA.built Session.aapl /\
  Py.split "--fast rsi -- -l 14" = (["--fast"] ++ "rsi" :: ["--"; "-l"; "14"])%list /\
  Forall (fun s => TA.option_like s = true) ["--fast"] /\
  In "rsi" TA.CHOICES /\
  Argparse.parse_known_args TA.make_ta_parser (Py.split "--fast rsi -- -l 14")
  = Argparse.Parsed [("cmd", VStr "rsi")] ["--fast"; "-l"; "14"].
Proof.
  assert (H1 : TA.built Session.aapl) by reflexivity.
  assert (H2 : Py.split "--fast rsi -- -l 14"
               = (["--fast"] ++ "rsi" :: ["--"; "-l"; "14"])%list) by reflexivity.
  assert (H3 : Forall (fun s => TA.option_like s = true) ["--fast"])
    by (repeat constructor).
  assert (H4 : In "rsi" TA.CHOICES) by (cbn; tauto).
  repeat (split; [assumption|]).
  exact (proj1 (switch_forwards_tokens Session.quiet Session.flags
                  "--fast rsi -- -l 14" ["--fast"] "rsi" ["--"; "-l"; "14"]
                  Session.aapl Session.no_files H1 H2 H3 H4)).
Defined.

(** ["view"] in a fresh AAPL session sets the flag. *)
Lemma flag_set_only_by_view_witness :
  TA.built Session.aapl /\ TA.delete_img Session.aapl = false /\
  TA.delete_img
    (snd (fst (TA.switch Session.quiet Session.flags "view"
                 Session.aapl Session.no_files))) = true /\
  fst (fst (TA.switch Session.quiet Session.flags "view"
              Session.aapl Session.no_files)) = Ret VNone.
Proof.
  assert (H1 : TA.built Session.aapl) by reflexivity.
  assert (H2 : TA.delete_img Session.aapl = false) by reflexivity.
  assert (H3 : TA.delete_img
                 (snd (fst (TA.switch Session.quiet Session.flags "view"
                              Session.aapl Session.no_files))) = true)
    by reflexivity.
  repeat (split; [assumption|]).
  exact (proj2 (flag_set_only_by_view Session.quiet Session.flags "view"
                  Session.aapl Session.no_files H1 H2 H3)).
Defined.

(** ["q"] with the flag set and the figure present clears the flag. *)
Lemma flag_cleared_only_by_deletion_witness :
  TA.built Session.aapl_pending /\ TA.delete_img Session.aapl_pending = true /\
  TA.delete_img
    (snd (fst (TA.switch Session.quiet Session.flags "q"
                 Session.aapl_pending Session.with_figure))) = false /\
  (TA.figure Session.aapl_pending ∈ TA.fs Session.with_figure).
Proof.
  assert (H1 : TA.built Session.aapl_pending) by reflexivity.
  assert (H2 : TA.delete_img Session.aapl_pending = true) by reflexivity.
  assert (H3 : TA.delete_img
                 (snd (fst (TA.switch Session.quiet Session.flags "q"
                              Session.aapl_pending Session.with_figure))) = false)
    by (vm_compute; reflexivity).
  repeat (split; [assumption|]).
  exact (proj1 (flag_cleared_only_by_deletion Session.quiet Session.flags "q"
                  Session.aapl_pending Session.with_figure H1 H2 H3)).
Defined.

(** Quiet collaborators leave the files alone; ["q"] with the flag set
    and the figure present. *)
Lemma switch_deletes_only_figure_witness :
  TA.built Session.aapl_pending /\
  (forall call w0, snd (fst (Session.quiet call w0)) = TA.fs w0) /\
  (TA.fs (snd (TA.switch Session.quiet Session.flags "q"
                 Session.aapl_pending Session.with_figure))
   = TA.fs Session.with_figure
   \/ (TA.delete_img Session.aapl_pending = true
       /\ (TA.figure Session.aapl_pending ∈ TA.fs Session.with_figure)
       /\ TA.fs (snd (TA.switch Session.quiet Session.flags "q"
                        Session.aapl_pending Session.with_figure))
          = TA.fs Session.with_figure ∖ {[TA.figure Session.aapl_pending]})).
Proof.
  assert (H1 : TA.built Session.aapl_pending) by reflexivity.
  assert (H2 : forall call w0, snd (fst (Session.quiet call w0)) = TA.fs w0)
    by reflexivity.
  repeat (split; [assumption|]).
  exact (switch_deletes_only_figure Session.quiet Session.flags "q"
           Session.aapl_pending Session.with_figure H1 H2).
Defined.

(** The lengths 10 and 30. *)
Lemma length_type_round_trip_witness :
  [10; 30]%Z <> [] /\
  Forall (fun n => (Z.abs n < 10 ^ max_str_digits)%Z) [10; 30]%Z /\
  TA.length_type "10,30" = Ret (VList [VInt 10; VInt 30]).
Proof.
  assert (H1 : [10; 30]%Z <> []) by discriminate.
  assert (H2 : Forall (fun n => (Z.abs n < 10 ^ max_str_digits)%Z) [10; 30]%Z)
    by (repeat constructor).
  split; [exact H1|]. split; [exact H2|].
  exact (length_type_round_trip [10; 30]%Z H1 H2).
Defined.

(** The cell 1234567.5 is shown as ["1,234,567"]. *)
Lemma market_cap_round_trip_witness :
  MarketCap.format_market_cap (MarketCap.SFloat 2469135 (-1)) = Ret "1,234,567" /\
  exists n,
    MarketCap.int_of_scalar (MarketCap.SFloat 2469135 (-1)) = Ret n
    /\ int (Text.remove_commas "1,234,567") = Ret n.
Proof.
  assert (H : MarketCap.format_market_cap (MarketCap.SFloat 2469135 (-1))
              = Ret "1,234,567") by reflexivity.
  split; [exact H | exact (market_cap_round_trip _ _ H)].
Defined.

(** The fields of ["1,234,567"]. *)
Lemma format_commas_groups_witness :
  (0 <= 1234567)%Z /\
  Py.split_on "," (Text.format_commas 1234567) = ["1"; "234"; "567"] /\
  String.concat "" (Py.split_on "," (Text.format_commas 1234567)) = Text.str 1234567.
Proof.
  assert (H : (0 <= 1234567)%Z) by lia.
  split; [exact H|]. split; [reflexivity|].
  exact (proj2 (proj2 (format_commas_groups 1234567 H))).
Defined.

(** Two of five filings shown, five exported. *)
Lemma sec_filings_exports_all_witness :
  Samples.sec_model "AAPL" = Ret Samples.five_rows /\
  fst (TableViews.sec_filings Samples.sec_model Samples.helpers_return "."
         "AAPL" 2 "csv") = Ret tt /\
  TableViews.printed
    (TableViews.sec_filings Samples.sec_model Samples.helpers_return "."
       "AAPL" 2 "csv")
  = [TableViews.head 2 Samples.five_rows] /\
  length (ComparisonView.index (TableViews.head 2 Samples.five_rows)) = 2%nat /\
  TableViews.exported_tables
    (TableViews.sec_filings Samples.sec_model Samples.helpers_return "."
       "AAPL" 2 "csv")
  = [Samples.five_rows].
Proof.
  assert (H1 : Samples.sec_model "AAPL" = Ret Samples.five_rows) by reflexivity.
  assert (H2 : fst (TableViews.sec_filings Samples.sec_model Samples.helpers_return
                      "." "AAPL" 2 "csv") = Ret tt) by reflexivity.
  repeat (split; [assumption|]).
  destruct (sec_filings_exports_all Samples.sec_model Samples.helpers_return "."
              "AAPL" 2 "csv" Samples.five_rows H1 H2) as (E1 & E2 & E3).
  split; [exact E1|]. split; [exact E3 | exact E2].
Defined.

(** Four of five rows of gas fees shown. *)
Lemma gwei_fees_outcome_witness :
  Ret Samples.five_rows = Ret Samples.five_rows /\
  Forall (fun d => length (ComparisonView.index d) <= 4)
    (TableViews.printed
       (TableViews.display_gwei_fees (Ret Samples.five_rows)
          Samples.helpers_return "." "csv")).
Proof.
  assert (H : Ret Samples.five_rows = Ret Samples.five_rows) by reflexivity.
  split; [exact H|].
  exact (proj2 (proj2 (gwei_fees_outcome (Ret Samples.five_rows)
                         Samples.helpers_return "." "csv" Samples.five_rows H))).
Defined.


(** An annual income comparison in colour: the table printed carries
    the timeframe as the name of its index, the table exported does not. *)
Lemma comparison_prints_after_export_witness :
  Samples.comparison_model ["AAPL"; "MSFT"] "income" "31-Dec-2021" false
  = Ret Samples.five_rows /\
  TableViews.printed
    (ComparisonView.display_income_comparison Samples.comparison_model
       Samples.plain_colors Samples.helpers_return "." true
       ["AAPL"; "MSFT"] "31-Dec-2021" false "csv")
  = [ComparisonView.set_index_name "31-Dec-2021" Samples.five_rows] /\
  TableViews.exported_tables
    (ComparisonView.display_income_comparison Samples.comparison_model
       Samples.plain_colors Samples.helpers_return "." true
       ["AAPL"; "MSFT"] "31-Dec-2021" false "csv")
  = [Samples.five_rows].
Proof.
  assert (H : Samples.comparison_model ["AAPL"; "MSFT"] "income" "31-Dec-2021" false
              = Ret Samples.five_rows) by reflexivity.
  split; [exact H|].
  destruct (proj2 (comparison_prints_after_export Samples.comparison_model
                     Samples.plain_colors Samples.helpers_return "." true
                     "income" "Income Data" ["AAPL"; "MSFT"] "31-Dec-2021" false
                     "csv" Samples.five_rows H) eq_refl)
    as (shown & Hs & Hp & He).
  split; [reflexivity | exact He].
Defined.

(** ["--foo bogus"]: the option does not hide the unknown command. *)
Lemma unregistered_after_options_witness :
  TA.built Session.aapl /\
  Py.split "--foo bogus" = (["--foo"] ++ "bogus" :: [])%list /\
  Forall (fun s => TA.option_like s = true) ["--foo"] /\
  Argparse.starts_with_dash "bogus" = false /\ ~ In "bogus" TA.CHOICES /\
  TA.switch Session.quiet Session.flags "--foo bogus" Session.aapl Session.no_files
  = (Raise (SystemExit 2), Session.aapl,
     {| TA.fs := ∅; TA.remove_error := fun _ => None;
        TA.trace := [TA.Switch "--foo bogus";
                     TA.ParserError "ta" (TA.invalid_choice "bogus")] |}).
Proof.
  assert (H1 : TA.built Session.aapl) by reflexivity.
  assert (H2 : Py.split "--foo bogus" = (["--foo"] ++ "bogus" :: [])%list)
    by reflexivity.
  assert (H3 : Forall (fun s => TA.option_like s = true) ["--foo"])
    by (repeat constructor).
  assert (H4 : Argparse.starts_with_dash "bogus" = false) by reflexivity.
  assert (H5 : ~ In "bogus" TA.CHOICES) by (cbn; intuition discriminate).
  repeat (split; [assumption|]).
  exact (proj1 (unregistered_after_options Session.quiet Session.flags
                  "--foo bogus" ["--foo"] "bogus" [] [] Session.aapl
                  Session.no_files H1 H2 H3 H4 H5)).
Defined.

(** A session of three lines with quiet collaborators and the figure on
    disk. *)
Lemma menu_deletes_only_figure_witness :
  (forall call w0, snd (fst (Session.quiet call w0)) = TA.fs w0) /\
  (TA.fs (snd (TA.menu Session.quiet Session.flags 1 "AAPL" None "15min" 2
                 ["view"; "rsi"; "q"] Session.with_figure))
   = TA.fs Session.with_figure
   \/ TA.fs (snd (TA.menu Session.quiet Session.flags 1 "AAPL" None "15min" 2
                    ["view"; "rsi"; "q"] Session.with_figure))
      = TA.fs Session.with_figure ∖ {["AAPL" +:+ ".jpg"]}).
Proof.
  assert (H : forall call w0, snd (fst (Session.quiet call w0)) = TA.fs w0)
    by reflexivity.
  split; [exact H|].
  exact (menu_deletes_only_figure Session.quiet Session.flags 1 "AAPL" None
           "15min" 2 ["view"; "rsi"; "q"] Session.with_figure H).
Defined.

(** ["7,x"] as the value of [--length]. *)
Lemma length_option_outcome_witness :
  Argparse.starts_with_dash "7,x" = false /\
  Argparse.parse_known_args TA.ema_parser ["--length"; "7,x"]
  = Argparse.Exits "ema"
      (Argparse.ArgumentError "-l/--length" (Argparse.InvalidValue "<lambda>" "7,x")).
Proof.
  assert (H : Argparse.starts_with_dash "7,x" = false) by reflexivity.
  split; [exact H|].
  exact (Forall_inv (length_option_outcome "7,x" H)).
Defined.
